(** * emcee: the ensemble sampler ([src/emcee/ensemble.py])

    A shallow embedding of [EnsembleSampler] and [_FunctionWrapper].
    Python objects that are mutated in place become explicit state: the
    sampler's attribute dictionary is a record threaded through a small
    state-and-exception monad that also collects the calls made to the
    external collaborators (progress bar, backend, moves, warnings, the
    user's log-density function) as a list of events.  *)

From Stdlib Require Import ZArith QArith Lia.
From stdpp Require Import base option list strings gmap.

Set Warnings "-register-all".
Local Open Scope Z_scope.

(** ** Numbers

    numpy's [float64] values, as far as the sampler looks at them: a finite
    value (kept as an exact rational, rounding is not modelled) or one of
    the three special values that [np.isinf] and [np.isnan] tell apart. *)

Inductive npfloat : Type :=
| Finite (q : Q)
| PosInf
| NegInf
| NaN.

Definition isnan (x : npfloat) : bool :=
  match x with NaN => true | _ => false end.

Definition isinf (x : npfloat) : bool :=
  match x with PosInf | NegInf => true | _ => false end.

(** [float(z)] for a Python integer. *)
Definition float_of_Z (z : Z) : npfloat := Finite (inject_Z z).

Definition Qsign_neg (q : Q) : bool := (Qnum q <? 0).
Definition Qis_zero (q : Q) : bool := (Qnum q =? 0).

(** numpy's true division of two [float64] values: dividing by zero does
    not raise, it gives an infinity or, for [0 / 0], NaN. Signed zeros
    are not told apart: every zero divisor here is [float(0) = +0.0]. *)
Definition np_div (x y : npfloat) : npfloat :=
  match x, y with
  | NaN, _ | _, NaN => NaN
  | Finite a, Finite b =>
      if Qis_zero b then
        if Qis_zero a then NaN
        else if Qsign_neg a then NegInf else PosInf
      else Finite (a / b)
  | Finite _, (PosInf | NegInf) => Finite 0
  | (PosInf | NegInf), (PosInf | NegInf) => NaN
  | PosInf, Finite b => if Qsign_neg b then NegInf else PosInf
  | NegInf, Finite b => if Qsign_neg b then PosInf else NegInf
  end.

Definition np_add (x y : npfloat) : npfloat :=
  match x, y with
  | NaN, _ | _, NaN => NaN
  | Finite a, Finite b => Finite (a + b)
  | PosInf, NegInf | NegInf, PosInf => NaN
  | PosInf, _ | _, PosInf => PosInf
  | NegInf, _ | _, NegInf => NegInf
  end.

(** [np.sum] of a one-dimensional array. *)
Definition np_sum (xs : list npfloat) : npfloat :=
  foldr np_add (Finite 0) xs.

(** [0 <= x <= 1] on [float64]; every comparison with NaN is false. *)
Definition in_unit_interval (x : npfloat) : Prop :=
  match x with
  | Finite q => (0 <= q)%Q /\ (q <= 1)%Q
  | _ => False
  end.

(** Two-dimensional arrays are lists of rows; [np.any(np.isinf(p))]. *)
Definition any_isinf (p : list (list npfloat)) : bool :=
  existsb (existsb isinf) p.

Definition any_isnan (p : list (list npfloat)) : bool :=
  existsb (existsb isnan) p.

(** [np.shape(c) != (nwalkers, ndim)] for a two-dimensional array. *)
Definition has_shape2 (c : list (list npfloat)) (nwalkers ndim : nat) : bool :=
  (length c =? nwalkers)%nat && forallb (fun row => (length row =? ndim)%nat) c.

(** ** Python values

    What the user's log-density function may hand back: a number, some
    other object that is neither a number nor a sequence, or a sequence
    (tuple, list, array) of values. *)

Inductive pyval : Type :=
| PyFloat (x : npfloat)
| PyInt (z : Z)
| PyObj (id : Z)
| PySeq (xs : list pyval).

(** What numpy raises: a [ValueError], which line 439 catches, or
    something else. *)
Inductive np_error : Type :=
| NpValueError (msg : string)
| NpError (msg : string).

(** Exceptions. The sampler itself only raises [ValueError], told apart by
    message; [Raised] is whatever the user's function raised and
    [FromNumpy] what a numpy routine raised. *)
Inductive exn : Type :=
| ValueError (msg : string)
| TypeError (msg : string)
| IndexError (msg : string)
| AttributeError (attr : string)
| OverflowError (msg : string)
| FromNumpy (e : np_error)
| Raised (what : string).

(** The error kinds of the specification, read off the messages. *)
Inductive error_kind : Type :=
| ShapeError
| InvalidParameterError
| InvalidLogProbError
| InvalidThinningError
| MissingStateError
| EvaluatorFailure
| OtherError.

Definition msg_shape : string := "incompatible input dimensions".
Definition msg_inf : string := "At least one parameter value was infinite".
Definition msg_nan : string := "At least one parameter value was NaN".
Definition msg_lp0_nan : string := "The initial log_prob was NaN".
Definition msg_lp_nan : string := "Probability function returned NaN".
Definition msg_thin : string := "Invalid thinning argument".
Definition msg_missing : string :=
  "Cannot have `initial_state=None` if run_mcmc has never been called.".
(** The message of line 127 without the two shapes it formats in. *)
Definition msg_backend_shape : string :=
  "the shape of the backend is incompatible with the shape of the sampler".

Definition kind_of (e : exn) : error_kind :=
  match e with
  | ValueError m =>
      if bool_decide (m = msg_shape) then ShapeError
      else if bool_decide (m = msg_backend_shape) then ShapeError
      else if bool_decide (m = msg_inf) then InvalidParameterError
      else if bool_decide (m = msg_nan) then InvalidParameterError
      else if bool_decide (m = msg_lp0_nan) then InvalidLogProbError
      else if bool_decide (m = msg_lp_nan) then InvalidLogProbError
      else if bool_decide (m = msg_thin) then InvalidThinningError
      else if bool_decide (m = msg_missing) then MissingStateError
      else OtherError
  | Raised _ => EvaluatorFailure
  | _ => OtherError
  end.

(** [l[0]]: only a non-empty sequence has a first element. *)
Definition py_index0 (l : pyval) : exn + pyval :=
  match l with
  | PySeq (x :: _) => inr x
  | PySeq [] => inl (IndexError "index out of range")
  | _ => inl (TypeError "object is not subscriptable")
  end.

(** [l[1:]]. *)
Definition py_tail (l : pyval) : exn + pyval :=
  match l with
  | PySeq xs => inr (PySeq (tail xs))
  | _ => inl (TypeError "object is not subscriptable")
  end.

(** [float(v)]. *)
Definition py_float (v : pyval) : exn + npfloat :=
  match v with
  | PyFloat x => inr x
  | PyInt z => inr (float_of_Z z)
  | _ => inl (TypeError "float() argument must be a string or a number")
  end.

(** [int(v)]: truncation toward zero on floats. *)
Definition py_int (v : pyval) : exn + Z :=
  match v with
  | PyInt z => inr z
  | PyFloat (Finite q) => inr (Z.quot (Qnum q) (Zpos (Qden q)))
  | PyFloat NaN => inl (ValueError "cannot convert float NaN to integer")
  | PyFloat _ => inl (OverflowError "cannot convert float infinity to integer")
  | _ => inl (TypeError "int() argument must be a string or a number")
  end.

(** [for l in results]: only a sequence can be iterated. *)
Definition py_iter (v : pyval) : exn + list pyval :=
  match v with
  | PySeq xs => inr xs
  | _ => inl (TypeError "object is not iterable")
  end.

(** A list comprehension whose body may raise: the first exception wins. *)
Fixpoint try_map {A B : Type} (g : A -> exn + B) (l : list A) : exn + list B :=
  match l with
  | [] => inr []
  | a :: l' =>
      match g a with
      | inl e => inl e
      | inr b =>
          match try_map g l' with
          | inl e => inl e
          | inr bs => inr (b :: bs)
          end
      end
  end.

(** ** numpy arrays of blobs *)

Inductive dtype : Type :=
| DFloat64
| DInt64
| DObject
| DNamed (name : string).

Record ndarray : Type := mk_ndarray {
  nd_dtype : dtype;
  nd_shape : list nat;
  nd_data : list pyval
}.

(** [np.arange(len(shape))[np.array(shape) == 1] + 1]: the axes, counted
    from 1, whose extent in [shape = blob.shape[1:]] is one. *)
Fixpoint singleton_axes_from (k : nat) (shape : list nat) : list nat :=
  match shape with
  | [] => []
  | d :: rest =>
      if (d =? 1)%nat then k :: singleton_axes_from (S k) rest
      else singleton_axes_from (S k) rest
  end.

Definition singleton_axes (shape : list nat) : list nat :=
  singleton_axes_from 1 shape.

Fixpoint drop_axes_from (k : nat) (axes : list nat) (shape : list nat) : list nat :=
  match shape with
  | [] => []
  | d :: rest =>
      if bool_decide (k ∈ axes) then drop_axes_from (S k) axes rest
      else d :: drop_axes_from (S k) axes rest
  end.

(** [np.squeeze(blob, axes)] for axes of extent one: the axes go, the
    elements stay in the same order. *)
Definition np_squeeze (a : ndarray) (axes : list nat) : ndarray :=
  mk_ndarray (nd_dtype a) (drop_axes_from 0 axes (nd_shape a)) (nd_data a).

(** Lines 443-448: "Deal with single blobs properly". *)
Definition squeeze_single_blobs (blob : ndarray) : ndarray :=
  let shape := tail (nd_shape blob) in
  if (length shape =? 0)%nat then blob
  else
    let axes := singleton_axes shape in
    if (length axes =? 0)%nat then blob
    else np_squeeze blob axes.

(** ** The evaluator wrapper ([_FunctionWrapper])

    The argument of one unit of work is one walker's coordinate vector, or
    the whole batch when the sampler is vectorized. *)

Inductive pyarg : Type :=
| Row (x : list npfloat)
| Batch (p : list (list npfloat)).

Inductive print_line : Type :=
| PrHeader
| PrParams (x : pyarg)
| PrArgs (a : list pyval)
| PrKwargs (k : list (string * pyval))
| PrException
| PrTraceback (what : string).

(** What the evaluation pipeline does to the outside world: it calls the
    user's function and, when that raises, prints. *)
Inductive lp_event : Type :=
| EvCall (x : pyarg)
| EvPrint (l : print_line).

#[global] Instance exn_ret : MRet (sum exn) := fun A a => inr a.
#[global] Instance exn_bind : MBind (sum exn) :=
  fun A B k m => match m with inl e => inl e | inr a => k a end.

Module FunctionWrapper.

(** The user's function either raises (the payload names the exception)
    or returns a value. *)
Record t : Type := mk {
  f : pyarg -> list pyval -> list (string * pyval) -> string + pyval;
  args : list pyval;
  kwargs : list (string * pyval)
}.

Definition __init__ (f : pyarg -> list pyval -> list (string * pyval) -> string + pyval)
    (args : option (list pyval)) (kwargs : option (list (string * pyval))) : t :=
  mk f (default [] args) (default [] kwargs).

(** [__call__]: the bare [except:] prints and re-raises. *)
Definition __call__ (self : t) (x : pyarg) : list lp_event * (exn + pyval) :=
  match f self x (args self) (kwargs self) with
  | inr v => ([EvCall x], inr v)
  | inl what =>
      ([EvCall x;
        EvPrint PrHeader;
        EvPrint (PrParams x);
        EvPrint (PrArgs (args self));
        EvPrint (PrKwargs (kwargs self));
        EvPrint PrException;
        EvPrint (PrTraceback what)],
       inl (Raised what))
  end.

End FunctionWrapper.

(** ** numpy, as far as the sampler calls it *)

Class Numpy : Type := {
  (** [np.atleast_1d(v).dtype] *)
  np_atleast_1d_dtype : pyval -> np_error + dtype;
  (** [np.array(l, dtype=dt)] *)
  np_array : list pyval -> dtype -> np_error + ndarray;
  (** [np.linalg.cond(np.atleast_2d(np.cov(c, rowvar=False)))]: the
      condition number, or the [LinAlgError] of a covariance that is not
      finite (one walker, coordinates that are not finite). *)
  np_cond_cov : list (list npfloat) -> np_error + npfloat
}.

(** [x > 1e8]. *)
Definition exceeds_1e8 (x : npfloat) : bool :=
  match x with
  | Finite q => (100000000 * Zpos (Qden q) <? Qnum q)
  | PosInf => true
  | _ => false
  end.

(** ** Mapping the evaluator over the walkers

    [pool.map] follows the calling sequence of the built-in [map]: either
    one hands back the results in walker order, and the first exception
    ends the evaluation. *)

Definition Pool : Type := Z.

Inductive map_func : Type :=
| BuiltinMap
| PoolMap (p : Pool).

Definition select_map (pool : option Pool) : map_func :=
  match pool with
  | Some p => PoolMap p
  | None => BuiltinMap
  end.

Fixpoint map_calls {A B : Type} (g : A -> list lp_event * (exn + B)) (l : list A)
    : list lp_event * (exn + list B) :=
  match l with
  | [] => ([], inr [])
  | a :: l' =>
      match g a with
      | (ev, inl e) => (ev, inl e)
      | (ev, inr b) =>
          match map_calls g l' with
          | (ev', inl e) => (ev ++ ev', inl e)
          | (ev', inr bs) => (ev ++ ev', inr (b :: bs))
          end
      end
  end.

Definition run_map {A B : Type} (m : map_func) (g : A -> list lp_event * (exn + B))
    (l : list A) : list lp_event * (exn + list B) :=
  match m with
  | BuiltinMap => map_calls g l
  | PoolMap _ => map_calls g l
  end.

(** ** [compute_log_prob] *)

Definition from_numpy {A : Type} (r : np_error + A) : exn + A :=
  match r with
  | inl e => inl (FromNumpy e)
  | inr a => inr a
  end.

Section ComputeLogProb.
Context {NP : Numpy}.

(** Lines 411-424: the list of unit results. In the vectorized case the
    single result is iterated by the comprehensions of lines 427-430; a
    result that cannot be iterated raises [TypeError] there, inside the
    [try] and again in its handler, so the error leaves either way. *)
Definition evaluate (vectorize : bool) (pool : option Pool)
    (log_prob_fn : FunctionWrapper.t) (p : list (list npfloat))
    : list lp_event * (exn + list pyval) :=
  if vectorize then
    match FunctionWrapper.__call__ log_prob_fn (Batch p) with
    | (ev, inl e) => (ev, inl e)
    | (ev, inr results) => (ev, py_iter results)
    end
  else
    run_map (select_map pool)
      (fun row => FunctionWrapper.__call__ log_prob_fn (Row row)) p.

(** Lines 433-441: the dtype of the blobs. *)
Definition blob_dtype (blobs_dtype : option dtype) (blob : list pyval) : exn + dtype :=
  match blobs_dtype with
  | Some dt => inr dt
  | None =>
      match blob with
      | [] => inl (IndexError "list index out of range")
      | b0 :: _ =>
          match np_atleast_1d_dtype b0 with
          | inr dt => inr dt
          | inl (NpValueError _) => inr DObject
          | inl e => inl (FromNumpy e)
          end
      end
  end.

(** The [else] branch of the [try], lines 433-448. *)
Definition assemble_blobs (blobs_dtype : option dtype) (blob : list pyval)
    : exn + ndarray :=
  dt ← blob_dtype blobs_dtype blob;
  arr ← from_numpy (np_array blob dt);
  mret (squeeze_single_blobs arr).

(** Lines 426-448: structural unpacking of the unit results. *)
Definition unpack_results (blobs_dtype : option dtype) (results : list pyval)
    : exn + (list npfloat * option ndarray) :=
  match try_map (fun l => l0 ← py_index0 l; py_float l0) results with
  | inr log_prob =>
      match try_map py_tail results with
      | inr blob =>
          arr ← assemble_blobs blobs_dtype blob;
          mret (log_prob, Some arr)
      | inl (IndexError _) | inl (TypeError _) =>
          log_prob ← try_map py_float results;
          mret (log_prob, None)
      | inl e => inl e
      end
  | inl (IndexError _) | inl (TypeError _) =>
      log_prob ← try_map py_float results;
      mret (log_prob, None)
  | inl e => inl e
  end.

(** Lines 450-454. *)
Definition check_log_prob (r : list npfloat * option ndarray)
    : exn + (list npfloat * option ndarray) :=
  if existsb isnan (fst r) then inl (ValueError msg_lp_nan) else inr r.

(** The method reads [self.vectorize], [self.pool], [self.blobs_dtype]
    and [self.log_prob_fn] and nothing else of the sampler. *)
Definition compute_log_prob_with (vectorize : bool) (pool : option Pool)
    (blobs_dtype : option dtype) (log_prob_fn : FunctionWrapper.t)
    (coords : list (list npfloat))
    : list lp_event * (exn + (list npfloat * option ndarray)) :=
  let p := coords in
  if any_isinf p then ([], inl (ValueError msg_inf))
  else if any_isnan p then ([], inl (ValueError msg_nan))
  else
    match evaluate vectorize pool log_prob_fn p with
    | (ev, inl e) => (ev, inl e)
    | (ev, inr results) =>
        (ev, r ← unpack_results blobs_dtype results; check_log_prob r)
    end.

End ComputeLogProb.

(** ** The random stream

    [numpy.random.mtrand.RandomState] is kept abstract: a type of internal
    states and the index that [choice] draws for a vector of
    probabilities. *)

Class RandomState (rng : Type) : Type := {
  rng_draw : rng -> list npfloat -> nat * rng;
  (** The stream with its cached Gaussian, [(has_gauss, gauss)],
      replaced. *)
  rng_set_gauss : rng -> Z -> npfloat -> rng
}.

(** What may be handed to [set_state]: [None], a snapshot taken by
    [get_state], some object that is refused at sight, or a legacy tuple
    [('MT19937', key, pos, has_gauss, gauss)] whose key the bit generator
    refuses. *)
Inductive py_rstate (rng : Type) : Type :=
| RNone
| RSnap (s : rng)
| RJunk (j : Z)
| RLegacy (has_gauss : Z) (gauss : npfloat).
Arguments RNone {rng}.
Arguments RSnap {rng} s.
Arguments RJunk {rng} j.
Arguments RLegacy {rng} has_gauss gauss.

(** [x < 0]. *)
Definition is_negative (x : npfloat) : bool :=
  match x with
  | Finite q => (Qnum q <? 0)
  | NegInf => true
  | _ => false
  end.

Definition is_one (x : npfloat) : bool :=
  match x with
  | Finite q => (Qnum q =? Zpos (Qden q))
  | _ => false
  end.

Section Sampler.
Context {rng : Type} {RS : RandomState rng} {NP : Numpy}.

Definition get_state (r : rng) : py_rstate rng := RSnap r.

(** [RandomState.set_state(state)]: the exception, if any, and the stream
    afterwards. A refusal is not all or nothing: of a legacy tuple numpy
    assigns the cached Gaussian first, and the bit generator refuses the
    key after that. *)
Definition set_state (r : rng) (state : py_rstate rng) : option exn * rng :=
  match state with
  | RSnap s => (None, s)
  | RNone => (Some (TypeError "state must be a dict or a tuple"), r)
  | RJunk _ => (Some (ValueError "state is not a legacy MT19937 state"), r)
  | RLegacy has_gauss gauss =>
      (Some (ValueError "state is not a valid MT19937 state"),
       rng_set_gauss r has_gauss gauss)
  end.

(** [RandomState.choice(a, p=p)]: numpy validates its arguments, then
    draws; the element and its index come back. The sum of the
    probabilities is compared with 1 exactly, not up to a tolerance. *)
Definition choice {A : Type} (r : rng) (a : list A) (p : list npfloat)
    : (exn + (nat * A)) * rng :=
  if (length a =? 0)%nat then (inl (ValueError "a must be non-empty"), r)
  else if negb (length p =? length a)%nat then
    (inl (ValueError "a and p must have same size"), r)
  else if isnan (np_sum p) then
    (inl (ValueError "probabilities contain NaN"), r)
  else if existsb is_negative p then
    (inl (ValueError "probabilities are not non-negative"), r)
  else if negb (is_one (np_sum p)) then
    (inl (ValueError "probabilities do not sum to 1"), r)
  else
    let '(i, r') := rng_draw r p in
    match a !! i with
    | Some x => (inr (i, x), r')
    | None => (inl (IndexError "index out of bounds"), r')
    end.

(** ** The walker-ensemble state ([State]) *)

(** Modelled from the spec: the [State] class, [emcee/state.py], is not
    part of the sources; its four fields are those the sampler reads and
    writes, with [None] for absent log-probabilities and blobs. *)
Record State : Type := mk_State {
  coords : list (list npfloat);
  log_prob : option (list npfloat);
  blobs : option ndarray;
  random_state : py_rstate rng
}.

(** Modelled from the spec: [State(initial_state, copy=True)] of the absent
    [emcee/state.py]. A state is copied field by field, anything else is
    taken as the coordinates of a state that has nothing else yet. *)
Definition State_init (initial_state : State + list (list npfloat)) : State :=
  match initial_state with
  | inl s => mk_State (coords s) (log_prob s) (blobs s) (random_state s)
  | inr c => mk_State c None None RNone
  end.

Definition with_random_state (s : State) (r : py_rstate rng) : State :=
  mk_State (coords s) (log_prob s) (blobs s) r.
Definition with_log_prob (s : State) (lp : option (list npfloat)) : State :=
  mk_State (coords s) lp (blobs s) (random_state s).
Definition with_blobs (s : State) (b : option ndarray) : State :=
  mk_State (coords s) (log_prob s) b (random_state s).

(** ** The storage backend *)

(** Modelled from the spec: the [Backend] class, [emcee/backends], is not
    part of the sources. It holds the checkpoints, the per-walker counts of
    accepted proposals, the number of stored steps, the shape, the storage
    grown so far and the last snapshot of the stream. *)
Record Backend : Type := mk_Backend {
  initialized : bool;
  shape : nat * nat;
  iteration : Z;
  accepted : list Z;
  chain : list State;
  grown : Z;
  backend_random_state : py_rstate rng
}.

(** Modelled from the spec: the storage backend, [emcee/backends], is
    not part of the sources. A new backend is not initialized. *)
Definition Backend_new : Backend :=
  mk_Backend false (0%nat, 0%nat) 0 [] [] 0 RNone.

(** Modelled from the spec: [reset(nwalkers, ndim)] of the absent backend,
    "clears/initializes storage for a fresh run". *)
Definition Backend_reset (b : Backend) (nwalkers ndim : nat) : Backend :=
  mk_Backend true (nwalkers, ndim) 0 (replicate nwalkers 0) [] 0 RNone.

(** Modelled from the spec: [grow(n, blobs_example)] of the absent backend,
    "preallocates storage for n additional steps". *)
Definition Backend_grow (b : Backend) (n : Z) (blobs_example : option ndarray)
    : Backend :=
  mk_Backend (initialized b) (shape b) (iteration b) (accepted b) (chain b)
    (grown b + n) (backend_random_state b).

Definition count_accepted (acc : list Z) (mask : list bool) : list Z :=
  zip_with (fun a (m : bool) => if m then a + 1 else a) acc mask.

(** Modelled from the spec: [save_step(state, accepted_mask)] of the absent
    backend, "appends one checkpoint": the state, the accepted counts and
    the random snapshot are written and the iteration count advances. *)
Definition Backend_save_step (b : Backend) (state : State) (mask : list bool)
    : Backend :=
  mk_Backend (initialized b) (shape b) (iteration b + 1)
    (count_accepted (accepted b) mask) (chain b ++ [state])
    (grown b) (random_state state).

(** Modelled from the spec: [get_last_sample()] of the absent backend, the
    most recent checkpoint. *)
Definition Backend_get_last_sample (b : Backend) : exn + State :=
  match last (chain b) with
  | Some s => inr s
  | None => inl (AttributeError "you must run the sampler with store=True")
  end.

(** ** Moves *)

(** Modelled from the spec: the [Model] tuple, [emcee/model.py], is not
    part of the sources: the log-density, the [compute_log_prob] method,
    the map function and the random stream, as handed to a move. *)
Record Model : Type := mk_Model {
  model_log_prob_fn : FunctionWrapper.t;
  compute_log_prob_fn :
    list (list npfloat) -> list lp_event * (exn + (list npfloat * option ndarray));
  model_map_fn : map_func;
  random : rng
}.

(** Modelled from the spec: the move interface, [emcee/moves], is not
    part of the sources. A proposal uses the random stream of the model and
    may change the move itself; both are handed back, also when the
    proposal raises. [StretchMove] is the default move. *)
Class MoveLike (Move : Type) : Type := {
  StretchMove : Move;
  propose : Move -> Model -> State ->
            list lp_event * rng * Move * (exn + (State * list bool));
  tune : Move -> State -> list bool -> Move
}.

Context {Move : Type} {ML : MoveLike Move}.

(** ** The sampler object: its attribute dictionary

    [_previous_state] is [None] while the attribute does not exist,
    [Some None] when it holds Python's [None] and [Some (Some s)] when it
    holds a state. *)
Record EnsembleSampler : Type := mk_EnsembleSampler {
  _moves : list Move;
  _weights : list npfloat;
  pool : option Pool;
  vectorize : bool;
  blobs_dtype : option dtype;
  ndim : nat;
  nwalkers : nat;
  backend : Backend;
  _previous_state : option (option State);
  _random : rng;
  log_prob_fn : FunctionWrapper.t
}.

Definition set_moves (ms : list Move) (s : EnsembleSampler) : EnsembleSampler :=
  mk_EnsembleSampler ms (_weights s) (pool s) (vectorize s) (blobs_dtype s)
    (ndim s) (nwalkers s) (backend s) (_previous_state s) (_random s)
    (log_prob_fn s).
Definition set_pool (p : option Pool) (s : EnsembleSampler) : EnsembleSampler :=
  mk_EnsembleSampler (_moves s) (_weights s) p (vectorize s) (blobs_dtype s)
    (ndim s) (nwalkers s) (backend s) (_previous_state s) (_random s)
    (log_prob_fn s).
Definition set_backend (b : Backend) (s : EnsembleSampler) : EnsembleSampler :=
  mk_EnsembleSampler (_moves s) (_weights s) (pool s) (vectorize s)
    (blobs_dtype s) (ndim s) (nwalkers s) b (_previous_state s) (_random s)
    (log_prob_fn s).
Definition set_previous_state (p : option (option State)) (s : EnsembleSampler)
    : EnsembleSampler :=
  mk_EnsembleSampler (_moves s) (_weights s) (pool s) (vectorize s)
    (blobs_dtype s) (ndim s) (nwalkers s) (backend s) p (_random s)
    (log_prob_fn s).
Definition set_random (r : rng) (s : EnsembleSampler) : EnsembleSampler :=
  mk_EnsembleSampler (_moves s) (_weights s) (pool s) (vectorize s)
    (blobs_dtype s) (ndim s) (nwalkers s) (backend s) (_previous_state s) r
    (log_prob_fn s).

(** ** Events and the sampler monad *)

Inductive event : Type :=
| EvWarn (category msg : string)
| EvEval (e : lp_event)
| EvGrow (n : Z)
| EvChoice (i : nat)
| EvPropose (i : nat)
| EvSnapshot
| EvTune (i : nat)
| EvSave (s : State) (mask : list bool)
| EvPbar
| EvYield (s : State).

(** A method body: from the attributes before to the events it caused,
    the attributes after, and an exception or a value. *)
Definition M (A : Type) : Type :=
  EnsembleSampler -> list event * EnsembleSampler * (exn + A).

Definition ret {A : Type} (a : A) : M A := fun self => ([], self, inr a).

Definition bind {A B : Type} (m : M A) (k : A -> M B) : M B :=
  fun self =>
    match m self with
    | (ev, self', inl e) => (ev, self', inl e)
    | (ev, self', inr a) =>
        match k a self' with
        | (ev', self'', r) => (ev ++ ev', self'', r)
        end
    end.

Definition raise {A : Type} (e : exn) : M A := fun self => ([], self, inl e).
Definition emit (e : event) : M unit := fun self => ([e], self, inr tt).
Definition gets {A : Type} (proj : EnsembleSampler -> A) : M A :=
  fun self => ([], self, inr (proj self)).
Definition modify (g : EnsembleSampler -> EnsembleSampler) : M unit :=
  fun self => ([], g self, inr tt).
Definition lift {A : Type} (r : exn + A) : M A := fun self => ([], self, r).
Definition when (b : bool) (m : M unit) : M unit := if b then m else ret tt.

Notation "x <- m ;; k" := (bind m (fun x => k))
  (at level 100, m at next level, right associativity).
Notation "m ;; k" := (bind m (fun _ => k))
  (at level 100, right associativity).

(** [deprecation_warning(msg)] and [warnings.warn(msg, RuntimeWarning)]. *)
Definition deprecation_warning (msg : string) : M unit :=
  emit (EvWarn "DeprecationWarning" msg).
Definition runtime_warning (msg : string) : M unit :=
  emit (EvWarn "RuntimeWarning" msg).

(** ** [__init__] *)

(** The [moves] argument: one move, a list of moves, or a list of
    (move, weight) pairs. *)
Inductive moves_arg : Type :=
| OneMove (m : Move)
| MoveList (ms : list Move)
| WeightedMoves (mw : list (Move * npfloat)).

(** Lines 95-107. Unzipping an empty list leaves nothing to unpack into
    two names, a [ValueError] that the [except TypeError] lets through. *)
Definition parse_moves (moves : option moves_arg)
    : exn + (list Move * list npfloat) :=
  match moves with
  | None => inr ([StretchMove], [Finite 1])
  | Some (OneMove m) => inr ([m], [Finite 1])
  | Some (MoveList []) | Some (WeightedMoves []) =>
      inl (ValueError "not enough values to unpack")
  | Some (MoveList ms) => inr (ms, replicate (length ms) (Finite 1))
  | Some (WeightedMoves mw) => inr (mw.*1, mw.*2)
  end.

(** Line 109: [self._weights /= np.sum(self._weights)]. *)
Definition normalize (ws : list npfloat) : list npfloat :=
  map (fun w => np_div w (np_sum ws)) ws.

Definition ctor_warnings (a threads runtime_sortingfn live_dangerously : bool)
    : list event :=
  (if a then
     [EvWarn "DeprecationWarning" "The 'a' argument is deprecated, use 'moves' instead"]
   else []) ++
  (if threads then
     [EvWarn "DeprecationWarning" "The 'threads' argument is deprecated"]
   else []) ++
  (if runtime_sortingfn then
     [EvWarn "DeprecationWarning" "The 'runtime_sortingfn' argument is deprecated"]
   else []) ++
  (if live_dangerously then
     [EvWarn "DeprecationWarning" "The 'live_dangerously' argument is deprecated"]
   else []).

(** The constructor. [ambient] is [np.random.get_state()], the state of
    numpy's global generator, and [entropy] the state that a new
    [RandomState()] starts in. The four flags say which deprecated
    arguments were given; [postargs] is never looked at. *)
Definition __init__ (nwalkers ndim : nat)
    (log_prob_fn : pyarg -> list pyval -> list (string * pyval) -> string + pyval)
    (pool : option Pool) (moves : option moves_arg)
    (args : option (list pyval)) (kwargs : option (list (string * pyval)))
    (backend : option Backend) (vectorize : bool) (blobs_dtype : option dtype)
    (a threads live_dangerously runtime_sortingfn : bool)
    (ambient entropy : rng)
    : list event * (exn + EnsembleSampler) :=
  let ev := ctor_warnings a threads runtime_sortingfn live_dangerously in
  match parse_moves moves with
  | inl e => (ev, inl e)
  | inr (ms, ws) =>
      let ws := normalize ws in
      let backend := default Backend_new backend in
      let finish (backend : Backend) (prev : option (option State))
                 (state : py_rstate rng) :=
        match set_state entropy state with
        | (Some e, _) => inl e
        | (None, r) =>
            inr (mk_EnsembleSampler ms ws pool vectorize blobs_dtype ndim
                   nwalkers backend prev r
                   (FunctionWrapper.__init__ log_prob_fn args kwargs))
        end in
      if negb (initialized backend) then
        (ev, finish (Backend_reset backend nwalkers ndim) (Some None)
               (RSnap ambient))
      else if negb (bool_decide (shape backend = (nwalkers, ndim))) then
        (ev, inl (ValueError msg_backend_shape))
      else
        let state :=
          match backend_random_state backend with
          | RNone => RSnap ambient
          | st => st
          end in
        if 0 <? iteration backend then
          match Backend_get_last_sample backend with
          | inl e => (ev, inl e)
          | inr last_sample => (ev, finish backend (Some (Some last_sample)) state)
          end
        else (ev, finish backend None state)
  end.

(** ** The [random_state] property *)

Definition get_random_state (self : EnsembleSampler) : py_rstate rng :=
  get_state (_random self).

(** The setter: [try: self._random.set_state(state) except: pass]. The
    stream is the object [self._random], so what a refused [set_state]
    wrote before it raised stays written. *)
Definition set_random_state (state : py_rstate rng) : M unit :=
  fun self =>
    ([], set_random (snd (set_state (_random self) state)) self, inr tt).

Definition reset : M unit :=
  modify (fun self =>
    set_backend (Backend_reset (backend self) (nwalkers self) (ndim self)) self).

(** ** [compute_log_prob] as a method *)

Definition compute_log_prob_fun (self : EnsembleSampler)
    : list (list npfloat) -> list lp_event * (exn + (list npfloat * option ndarray)) :=
  compute_log_prob_with (vectorize self) (pool self) (blobs_dtype self)
    (log_prob_fn self).

Definition compute_log_prob (coords : list (list npfloat))
    : M (list npfloat * option ndarray) :=
  fun self =>
    match compute_log_prob_fun self coords with
    | (ev, r) => (map EvEval ev, self, r)
    end.

(** ** [sample] *)

(** Lines 246-248: [(not skip_initial_state_check) and
    np.linalg.cond(...) > 1e8]. The [and] leaves the condition number
    alone when the check is skipped; otherwise what [np.linalg.cond]
    raises leaves [sample]. *)
Definition ill_conditioned (skip_initial_state_check : bool)
    (coords : list (list npfloat)) : exn + bool :=
  if skip_initial_state_check then inr false
  else
    c ← from_numpy (np_cond_cov coords);
    mret (exceeds_1e8 c).

(** Lines 242-288: the initial state, checked and completed. *)
Definition sample_initial_state
    (initial_state : State + list (list npfloat))
    (log_prob0 : option (list npfloat)) (rstate0 : option (py_rstate rng))
    (blobs0 : option ndarray) (skip_initial_state_check : bool) : M State :=
  let state := State_init initial_state in
  nw <- gets nwalkers ;;
  nd <- gets ndim ;;
  if negb (has_shape2 (coords state) nw nd) then raise (ValueError msg_shape)
  else
    ill <- lift (ill_conditioned skip_initial_state_check (coords state)) ;;
    when ill
      (runtime_warning
         "Initial state is not linearly independent and it will not allow a full exploration of parameter space") ;;
    state <- match rstate0 with
             | Some r =>
                 deprecation_warning
                   "The 'rstate0' argument is deprecated, use a 'State' instead" ;;
                 ret (with_random_state state r)
             | None => ret state
             end ;;
    set_random_state (random_state state) ;;
    state <- match log_prob0 with
             | Some lp =>
                 deprecation_warning
                   "The 'log_prob0' argument is deprecated, use a 'State' instead" ;;
                 ret (with_log_prob state (Some lp))
             | None => ret state
             end ;;
    state <- match blobs0 with
             | Some b =>
                 deprecation_warning
                   "The 'blobs0' argument is deprecated, use a 'State' instead" ;;
                 ret (with_blobs state (Some b))
             | None => ret state
             end ;;
    state <- match log_prob state with
             | None =>
                 r <- compute_log_prob (coords state) ;;
                 ret (with_blobs (with_log_prob state (Some (fst r))) (snd r))
             | Some _ => ret state
             end ;;
    match log_prob state with
    | None => raise (ValueError msg_shape)
    | Some lp =>
        if negb (length lp =? nw)%nat then raise (ValueError msg_shape)
        else if existsb isnan lp then raise (ValueError msg_lp0_nan)
        else ret state
    end.

Definition backend_grow (n : Z) (blobs_example : option ndarray) : M unit :=
  emit (EvGrow n) ;;
  modify (fun self => set_backend (Backend_grow (backend self) n blobs_example) self).

Definition backend_save_step (state : State) (mask : list bool) : M unit :=
  emit (EvSave state mask) ;;
  modify (fun self => set_backend (Backend_save_step (backend self) state mask) self).

(** Lines 290-318: [(yield_step, checkpoint_step, iterations)]. *)
Definition sample_thinning (state : State) (iterations thin_by : pyval)
    (thin : option pyval) (store : bool) : M (Z * Z * Z) :=
  match thin with
  | Some thin =>
      deprecation_warning "The 'thin' argument is deprecated. Use 'thin_by' instead." ;;
      thin <- lift (py_int thin) ;;
      if thin <=? 0 then raise (ValueError msg_thin)
      else
        iterations <- lift (py_int iterations) ;;
        when store (backend_grow (iterations / thin) (blobs state)) ;;
        ret (1, thin, iterations)
  | None =>
      thin_by <- lift (py_int thin_by) ;;
      if thin_by <=? 0 then raise (ValueError msg_thin)
      else
        iterations <- lift (py_int iterations) ;;
        when store (backend_grow iterations (blobs state)) ;;
        ret (thin_by, thin_by, iterations)
  end.

(** Line 336. *)
Definition choose_move : M (nat * Move) :=
  fun self =>
    match choice (_random self) (_moves self) (_weights self) with
    | (inl e, r) => ([], set_random r self, inl e)
    | (inr (i, move), r) => ([EvChoice i], set_random r self, inr (i, move))
    end.

(** Line 339: the move works on the model, whose [random] is the
    sampler's own stream, and may change itself. *)
Definition call_propose (map_fn : map_func) (i : nat) (move : Move)
    (state : State) : M (Move * State * list bool) :=
  fun self =>
    let model := mk_Model (log_prob_fn self) (compute_log_prob_fun self)
                   map_fn (_random self) in
    match propose move model state with
    | (ev, r, move', res) =>
        let self' := set_moves (<[i := move']> (_moves self)) (set_random r self) in
        match res with
        | inl e => (EvPropose i :: map EvEval ev, self', inl e)
        | inr (state', mask) =>
            (EvPropose i :: map EvEval ev, self', inr (move', state', mask))
        end
    end.

Definition call_tune (i : nat) (move : Move) (state : State) (mask : list bool)
    : M unit :=
  emit (EvTune i) ;;
  modify (fun self => set_moves (<[i := tune move state mask]> (_moves self)) self).

(** Lines 335-350: one round; [i] is the round counter. *)
Definition sample_round (map_fn : map_func) (tune store : bool)
    (checkpoint_step : Z) (st : State * Z) : M (State * Z) :=
  let '(state, i) := st in
  im <- choose_move ;;
  r <- call_propose map_fn (fst im) (snd im) state ;;
  snapshot <- gets get_random_state ;;
  emit EvSnapshot ;;
  let state := with_random_state (snd (fst r)) snapshot in
  when tune (call_tune (fst im) (fst (fst r)) state (snd r)) ;;
  when (store && ((i + 1) mod checkpoint_step =? 0))
    (backend_save_step state (snd r)) ;;
  emit EvPbar ;;
  ret (state, i + 1).

Fixpoint repeat_rounds (n : nat) (body : State * Z -> M (State * Z))
    (st : State * Z) : M (State * Z) :=
  match n with
  | O => ret st
  | S n' => st' <- body st ;; repeat_rounds n' body st'
  end.

(** Lines 333-354; the value is the list of the states yielded. *)
Fixpoint sample_loop (iterations yield_step : nat)
    (body : State * Z -> M (State * Z)) (st : State * Z) : M (list State) :=
  match iterations with
  | O => ret []
  | S n' =>
      st' <- repeat_rounds yield_step body st ;;
      emit (EvYield (fst st')) ;;
      rest <- sample_loop n' yield_step body st' ;;
      ret (fst st' :: rest)
  end.

(** Lines 320-354: the model is set up and the loop runs. *)
Definition sample_run (state : State) (steps : Z * Z * Z) (tune store : bool)
    : M (list State) :=
  let '(yield_step, checkpoint_step, iterations) := steps in
  map_fn <- gets (fun self => select_map (pool self)) ;;
  sample_loop (Z.to_nat iterations) (Z.to_nat yield_step)
    (sample_round map_fn tune store checkpoint_step) (state, 0).

(** Lines 290-354: from the checked initial state on. *)
Definition sample_steps (state : State) (iterations : pyval) (tune : bool)
    (thin_by : pyval) (thin : option pyval) (store : bool) : M (list State) :=
  steps <- sample_thinning state iterations thin_by thin store ;;
  sample_run state steps tune store.

(** The generator, consumed to its end: every [yield] is an event and
    the states yielded are the value. *)
Definition sample (initial_state : State + list (list npfloat))
    (log_prob0 : option (list npfloat)) (rstate0 : option (py_rstate rng))
    (blobs0 : option ndarray) (iterations : pyval) (tune : bool)
    (skip_initial_state_check : bool) (thin_by : pyval) (thin : option pyval)
    (store : bool) (progress : bool) : M (list State) :=
  state <- sample_initial_state initial_state log_prob0 rstate0 blobs0
             skip_initial_state_check ;;
  sample_steps state iterations tune thin_by thin store.

(** ** [run_mcmc] *)

Definition run_mcmc (initial_state : option (State + list (list npfloat)))
    (nsteps : pyval)
    (log_prob0 : option (list npfloat)) (rstate0 : option (py_rstate rng))
    (blobs0 : option ndarray) (tune : bool) (skip_initial_state_check : bool)
    (thin_by : pyval) (thin : option pyval) (store : bool) (progress : bool)
    : M (option State) :=
  initial_state <-
    match initial_state with
    | None =>
        prev <- gets _previous_state ;;
        match prev with
        | None => raise (AttributeError "_previous_state")
        | Some None => raise (ValueError msg_missing)
        | Some (Some s) => ret (inl s)
        end
    | Some x => ret x
    end ;;
  yielded <- sample initial_state log_prob0 rstate0 blobs0 nsteps tune
               skip_initial_state_check thin_by thin store progress ;;
  let results := last yielded in
  modify (set_previous_state (Some results)) ;;
  ret results.

(** ** [acceptance_fraction] *)

Definition acceptance_fraction (self : EnsembleSampler) : list npfloat :=
  map (fun a => np_div (float_of_Z a) (float_of_Z (iteration (backend self))))
    (accepted (backend self)).

Definition get_last_sample (self : EnsembleSampler) : exn + State :=
  Backend_get_last_sample (backend self).

(** ** [__getstate__]

    Objects live in a store, from references to attribute dictionaries;
    a sampler is the reference to its [__dict__]. The method hands back
    that very reference after writing [None] under ["pool"]. *)

Abbreviation store := (gmap positive EnsembleSampler).

Definition __getstate__ (self : positive) (h : store) : option (positive * store) :=
  d ← h !! self;
  Some (self, <[self := set_pool None d]> h).

(** What a copying variant would do, for comparison: the dictionary
    handed back is a new object and the sampler keeps its pool. *)
Definition getstate_copy (self fresh : positive) (h : store)
    : option (positive * store) :=
  d ← h !! self;
  Some (fresh, <[fresh := set_pool None d]> h).

(** A method called on a sampler in the store. *)
Definition call_method {A : Type} (self : positive) (m : M A) (h : store)
    : option (list event * store * (exn + A)) :=
  d ← h !! self;
  match m d with
  | (ev, d', r) => Some (ev, <[self := d']> h, r)
  end.

End Sampler.

(** ** A small concrete instance

    A counter stands for the random stream, a move that keeps every walker
    where it is and accepts for the move family, and the standard Gaussian
    for the target density. *)

Module Toy.

(** A stream that is a counter: it has no cached Gaussian, and
    [set_state] has nothing to write before it refuses a legacy tuple. *)
#[global] Instance toy_random : RandomState nat :=
  {| rng_draw := fun r p => ((r mod length p)%nat, S r);
     rng_set_gauss := fun r _ _ => r |}.

Definition toy_shape (l : list pyval) : list nat :=
  length l :: match l with
              | PySeq xs :: _ => [length xs]
              | _ => []
              end.

#[global] Instance toy_numpy : Numpy :=
  {| np_atleast_1d_dtype := fun _ => inr DFloat64;
     np_array := fun l dt => inr (mk_ndarray dt (toy_shape l) l);
     np_cond_cov := fun c =>
       if (length c <? 2)%nat || any_isinf c || any_isnan c
       then inl (NpError "SVD did not converge")
       else inr (Finite 1) |}.

#[global] Instance toy_move : MoveLike (rng := nat) nat :=
  {| StretchMove := 0%nat;
     propose := fun m model st =>
       ([], S (random model), m,
        inr (st, replicate (length (coords st)) true));
     tune := fun m _ _ => S m |}.

Definition neg_square (v : npfloat) : npfloat :=
  match v with
  | Finite q => Finite (- (q * q))
  | NaN => NaN
  | _ => NegInf
  end.

(** [-sum(x ** 2)] *)
Definition gaussian (x : pyarg) (_ : list pyval) (_ : list (string * pyval))
    : string + pyval :=
  match x with
  | Row xs => inr (PyFloat (np_sum (map neg_square xs)))
  | Batch p => inr (PySeq (map (fun xs => PyFloat (np_sum (map neg_square xs))) p))
  end.

(** The same density, handing back the first coordinate as a blob. *)
Definition gaussian_blob (x : pyarg) (_ : list pyval) (_ : list (string * pyval))
    : string + pyval :=
  match x with
  | Row xs =>
      inr (PySeq [PyFloat (np_sum (map neg_square xs));
                  PyFloat (default NaN (head xs))])
  | Batch p => inl "one walker at a time"
  end.

Definition always_nan (x : pyarg) (_ : list pyval) (_ : list (string * pyval))
    : string + pyval := inr (PyFloat NaN).


Definition x0 : list (list npfloat) := [[Finite 0]; [Finite 1]].

(** [EnsembleSampler(2, 1, f)] *)
Definition new_sampler
    (f : pyarg -> list pyval -> list (string * pyval) -> string + pyval)
    : exn + EnsembleSampler :=
  snd (__init__ 2 1 f None None None None None false None
         false false false false 0%nat 7%nat).

(** What it builds: one move of full weight, a backend reset to two
    walkers in one dimension, the stream seeded from the ambient state. *)
Definition sampler_with
    (f : pyarg -> list pyval -> list (string * pyval) -> string + pyval)
    : EnsembleSampler (Move := nat) :=
  mk_EnsembleSampler [0%nat] (normalize [Finite 1]) None false None 1 2
    (Backend_reset Backend_new 2 1) (Some None) 0%nat
    (FunctionWrapper.__init__ f None None).

Definition sampler : EnsembleSampler (Move := nat) := sampler_with gaussian.

(** A backend that was reset and has stored nothing yet, handed to the
    constructor: [EnsembleSampler(2, 1, f, backend=backend)]. *)
Definition reset_backend : Backend (rng := nat) := Backend_reset Backend_new 2 1.

Definition sampler_on_reset_backend : exn + EnsembleSampler (Move := nat) :=
  snd (__init__ 2 1 gaussian None None None None (Some reset_backend) false None
         false false false false 0%nat 7%nat).

(** A state that carries a snapshot of the stream. *)
Definition state3 : State (rng := nat) :=
  mk_State x0 (Some [Finite 0; Finite (-1)]) None (RSnap 3%nat).

(** A state one of whose log-probabilities is NaN. *)
Definition nan_state : State (rng := nat) :=
  mk_State x0 (Some [Finite 0; NaN]) None RNone.

(** The sampler after some other run: another stream, a used backend. *)
Definition used_sampler : EnsembleSampler (Move := nat) :=
  set_random 41%nat
    (set_backend (Backend_save_step (backend sampler) state3 [true; false])
       sampler).

Definition blob_sampler : EnsembleSampler (Move := nat) :=
  sampler_with gaussian_blob.

Definition nan_sampler : EnsembleSampler (Move := nat) :=
  sampler_with always_nan.

Definition pooled_sampler : EnsembleSampler (Move := nat) :=
  set_pool (Some 8) sampler.
(** An initialized backend whose random state is no snapshot. *)
Definition junk_backend : Backend (rng := nat) :=
  mk_Backend true (2%nat, 1%nat) 0 [0; 0] [] 0 (RJunk 5).

(** Two moves, weighted 1 and 3. *)
Definition weighted_moves : moves_arg (Move := nat) :=
  WeightedMoves [(0%nat, Finite 1); (1%nat, Finite 3)].

Definition weighted_sampler : EnsembleSampler (Move := nat) :=
  mk_EnsembleSampler [0%nat; 1%nat] (normalize [Finite 1; Finite 3]) None
    false None 1 2 (Backend_reset Backend_new 2 1) (Some None) 0%nat
    (FunctionWrapper.__init__ gaussian None None).

(** A log-density that hands back a bare number at the origin and a
    number with a blob elsewhere. *)
Definition mixed (x : pyarg) (_ : list pyval) (_ : list (string * pyval))
    : string + pyval :=
  match x with
  | Row (Finite q :: _) =>
      if Qnum q =? 0 then inr (PyFloat (Finite 0))
      else inr (PySeq [PyFloat (Finite 0); PyInt 1])
  | _ => inr (PyFloat (Finite 0))
  end.

Definition mixed_sampler : EnsembleSampler (Move := nat) := sampler_with mixed.

(** A state with one log-probability for two walkers. *)
Definition short_state : State (rng := nat) :=
  mk_State x0 (Some [Finite 0]) None (RSnap 3%nat).

(** A move that evaluates the log-density: it proposes the walkers in
    reverse order, has the model compute their log-probabilities and
    accepts them all; what the evaluation raises, it raises. A proposal
    uses up one draw of the stream, and the move counts its tunings. *)
Inductive swap : Type := Swap (tuned : nat).

#[global] Instance swap_move : MoveLike (rng := nat) swap :=
  {| StretchMove := Swap 0;
     propose := fun m model st =>
       let q := reverse (coords st) in
       match compute_log_prob_fn model q with
       | (ev, inl e) => (ev, random model, m, inl e)
       | (ev, inr (lp, blob)) =>
           (ev, S (random model), m,
            inr (mk_State q (Some lp) blob (random_state st),
                 replicate (length q) true))
       end;
     tune := fun m _ _ => match m with Swap n => Swap (S n) end |}.

(** [EnsembleSampler(2, 1, f, moves=Swap())] *)
Definition swap_sampler : EnsembleSampler (Move := swap) :=
  mk_EnsembleSampler [Swap 0] (normalize [Finite 1]) None false None 1 2
    (Backend_reset Backend_new 2 1) (Some None) 0%nat
    (FunctionWrapper.__init__ gaussian None None).

(** The states that the swaps go through from [x0]. *)
Definition swapped (st : State (rng := nat)) : Prop :=
  coords st = x0 \/ coords st = reverse x0.

End Toy.

(** A stream with the cached Gaussian of [RandomState]: the position in
    the stream and [(has_gauss, gauss)], which [set_state] writes before
    the bit generator looks at the key. *)
Module Legacy.

Record stream : Type := mk_stream {
  position : nat;
  has_gauss : Z;
  gauss : npfloat
}.

#[global] Instance legacy_random : RandomState stream :=
  {| rng_draw := fun r p =>
       ((position r mod length p)%nat,
        mk_stream (S (position r)) (has_gauss r) (gauss r));
     rng_set_gauss := fun r h g => mk_stream (position r) h g |}.



End Legacy.

(** ** Reading a trace of events *)

Inductive token : Type :=
| TChoice
| TPropose
| TSnapshot
| TSave
| TYield.

(** The skeleton of a trace: the draws of a move, the proposals, the
    snapshots of the stream, the checkpoints and the yields, in order. *)
Definition token_of {rng : Type} (e : event (rng := rng)) : option token :=
  match e with
  | EvChoice _ => Some TChoice
  | EvPropose _ => Some TPropose
  | EvSnapshot => Some TSnapshot
  | EvSave _ _ => Some TSave
  | EvYield _ => Some TYield
  | _ => None
  end.

Definition skeleton {rng : Type} (ev : list (event (rng := rng))) : list token :=
  omap token_of ev.

(** The states yielded, in order. *)
Definition yielded {rng : Type} (ev : list (event (rng := rng)))
    : list (State (rng := rng)) :=
  omap (fun e => match e with EvYield s => Some s | _ => None end) ev.

#[global] Instance token_eq_dec : EqDecision token.
Proof. solve_decision. Defined.

Definition count_token (t : token) (l : list token) : nat :=
  length (filter (fun x => x = t) l).

(** What one round leaves in the skeleton: a draw, a proposal, a snapshot
    and, when round [i + 1] is a checkpoint and [store] is set, a save. *)
Definition round_skeleton (store : bool) (checkpoint_step i : Z) : list token :=
  [TChoice; TPropose; TSnapshot]
  ++ (if store && ((i + 1) mod checkpoint_step =? 0) then [TSave] else []).

Fixpoint rounds_skeleton (store : bool) (checkpoint_step i : Z) (n : nat)
    : list token :=
  match n with
  | O => []
  | S n' =>
      round_skeleton store checkpoint_step i
      ++ rounds_skeleton store checkpoint_step (i + 1) n'
  end.

(** A block of [k] rounds under [thin_by = k]: [k - 1] plain rounds, one
    round that ends with the checkpoint, and the yield. *)
Definition block_skeleton (store : bool) (k : nat) : list token :=
  concat (replicate (k - 1) [TChoice; TPropose; TSnapshot])
  ++ [TChoice; TPropose; TSnapshot]
  ++ (if store then [TSave] else [])
  ++ [TYield].

(** * Properties *)

(** An exception that is not one of the sampler's own [ValueError]s. *)
Definition foreign (e : exn) : Prop :=
  match e with
  | ValueError _ => False
  | _ => True
  end.

Section SamplerProperties.
Context {rng : Type} {RS : RandomState rng} {NP : Numpy}
        {Move : Type} {ML : MoveLike (rng := rng) Move}.

Abbreviation Sampler := (EnsembleSampler (rng := rng) (Move := Move)).
Abbreviation St := (State (rng := rng)).

(** ** The vocabulary of the properties *)

(** The log-probabilities that come with the call, if any. *)
Definition supplied_log_prob (initial_state : St + list (list npfloat))
    (log_prob0 : option (list npfloat)) : option (list npfloat) :=
  match log_prob0 with
  | Some lp => Some lp
  | None => log_prob (State_init initial_state)
  end.

(** A computation that neither draws, proposes, snapshots, saves nor
    yields. *)
Definition silent {A : Type} (m : M (rng := rng) (Move := Move) A) : Prop :=
  forall self, skeleton (fst (fst (m self))) = [].

(** A bare number, and the number it stands for. *)
Definition scalar_value (v : pyval) : option npfloat :=
  match v with
  | PyFloat x => Some x
  | PyInt z => Some (float_of_Z z)
  | _ => None
  end.

(** A sequence that starts with a number. *)
Definition head_value (v : pyval) : option npfloat :=
  match v with
  | PySeq (x :: _) => scalar_value x
  | _ => None
  end.

Definition blob_of (v : pyval) : pyval :=
  match v with
  | PySeq xs => PySeq (tail xs)
  | _ => v
  end.

(** All axes of extent one after the first are gone. *)
Definition squeezed_shape (shape : list nat) : list nat :=
  match shape with
  | [] => []
  | d :: rest => d :: filter (fun d => d <> 1%nat) rest
  end.

(** The counts a backend keeps never exceed its number of stored steps:
    true after [reset], kept by [grow] and [save_step]. *)
Definition counts_bounded (b : Backend (rng := rng)) : Prop :=
  0 <= iteration b /\ Forall (fun a => 0 <= a <= iteration b) (accepted b).

(** The exceptions a computation may raise all satisfy [P]. *)
Definition raises_only {A : Type} (P : exn -> Prop)
    (m : M (rng := rng) (Move := Move) A) : Prop :=
  forall self ev self' e, m self = (ev, self', inl e) -> P e.

Definition not_thinning (e : exn) : Prop := kind_of e <> InvalidThinningError.

(** The move schedule is one that [choice] accepts. *)
Definition schedule_ok (self : Sampler) : Prop :=
  _moves self <> []
  /\ length (_weights self) = length (_moves self)
  /\ isnan (np_sum (_weights self)) = false
  /\ existsb is_negative (_weights self) = false
  /\ is_one (np_sum (_weights self)) = true.

Definition stored (self : Sampler) : Z := iteration (backend self).

(** Everything but the random stream is as before. *)
Definition same_but_random (s s' : Sampler) : Prop :=
  _moves s' = _moves s /\ _weights s' = _weights s /\ pool s' = pool s
  /\ vectorize s' = vectorize s /\ blobs_dtype s' = blobs_dtype s
  /\ ndim s' = ndim s /\ nwalkers s' = nwalkers s /\ backend s' = backend s
  /\ _previous_state s' = _previous_state s /\ log_prob_fn s' = log_prob_fn s.

Definition keeps_but_random {A : Type} (m : M (rng := rng) (Move := Move) A)
    : Prop :=
  forall self, same_but_random self (snd (fst (m self))).

(** Two samplers set up alike: the same moves, weights, pool, flags,
    shape and log-density; the stream, the backend and the remembered
    state may differ. *)
Definition same_config (s1 s2 : Sampler) : Prop :=
  _moves s1 = _moves s2 /\ _weights s1 = _weights s2 /\ pool s1 = pool s2
  /\ vectorize s1 = vectorize s2 /\ blobs_dtype s1 = blobs_dtype s2
  /\ ndim s1 = ndim s2 /\ nwalkers s1 = nwalkers s2
  /\ log_prob_fn s1 = log_prob_fn s2.

(** ... and whose streams are in the same state. *)
Definition same_stream (s1 s2 : Sampler) : Prop :=
  same_config s1 s2 /\ _random s1 = _random s2.

(** From related samplers, [m] causes the same events and comes to the
    same end; a value it returns satisfies [V] and leaves the samplers
    related by [Q]. *)
Definition agree {A : Type} (P Q : Sampler -> Sampler -> Prop) (V : A -> Prop)
    (m : M (rng := rng) (Move := Move) A) : Prop :=
  forall s1 s2, P s1 s2 ->
    fst (fst (m s1)) = fst (fst (m s2))
    /\ snd (m s1) = snd (m s2)
    /\ forall a, snd (m s1) = inr a ->
                 V a /\ Q (snd (fst (m s1))) (snd (fst (m s2))).

Definition any {A : Type} (a : A) : Prop := True.

(** The snapshot that [sample] installs: [rstate0] if given, else the
    one the initial state carries. *)
Definition initial_snapshot (initial_state : St + list (list npfloat))
    (rstate0 : option (py_rstate rng)) : py_rstate rng :=
  match rstate0 with
  | Some r => r
  | None => random_state (State_init initial_state)
  end.

(** The sum of a list of rationals. *)
Definition qsum (qs : list Q) : Q := foldr Qplus 0%Q qs.

(** The state the constructor seeds the stream with: the snapshot of an
    initialized backend that has one, else the ambient state. *)
Definition seed_of (b : Backend (rng := rng)) (ambient : rng) : py_rstate rng :=
  if negb (initialized b) then RSnap ambient
  else match backend_random_state b with
       | RNone => RSnap ambient
       | st => st
       end.

(** What a run may not change: weights, pool, flags, shape, remembered
    state and log-density, and the number of moves. *)
Definition frame (s s' : Sampler) : Prop :=
  _weights s' = _weights s /\ pool s' = pool s
  /\ vectorize s' = vectorize s /\ blobs_dtype s' = blobs_dtype s
  /\ ndim s' = ndim s /\ nwalkers s' = nwalkers s
  /\ _previous_state s' = _previous_state s
  /\ log_prob_fn s' = log_prob_fn s
  /\ length (_moves s') = length (_moves s).

(** The backend after the [grow] and [save_step] calls of a trace. *)
Definition apply_event (b : Backend (rng := rng)) (e : event (rng := rng))
    : Backend (rng := rng) :=
  match e with
  | EvGrow n => Backend_grow b n None
  | EvSave s mask => Backend_save_step b s mask
  | _ => b
  end.

Definition replay (b : Backend (rng := rng)) (ev : list (event (rng := rng)))
    : Backend (rng := rng) :=
  foldl apply_event b ev.

(** An event that is no call of the backend. *)
Definition leaves_backend (e : event (rng := rng)) : bool :=
  match e with
  | EvGrow _ | EvSave _ _ => false
  | _ => true
  end.

(** The warning that the initial state is not linearly independent. *)
Definition is_runtime_warning (e : event (rng := rng)) : bool :=
  match e with
  | EvWarn category _ => String.eqb category "RuntimeWarning"
  | _ => false
  end.

(** The states handed to [save_step], in order. *)
Definition saved (ev : list (event (rng := rng))) : list St :=
  omap (fun e => match e with EvSave s _ => Some s | _ => None end) ev.

(** The arguments the log-density was called with, in order. *)
Definition lp_calls (ev : list lp_event) : list pyarg :=
  omap (fun e => match e with EvCall x => Some x | _ => None end) ev.

Definition calls (ev : list (event (rng := rng))) : list pyarg :=
  omap (fun e => match e with EvEval (EvCall x) => Some x | _ => None end) ev.

(** What unpacking the results can raise. *)
Definition structural (e : exn) : Prop :=
  match e with
  | TypeError _ | IndexError _ | FromNumpy _ => True
  | _ => False
  end.

(** The log-density of the sampler at one argument. *)
Definition log_density (self : Sampler) (x : pyarg) : string + pyval :=
  FunctionWrapper.f (log_prob_fn self) x
    (FunctionWrapper.args (log_prob_fn self))
    (FunctionWrapper.kwargs (log_prob_fn self)).

(** [m] relates the sampler before, the events and the sampler after by
    [R], whatever its outcome. *)
Definition tracks {A : Type}
    (R : Sampler -> list (event (rng := rng)) -> Sampler -> Prop)
    (m : M (rng := rng) (Move := Move) A) : Prop :=
  forall self, R self (fst (fst (m self))) (snd (fst (m self))).

(** The warnings of the initial phase of [sample], in order. *)
Definition initial_warnings (skip : bool)
    (initial_state : St + list (list npfloat))
    (rstate0 : option (py_rstate rng)) (log_prob0 : option (list npfloat))
    (blobs0 : option ndarray) : list (event (rng := rng)) :=
  (if ill_conditioned skip (coords (State_init initial_state)) is inr true
   then [EvWarn "RuntimeWarning"
           "Initial state is not linearly independent and it will not allow a full exploration of parameter space"]
   else [])
  ++ (if rstate0 is Some _
      then [EvWarn "DeprecationWarning"
              "The 'rstate0' argument is deprecated, use a 'State' instead"]
      else [])
  ++ (if log_prob0 is Some _
      then [EvWarn "DeprecationWarning"
              "The 'log_prob0' argument is deprecated, use a 'State' instead"]
      else [])
  ++ (if blobs0 is Some _
      then [EvWarn "DeprecationWarning"
              "The 'blobs0' argument is deprecated, use a 'State' instead"]
      else []).

(** The sampler once [self.random_state = state] has run. *)
Definition seeded (self : Sampler) (state : py_rstate rng) : Sampler :=
  set_random (snd (set_state (_random self) state)) self.

(** The state that carries what the deprecated arguments [log_prob0],
    [rstate0] and [blobs0] hand in beside the initial state. *)
Definition with_deprecated (initial_state : St + list (list npfloat))
    (log_prob0 : option (list npfloat)) (rstate0 : option (py_rstate rng))
    (blobs0 : option ndarray) : St :=
  mk_State (coords (State_init initial_state))
    (supplied_log_prob initial_state log_prob0)
    (match blobs0 with
     | Some b => Some b
     | None => blobs (State_init initial_state)
     end)
    (initial_snapshot initial_state rstate0).

Definition is_deprecation_warning (e : event (rng := rng)) : bool :=
  match e with
  | EvWarn category _ => String.eqb category "DeprecationWarning"
  | _ => false
  end.

(** The events that are no deprecation warnings. *)
Definition but_deprecations (ev : list (event (rng := rng)))
    : list (event (rng := rng)) :=
  filter (fun e => is_deprecation_warning e = false) ev.

(** A state that passes the checks of [sample] as it is: its
    coordinates have the shape of the ensemble, the condition number of
    their covariance, when it is asked for, is computed, and its
    log-probabilities are one per walker and none is NaN. *)
Definition valid_state (skip_initial_state_check : bool) (self : Sampler)
    (s : St) : Prop :=
  has_shape2 (coords s) (nwalkers self) (ndim self) = true
  /\ (exists ill,
        ill_conditioned skip_initial_state_check (coords s) = inr ill)
  /\ exists lp,
       log_prob s = Some lp /\ length lp = nwalkers self
       /\ existsb isnan lp = false.

(** The outcome of some rounds, with the round counter moved by [d]. *)
Definition shift_counter (d : Z)
    (out : list (event (rng := rng)) * Sampler * (exn + St * Z))
    : list (event (rng := rng)) * Sampler * (exn + St * Z) :=
  match out with
  | (ev, s, inr (st, i)) => (ev, s, inr (st, i + d))
  | _ => out
  end.

(** The proposals of a run do not raise. On the model that [sample]
    hands to the moves (the log-density of the sampler, its
    [compute_log_prob], the map of its pool and its stream, whatever
    that has come to), a move that is [good_move] proposes from a state
    that is [good_state] and hands back a state; the move it has become,
    tuned or not, is good again, and so is the state with the snapshot
    of the stream. *)
Definition proposals_return (good_move : Move -> Prop) (good_state : St -> Prop)
    (self : Sampler) : Prop :=
  forall (m : Move) (r : rng) (st : St),
    good_move m -> good_state st ->
    exists ev r' m' st' mask,
      propose m
        (mk_Model (log_prob_fn self) (compute_log_prob_fun self)
           (select_map (pool self)) r) st
        = (ev, r', m', inr (st', mask))
      /\ good_move m'
      /\ good_move (tune m' (with_random_state st' (RSnap r')) mask)
      /\ good_state (with_random_state st' (RSnap r')).

(** What a round needs to find: a schedule that [choice] accepts, good
    moves whose proposals return, a good state, and [map_fn] the map of
    the pool. *)
Definition round_ready (good_move : Move -> Prop) (good_state : St -> Prop)
    (map_fn : map_func) (self : Sampler) (st : St) : Prop :=
  schedule_ok self
  /\ proposals_return good_move good_state self
  /\ Forall good_move (_moves self)
  /\ good_state st
  /\ map_fn = select_map (pool self).

(** ** Exceptions of the evaluation pipeline *)

Ltac simpl_exn :=
unfold mbind, mret, exn_bind, exn_ret in *; simpl in *.

Lemma foreign_kind e :
foreign e -> kind_of e = EvaluatorFailure \/ kind_of e = OtherError.
Proof. destruct e; simpl; tauto. Qed.

Lemma try_map_error {A B} (P : exn -> Prop) (g : A -> exn + B) l e :
(forall a e', g a = inl e' -> P e') -> try_map g l = inl e -> P e.
Proof.
intros Hg. induction l as [|a l IH]; simpl; [discriminate|].
destruct (g a) as [e'|b] eqn:Ega.
- intros [= <-]. eauto.
- destruct (try_map g l) as [e'|bs]; [|discriminate].
  intros [= <-]. auto.
Qed.

Lemma try_map_length {A B} (g : A -> exn + B) l bs :
try_map g l = inr bs -> length bs = length l.
Proof.
revert bs. induction l as [|a l IH]; simpl; intros bs.
- by intros [= <-].
- destruct (g a); [discriminate|].
  destruct (try_map g l) as [|bs']; [discriminate|].
  intros [= <-]. simpl. f_equal. by apply IH.
Qed.

Lemma map_calls_error {A B} (P : exn -> Prop)
  (g : A -> list lp_event * (exn + B)) l ev e :
(forall a ev' e', g a = (ev', inl e') -> P e') ->
map_calls g l = (ev, inl e) -> P e.
Proof.
intros Hg. revert ev. induction l as [|a l IH]; simpl; intros ev.
- discriminate.
- destruct (g a) as [ev1 [e1|b]] eqn:Ega.
  + intros [= _ <-]. eauto.
  + destruct (map_calls g l) as [ev2 [e2|bs]]; [|discriminate].
    intros [= _ <-]. eauto.
Qed.

Lemma map_calls_length {A B} (g : A -> list lp_event * (exn + B)) l ev bs :
map_calls g l = (ev, inr bs) -> length bs = length l.
Proof.
revert ev bs. induction l as [|a l IH]; simpl; intros ev bs.
- by intros [= _ <-].
- destruct (g a) as [ev1 [e1|b]]; [discriminate|].
  destruct (map_calls g l) as [ev2 [e2|bs']] eqn:E; [discriminate|].
  intros [= _ <-]. simpl. f_equal. eauto.
Qed.

Lemma call_error w x ev e :
FunctionWrapper.__call__ w x = (ev, inl e) -> exists what, e = Raised what.
Proof.
unfold FunctionWrapper.__call__.
destruct (FunctionWrapper.f w x _ _); intros [= _ <-]; eauto.
Qed.

Lemma py_float_error v e : py_float v = inl e -> foreign e.
Proof. destruct v; simpl; intros [= <-]; exact I. Qed.

Lemma py_index0_error v e : py_index0 v = inl e -> foreign e.
Proof. destruct v as [| | |[|??]]; simpl; intros [= <-]; exact I. Qed.

Lemma py_tail_error v e : py_tail v = inl e -> foreign e.
Proof. destruct v; simpl; intros [= <-]; exact I. Qed.

Lemma py_iter_error v e : py_iter v = inl e -> foreign e.
Proof. destruct v; simpl; intros [= <-]; exact I. Qed.

Lemma evaluate_error vec pl w p ev e :
  evaluate vec pl w p = (ev, inl e) -> foreign e.
Proof.
  unfold evaluate. destruct vec.
  - destruct (FunctionWrapper.__call__ w (Batch p)) as [ev1 [e1|v]] eqn:E.
    + intros [= _ <-]. by destruct (call_error _ _ _ _ E) as [? ->].
    + intros [= _ H]. by eapply py_iter_error.
  - unfold run_map. intros H.
    assert (map_calls (fun row => FunctionWrapper.__call__ w (Row row)) p
            = (ev, inl e)) as H' by (by destruct (select_map pl)).
    eapply (map_calls_error foreign) in H'; [done|].
    intros a ev' e' E. by destruct (call_error _ _ _ _ E) as [? ->].
Qed.

Lemma evaluate_length pl w p ev results :
  evaluate false pl w p = (ev, inr results) -> length results = length p.
Proof.
  unfold evaluate, run_map. intros H.
  eapply map_calls_length. by destruct (select_map pl).
Qed.

Lemma blob_dtype_error dt blob e : blob_dtype dt blob = inl e -> foreign e.
Proof.
  unfold blob_dtype. destruct dt; [discriminate|].
  destruct blob as [|b0 ?]; [by intros [= <-]|].
  destruct (np_atleast_1d_dtype b0) as [[?|?]|?]; [discriminate| |discriminate].
  by intros [= <-].
Qed.

Lemma assemble_blobs_error dt blob e :
  assemble_blobs dt blob = inl e -> foreign e.
Proof.
  unfold assemble_blobs.
  destruct (blob_dtype dt blob) as [e1|d] eqn:E; simpl_exn.
  - intros [= <-]. by eapply blob_dtype_error.
  - destruct (np_array blob d); simpl_exn; [by intros [= <-]|discriminate].
Qed.

Lemma scalar_fallback_error results e :
  (log_prob ← try_map py_float results;
   mret (log_prob, @None ndarray)) = inl e -> foreign e.
Proof.
  destruct (try_map py_float results) as [e1|lp] eqn:E; simpl_exn;
    [|discriminate].
  intros [= <-]. eapply (try_map_error foreign); [|exact E].
  apply py_float_error.
Qed.

Lemma unpack_results_error dt results e :
  unpack_results dt results = inl e -> foreign e.
Proof.
  unfold unpack_results.
  destruct (try_map _ results) as [e1|lp] eqn:E1.
  - assert (foreign e1) as Hf.
    { eapply (try_map_error foreign); [|exact E1].
      intros a e'. cbv beta. destruct (py_index0 a) as [e2|v] eqn:E2; simpl_exn.
      - intros [= <-]. by eapply py_index0_error.
      - apply py_float_error. }
    destruct e1; try (intros [= <-]; exact Hf);
      try apply scalar_fallback_error; done.
  - destruct (try_map py_tail results) as [e2|blob] eqn:E2.
    + assert (foreign e2) as Hf.
      { eapply (try_map_error foreign); [|exact E2]. apply py_tail_error. }
      destruct e2; try (intros [= <-]; exact Hf);
        try apply scalar_fallback_error; done.
    + destruct (assemble_blobs dt blob) as [e3|arr] eqn:E3; simpl_exn;
        [|discriminate].
      intros [= <-]. by eapply assemble_blobs_error.
Qed.

(** Where [compute_log_prob] stops when the coordinates are unphysical,
    and what it goes through when they are not. *)
Lemma compute_log_prob_with_bad vec pl dt w p :
  any_isinf p || any_isnan p = true ->
  exists msg, (msg = msg_inf \/ msg = msg_nan) /\
    compute_log_prob_with vec pl dt w p = ([], inl (ValueError msg)).
Proof.
  unfold compute_log_prob_with. intros H.
  destruct (any_isinf p); [eauto|]. simpl in H. rewrite H. eauto.
Qed.

Lemma compute_log_prob_with_good vec pl dt w p :
  any_isinf p || any_isnan p = false ->
  compute_log_prob_with vec pl dt w p =
    match evaluate vec pl w p with
    | (ev, inl e) => (ev, inl e)
    | (ev, inr results) =>
        (ev, r ← unpack_results dt results; check_log_prob r)
    end.
Proof.
  unfold compute_log_prob_with. intros H.
  apply orb_false_iff in H as [-> ->]. done.
Qed.

Lemma compute_log_prob_with_error_kind vec pl dt w p ev e :
  any_isinf p || any_isnan p = false ->
  compute_log_prob_with vec pl dt w p = (ev, inl e) ->
  foreign e \/ e = ValueError msg_lp_nan.
Proof.
  intros H. rewrite (compute_log_prob_with_good _ _ _ _ _ H).
  destruct (evaluate vec pl w p) as [ev1 [e1|results]] eqn:E.
  - intros [= _ <-]. left. by eapply evaluate_error.
  - intros [= _ H1].
    destruct (unpack_results dt results) as [e2|r] eqn:E2; simpl_exn.
    + injection H1 as <-. left. by eapply unpack_results_error.
    + unfold check_log_prob in H1.
      destruct (existsb isnan r.1); [|discriminate].
      injection H1 as <-. by right.
Qed.

Lemma kind_lp_nan : kind_of (ValueError msg_lp_nan) = InvalidLogProbError.
Proof. reflexivity. Qed.

Lemma kind_lp0_nan : kind_of (ValueError msg_lp0_nan) = InvalidLogProbError.
Proof. reflexivity. Qed.

Lemma kind_thin : kind_of (ValueError msg_thin) = InvalidThinningError.
Proof. reflexivity. Qed.

(** C5: [compute_log_prob] raises the "parameter value was infinite/NaN"
    [ValueError] exactly when some coordinate is infinite or NaN, and it
    does so before the log-density function is called: no event, hence no
    call, has happened. *)
Theorem compute_log_prob_rejects_unphysical_coordinates
    (self : Sampler) (coords : list (list npfloat)) :
  ((exists e, snd (compute_log_prob coords self) = inl e
              /\ kind_of e = InvalidParameterError)
   <-> any_isinf coords || any_isnan coords = true)
  /\ (any_isinf coords || any_isnan coords = true ->
      fst (fst (compute_log_prob coords self)) = []).
Proof.
  unfold compute_log_prob, compute_log_prob_fun.
  destruct (any_isinf coords || any_isnan coords) eqn:Hbad.
  - destruct (compute_log_prob_with_bad (vectorize self) (pool self)
                (blobs_dtype self) (log_prob_fn self) coords Hbad)
      as (msg & Hmsg & ->).
    simpl. split; [|done]. split; [done|]. intros _.
    exists (ValueError msg). split; [done|].
    by destruct Hmsg as [-> | ->].
  - split; [|done]. split; [|done].
    intros (e & He & Hk).
    destruct (compute_log_prob_with _ _ _ _ coords) as [ev r] eqn:E.
    simpl in He. subst r.
    apply compute_log_prob_with_error_kind in E as [Hf | ->]; [|done|done].
    destruct (foreign_kind _ Hf) as [H|H]; congruence.
Qed.

(** ** The random stream and the wrapper *)


Lemma set_random_state_valid (s : rng) (self : Sampler) :
  set_random_state (RSnap s) self = ([], set_random s self, inr tt).
Proof. reflexivity. Qed.




(** ** The initial state *)

Lemma yielded_app (ev1 ev2 : list (event (rng := rng))) :
  yielded (ev1 ++ ev2) = yielded ev1 ++ yielded ev2.
Proof. apply omap_app. Qed.

Lemma skeleton_app (ev1 ev2 : list (event (rng := rng))) :
  skeleton (ev1 ++ ev2) = skeleton ev1 ++ skeleton ev2.
Proof. apply omap_app. Qed.

Lemma yielded_eval (ev : list lp_event) :
  yielded (map (EvEval (rng := rng)) ev) = [].
Proof. induction ev; simpl; auto. Qed.

Lemma skeleton_eval (ev : list lp_event) :
  skeleton (map (EvEval (rng := rng)) ev) = [].
Proof. induction ev; simpl; auto. Qed.

Lemma compute_log_prob_fun_set_random r (self : Sampler) :
  compute_log_prob_fun (set_random r self) = compute_log_prob_fun self.
Proof. reflexivity. Qed.

Lemma silent_ret {A} (a : A) : silent (ret a).
Proof. by intros self. Qed.
Lemma silent_raise {A} e : silent (raise (A := A) e).
Proof. by intros self. Qed.
Lemma silent_gets {A} (proj : Sampler -> A) : silent (gets proj).
Proof. by intros self. Qed.
Lemma silent_modify g : silent (modify g).
Proof. by intros self. Qed.
Lemma silent_lift {A} (r : exn + A) : silent (lift r).
Proof. by intros self. Qed.
Lemma silent_warn c msg : silent (emit (EvWarn c msg)).
Proof. by intros self. Qed.
Lemma silent_grow n : silent (emit (EvGrow n)).
Proof. by intros self. Qed.
Lemma silent_bind {A B} (m : M A) (k : A -> M B) :
  silent m -> (forall a, silent (k a)) -> silent (bind m k).
Proof.
  intros Hm Hk self. unfold bind. specialize (Hm self).
  destruct (m self) as [[ev self'] [e|a]]; [done|].
  specialize (Hk a self'). destruct (k a self') as [[ev' self''] r].
  simpl in *. by rewrite skeleton_app, Hm, Hk.
Qed.
Lemma silent_when b m : silent m -> silent (when b m).
Proof. destruct b; [done|]. intros _. apply silent_ret. Qed.
Lemma silent_set_random_state st : silent (set_random_state st).
Proof. intros self. unfold set_random_state. by destruct (set_state _ st). Qed.
Lemma silent_compute_log_prob c : silent (compute_log_prob c).
Proof.
  intros self. unfold compute_log_prob.
  destruct (compute_log_prob_fun self c). apply skeleton_eval.
Qed.

Ltac silent :=
  repeat first
    [ apply silent_ret | apply silent_raise | apply silent_gets
    | apply silent_modify | apply silent_lift | apply silent_warn
    | apply silent_grow | apply silent_set_random_state
    | apply silent_compute_log_prob
    | apply silent_when
    | apply silent_bind; [|intros ?]
    | progress unfold deprecation_warning, runtime_warning, backend_grow
    | case_match ].

Lemma sample_initial_state_silent init lp0 rs0 b0 skip :
  silent (sample_initial_state init lp0 rs0 b0 skip).
Proof. unfold sample_initial_state. cbv zeta. silent. Qed.

Lemma sample_thinning_silent (state : St) iterations thin_by thin store :
  silent (sample_thinning state iterations thin_by thin store).
Proof. unfold sample_thinning. silent. Qed.

Lemma skeleton_yielded (ev : list (event (rng := rng))) :
  skeleton ev = [] -> yielded ev = [].
Proof.
  induction ev as [|e ev IH]; [done|].
  unfold skeleton, yielded in *. simpl.
  destruct e; simpl; try done; auto.
Qed.

Ltac run_m :=
  unfold backend_grow, backend_save_step, deprecation_warning,
    runtime_warning, when in *;
  unfold bind, gets, ret, raise, emit, lift, modify,
    set_random_state, compute_log_prob in *.

Lemma sample_initial_state_supplied init lp0 rs0 b0 skip (self : Sampler) lp
    ill :
  has_shape2 (coords (State_init init)) (nwalkers self) (ndim self) = true ->
  ill_conditioned skip (coords (State_init init)) = inr ill ->
  supplied_log_prob init lp0 = Some lp ->
  length lp = nwalkers self ->
  snd (sample_initial_state init lp0 rs0 b0 skip self) =
    if existsb isnan lp then inl (ValueError msg_lp0_nan)
    else inr (mk_State (coords (State_init init)) (Some lp)
                (match b0 with Some b => Some b | None => blobs (State_init init) end)
                (match rs0 with Some r => r | None => random_state (State_init init) end)).
Proof.
  intros Hshape Hill Hlp Hlen. unfold supplied_log_prob in Hlp.
  unfold sample_initial_state. run_m. rewrite Hshape. cbn [negb].
  rewrite Hill. simpl.
  destruct ill, rs0 as [r|], lp0 as [lp'|], b0 as [b|];
    simpl; simplify_eq;
    repeat (match goal with
            | |- context [set_state ?r ?s] => destruct (set_state r s)
            end; simpl);
    repeat (progress (rewrite ?Hlp, ?Hlen, ?Nat.eqb_refl; simpl));
    destruct (existsb isnan lp); simpl; try done;
    unfold with_blobs, with_log_prob, with_random_state; simpl;
    rewrite ?Hlp; try done;
    rewrite <- Hlp; by destruct (State_init init).
Qed.

Lemma sample_initial_state_computed init lp0 rs0 b0 skip (self : Sampler) ill :
  has_shape2 (coords (State_init init)) (nwalkers self) (ndim self) = true ->
  ill_conditioned skip (coords (State_init init)) = inr ill ->
  supplied_log_prob init lp0 = None ->
  snd (sample_initial_state init lp0 rs0 b0 skip self) =
    match snd (compute_log_prob_fun self (coords (State_init init))) with
    | inl e => inl e
    | inr (lp, blob) =>
        if negb (length lp =? nwalkers self)%nat then inl (ValueError msg_shape)
        else if existsb isnan lp then inl (ValueError msg_lp0_nan)
        else inr (mk_State (coords (State_init init)) (Some lp) blob
                    (match rs0 with
                     | Some r => r
                     | None => random_state (State_init init)
                     end))
    end.
Proof.
  intros Hshape Hill Hlp. unfold supplied_log_prob in Hlp.
  destruct lp0 as [?|]; [done|].
  unfold sample_initial_state. run_m. rewrite Hshape. cbn [negb].
  rewrite Hill. simpl.
  destruct ill, rs0 as [r|], b0 as [b|];
    simpl; simplify_eq;
    repeat (match goal with
            | |- context [set_state ?r ?s] => destruct (set_state r s)
            end; simpl);
    repeat (progress (rewrite ?Hlp, ?compute_log_prob_fun_set_random; simpl));
    destruct (compute_log_prob_fun self (coords (State_init init)))
      as [ev [err|[lp blob]]]; simpl; try done;
    destruct (negb (length lp =? nwalkers self)%nat); simpl; try done;
    destruct (existsb isnan lp); simpl; done.
Qed.

Lemma sample_stops_with_initial_state init lp0 rs0 b0 iterations tune skip
    thin_by thin store progress (self : Sampler) ev self' e :
  sample_initial_state init lp0 rs0 b0 skip self = (ev, self', inl e) ->
  sample init lp0 rs0 b0 iterations tune skip thin_by thin store progress self
    = (ev, self', inl e).
Proof. unfold sample, bind. by intros ->. Qed.

Lemma compute_log_prob_stages (self : Sampler) coords ev results lp blob :
  any_isinf coords || any_isnan coords = false ->
  evaluate (vectorize self) (pool self) (log_prob_fn self) coords
    = (ev, inr results) ->
  unpack_results (blobs_dtype self) results = inr (lp, blob) ->
  compute_log_prob_fun self coords =
    (ev, if existsb isnan lp then inl (ValueError msg_lp_nan)
         else inr (lp, blob)).
Proof.
  intros Hgood Hev Hun. unfold compute_log_prob_fun.
  rewrite (compute_log_prob_with_good _ _ _ _ _ Hgood), Hev, Hun.
  simpl_exn. unfold check_log_prob. simpl. by destruct (existsb isnan lp).
Qed.

(** C4: a NaN log-probability is an error, an infinite one is not.
    [compute_log_prob], once the evaluator has produced log-probabilities,
    raises "Probability function returned NaN" if one of them is NaN and
    hands them back otherwise, infinite or not. [sample], given an initial
    state of the right shape on which the condition-number check of line
    246 is skipped or returns (it raises before anything else when the
    covariance is not finite), raises "The initial log_prob was NaN" when
    a supplied log-probability is NaN, and the error of
    [compute_log_prob] when it has to compute them; in both cases nothing
    was yielded. *)
Theorem nan_log_prob_is_rejected (self : Sampler) :
  (forall coords ev results lp blob,
      any_isinf coords || any_isnan coords = false ->
      evaluate (vectorize self) (pool self) (log_prob_fn self) coords
        = (ev, inr results) ->
      unpack_results (blobs_dtype self) results = inr (lp, blob) ->
      compute_log_prob coords self =
        (map EvEval ev, self,
         if existsb isnan lp then inl (ValueError msg_lp_nan)
         else inr (lp, blob)))
  /\ (forall init lp0 rs0 b0 iterations tune skip thin_by thin store progress lp
             ill,
      has_shape2 (coords (State_init init)) (nwalkers self) (ndim self) = true ->
      ill_conditioned skip (coords (State_init init)) = inr ill ->
      supplied_log_prob init lp0 = Some lp ->
      length lp = nwalkers self ->
      existsb isnan lp = true ->
      let out := sample init lp0 rs0 b0 iterations tune skip thin_by thin
                   store progress self in
      snd out = inl (ValueError msg_lp0_nan) /\ yielded (fst (fst out)) = [])
  /\ (forall init lp0 rs0 b0 iterations tune skip thin_by thin store progress
             ev results lp blob ill,
      has_shape2 (coords (State_init init)) (nwalkers self) (ndim self) = true ->
      ill_conditioned skip (coords (State_init init)) = inr ill ->
      supplied_log_prob init lp0 = None ->
      any_isinf (coords (State_init init))
        || any_isnan (coords (State_init init)) = false ->
      evaluate (vectorize self) (pool self) (log_prob_fn self)
        (coords (State_init init)) = (ev, inr results) ->
      unpack_results (blobs_dtype self) results = inr (lp, blob) ->
      existsb isnan lp = true ->
      let out := sample init lp0 rs0 b0 iterations tune skip thin_by thin
                   store progress self in
      snd out = inl (ValueError msg_lp_nan) /\ yielded (fst (fst out)) = [])
  /\ kind_of (ValueError msg_lp_nan) = InvalidLogProbError
  /\ kind_of (ValueError msg_lp0_nan) = InvalidLogProbError.
Proof.
  split; [|split; [|split; [|done]]].
  - intros coords ev results lp blob Hgood Hev Hun.
    unfold compute_log_prob.
    by rewrite (compute_log_prob_stages _ _ _ _ _ _ Hgood Hev Hun).
  - intros init lp0 rs0 b0 iterations tune skip thin_by thin store progress lp
      ill Hshape Hill Hlp Hlen Hnan out.
    pose proof (sample_initial_state_supplied init lp0 rs0 b0 skip self lp ill
                  Hshape Hill Hlp Hlen) as Hres.
    pose proof (sample_initial_state_silent init lp0 rs0 b0 skip self) as Hsil.
    rewrite Hnan in Hres. subst out.
    destruct (sample_initial_state init lp0 rs0 b0 skip self)
      as [[ev0 self0] r0] eqn:E0.
    simpl in Hres, Hsil. subst r0.
    rewrite (sample_stops_with_initial_state _ _ _ _ iterations tune _ thin_by
               thin store progress _ _ _ _ E0).
    split; [done|]. by apply skeleton_yielded.
  - intros init lp0 rs0 b0 iterations tune skip thin_by thin store progress
      ev results lp blob ill Hshape Hill Hlp Hgood Hev Hun Hnan out.
    pose proof (sample_initial_state_computed init lp0 rs0 b0 skip self ill
                  Hshape Hill Hlp) as Hres.
    pose proof (sample_initial_state_silent init lp0 rs0 b0 skip self) as Hsil.
    rewrite (compute_log_prob_stages _ _ _ _ _ _ Hgood Hev Hun), Hnan in Hres.
    subst out.
    destruct (sample_initial_state init lp0 rs0 b0 skip self)
      as [[ev0 self0] r0] eqn:E0.
    simpl in Hres, Hsil. subst r0.
    rewrite (sample_stops_with_initial_state _ _ _ _ iterations tune _ thin_by
               thin store progress _ _ _ _ E0).
    split; [done|]. by apply skeleton_yielded.
Qed.

(** ** Unpacking the unit results *)

Lemma try_map_scalars results :
  Forall (fun v => is_Some (scalar_value v)) results ->
  try_map py_float results = inr (omap scalar_value results).
Proof.
  induction 1 as [|v results [x Hx] _ IH]; [done|].
  simpl. rewrite IH, Hx.
  by destruct v; simplify_eq/=.
Qed.

Lemma try_map_heads results :
  Forall (fun v => is_Some (head_value v)) results ->
  try_map (fun l => l0 ← py_index0 l; py_float l0) results
    = inr (omap head_value results)
  /\ try_map py_tail results = inr (map blob_of results).
Proof.
  induction 1 as [|v results [x Hx] _ [IH1 IH2]]; [done|].
  simpl. rewrite IH1, IH2, Hx.
  destruct v as [| | |[|y ys]]; simplify_eq/=.
  simpl_exn. by destruct y; simplify_eq/=.
Qed.

Lemma unpack_results_scalars dt results :
  results <> [] ->
  Forall (fun v => is_Some (scalar_value v)) results ->
  unpack_results dt results = inr (omap scalar_value results, None).
Proof.
  intros Hne Hall. unfold unpack_results.
  destruct results as [|v results]; [done|].
  pose proof (try_map_scalars _ Hall) as Hfl.
  apply Forall_cons in Hall as [[x Hx] _].
  assert (exists msg, try_map (fun l => l0 ← py_index0 l; py_float l0)
                        (v :: results) = inl (TypeError msg)) as [msg ->].
  { simpl. destruct v; simplify_eq/=; simpl_exn; eauto. }
  rewrite Hfl. by simpl_exn.
Qed.

Lemma unpack_results_sequences dt results :
  Forall (fun v => is_Some (head_value v)) results ->
  unpack_results dt results =
    (arr ← assemble_blobs dt (map blob_of results);
     mret (omap head_value results, Some arr)).
Proof.
  intros Hall. unfold unpack_results.
  by destruct (try_map_heads _ Hall) as [-> ->].
Qed.

Lemma singleton_axes_from_ge k shape j :
  j ∈ singleton_axes_from k shape -> (k <= j)%nat.
Proof.
  revert k. induction shape as [|d rest IH]; simpl; intros k.
  - by intros ?%elem_of_nil.
  - destruct (d =? 1)%nat.
    + intros [->|H]%elem_of_cons; [lia|]. apply IH in H. lia.
    + intros H. apply IH in H. lia.
Qed.

Lemma drop_singleton_axes k axes shape :
  (forall j, (k <= j)%nat -> j ∈ axes <-> j ∈ singleton_axes_from k shape) ->
  drop_axes_from k axes shape = filter (fun d => d <> 1%nat) shape.
Proof.
  revert k. induction shape as [|d rest IH]; intros k Hax; [done|].
  simpl in *. rewrite filter_cons.
  destruct (Nat.eqb_spec d 1) as [->|Hd].
  - rewrite bool_decide_eq_true_2.
    2:{ apply Hax; [lia|]. apply elem_of_cons. by left. }
    rewrite decide_False by (intros H; by apply H).
    apply IH. intros j Hj. rewrite Hax by lia.
    rewrite elem_of_cons. split; [|tauto]. intros [->|H]; [lia|done].
  - rewrite bool_decide_eq_false_2.
    2:{ intros H. apply Hax in H; [|lia].
        apply singleton_axes_from_ge in H. lia. }
    rewrite decide_True by done. f_equal.
    apply IH. intros j Hj. apply Hax. lia.
Qed.

Lemma drop_no_axes k shape : drop_axes_from k [] shape = shape.
Proof.
  revert k. induction shape as [|x xs IH]; intros k; [done|].
  simpl. by rewrite IH.
Qed.

Lemma squeeze_single_blobs_spec (a : ndarray) :
  nd_dtype (squeeze_single_blobs a) = nd_dtype a
  /\ nd_data (squeeze_single_blobs a) = nd_data a
  /\ nd_shape (squeeze_single_blobs a) = squeezed_shape (nd_shape a).
Proof.
  unfold squeeze_single_blobs.
  destruct a as [dt shape data]. cbn [nd_dtype nd_shape nd_data].
  destruct shape as [|d rest]; [done|]. cbn [tail squeezed_shape].
  destruct rest as [|d' rest']; [done|].
  assert ((length (d' :: rest') =? 0)%nat = false) as -> by done.
  generalize (d' :: rest'). clear d' rest'. intros rest.
  assert (filter (fun d => d <> 1%nat) rest
          = drop_axes_from 1 (singleton_axes rest) rest) as Hfilter.
  { symmetry. by apply drop_singleton_axes. }
  destruct (singleton_axes rest) as [|ax axes] eqn:Hax.
  - cbn [length Nat.eqb nd_dtype nd_shape nd_data]. repeat split.
    by rewrite Hfilter, drop_no_axes.
  - cbn [length Nat.eqb]. unfold np_squeeze.
    cbn [nd_dtype nd_shape nd_data drop_axes_from]. repeat split.
    rewrite bool_decide_eq_false_2.
    2:{ rewrite <- Hax. intros H%singleton_axes_from_ge. lia. }
    by rewrite Hfilter.
Qed.

(** C6: blobs are detected from the structure of the unit results. When
    every result is a bare number, [compute_log_prob] hands back no blobs.
    When every result is a sequence that starts with the log-probability,
    it hands back [np.array] of the remainders, squeezed: its dtype is the
    configured [blobs_dtype] or else the one numpy infers from the first
    walker's blob, its first axis has one entry per unit result, and all
    later axes of extent one are removed. Without vectorization there is
    one unit result per walker. The first hypothesis is numpy's contract
    for [np.array(l, dtype=dt)]. *)
Theorem structural_blob_detection (self : Sampler) coords ev results :
  (forall l dt a, np_array l dt = inr a ->
                  nd_dtype a = dt /\ head (nd_shape a) = Some (length l)) ->
  any_isinf coords || any_isnan coords = false ->
  evaluate (vectorize self) (pool self) (log_prob_fn self) coords
    = (ev, inr results) ->
  results <> [] ->
  (Forall (fun v => is_Some (scalar_value v)) results ->
   compute_log_prob coords self =
     (map EvEval ev, self,
      if existsb isnan (omap scalar_value results)
      then inl (ValueError msg_lp_nan)
      else inr (omap scalar_value results, None)))
  /\ (Forall (fun v => is_Some (head_value v)) results ->
      forall dt arr,
        blob_dtype (blobs_dtype self) (map blob_of results) = inr dt ->
        np_array (map blob_of results) dt = inr arr ->
        let blob := squeeze_single_blobs arr in
        compute_log_prob coords self =
          (map EvEval ev, self,
           if existsb isnan (omap head_value results)
           then inl (ValueError msg_lp_nan)
           else inr (omap head_value results, Some blob))
        /\ nd_dtype blob = dt
        /\ dt = match blobs_dtype self, results with
                | Some d, _ => d
                | None, v :: _ =>
                    match np_atleast_1d_dtype (blob_of v) with
                    | inr d => d
                    | inl _ => DObject
                    end
                | None, [] => DObject
                end
        /\ head (nd_shape blob) = Some (length results)
        /\ nd_shape blob = squeezed_shape (nd_shape arr)
        /\ (forall d, d ∈ tail (nd_shape blob) -> d <> 1%nat)
        /\ nd_data blob = nd_data arr)
  /\ (vectorize self = false -> length results = length coords).
Proof.
  intros Hnp Hgood Hev Hne. split; [|split].
  - intros Hall. unfold compute_log_prob.
    by rewrite (compute_log_prob_stages self coords ev results _ None Hgood Hev
                  (unpack_results_scalars _ _ Hne Hall)).
  - intros Hall dt arr Hdt Harr blob.
    destruct (squeeze_single_blobs_spec arr) as (Hd & Hdata & Hshape).
    destruct (Hnp _ _ _ Harr) as [Hdt' Hhead].
    assert (unpack_results (blobs_dtype self) results
            = inr (omap head_value results, Some blob)) as Hun.
    { rewrite (unpack_results_sequences _ _ Hall).
      unfold assemble_blobs. rewrite Hdt. simpl_exn. by rewrite Harr. }
    split; [|split; [|split; [|split; [|split; [|split]]]]].
    + unfold compute_log_prob.
      by rewrite (compute_log_prob_stages self coords ev results _ _ Hgood Hev Hun).
    + subst blob. congruence.
    + unfold blob_dtype in Hdt. destruct (blobs_dtype self); [congruence|].
      destruct results as [|v results]; [done|]. simpl in Hdt.
      destruct (np_atleast_1d_dtype (blob_of v)) as [[?|?]|?]; congruence.
    + subst blob. rewrite Hshape.
      destruct (nd_shape arr); [done|]. simpl in *.
      by rewrite length_map in Hhead.
    + done.
    + subst blob. rewrite Hshape. intros d.
      destruct (nd_shape arr) as [|d0 rest]; simpl; [by intros ?%elem_of_nil|].
      by intros [? _]%list_elem_of_filter.
    + done.
  - intros Hvec. rewrite Hvec in Hev. by eapply evaluate_length.
Qed.

(** ** The acceptance fraction *)

Lemma np_div_counts a i :
  0 <= a <= i -> 0 < i ->
  np_div (float_of_Z a) (float_of_Z i) = Finite (inject_Z a / inject_Z i)
  /\ in_unit_interval (np_div (float_of_Z a) (float_of_Z i)).
Proof.
  intros Ha Hi. unfold np_div, float_of_Z, Qis_zero. simpl.
  destruct (Z.eqb_spec i 0) as [->|_]; [lia|]. split; [done|].
  destruct i as [|p|p]; try lia.
  unfold in_unit_interval, Qle, Qdiv, Qmult, Qinv. simpl. lia.
Qed.

Lemma np_div_by_zero (x : npfloat) :
  ~ in_unit_interval (np_div x (float_of_Z 0)).
Proof.
  destruct x as [q| | |]; simpl; try (by intros []).
  destruct (Qis_zero q); [by intros []|].
  destruct (Qsign_neg q); by intros [].
Qed.

Lemma counts_bounded_reset (b : Backend (rng := rng)) nw nd :
  counts_bounded (Backend_reset b nw nd).
Proof.
  split; [done|]. simpl. apply Forall_forall.
  intros a [-> _]%elem_of_replicate. lia.
Qed.

Lemma counts_bounded_grow (b : Backend (rng := rng)) n ex :
  counts_bounded b -> counts_bounded (Backend_grow b n ex).
Proof. done. Qed.

Lemma counts_bounded_save_step (b : Backend (rng := rng)) st mask :
  counts_bounded b -> counts_bounded (Backend_save_step b st mask).
Proof.
  intros [Hi Hacc]. split; simpl; [lia|].
  unfold count_accepted. revert mask.
  induction Hacc as [|a acc Ha _ IH]; intros [|m mask]; simpl;
    try apply Forall_nil_2.
  apply Forall_cons. split; [destruct m; lia|apply IH].
Qed.

(** C7, as the code has it: once at least one step is stored, and with
    the per-walker counts between 0 and the number of stored steps (which
    is how a backend keeps them), every entry of [acceptance_fraction] is
    the count divided by the number of steps and lies in [0, 1]. With no
    stored step the division is by zero and no entry lies in [0, 1]. *)
Theorem acceptance_fraction_range (self : Sampler) :
  (0 < iteration (backend self) ->
   Forall (fun a => 0 <= a <= iteration (backend self))
     (accepted (backend self)) ->
   acceptance_fraction self =
     map (fun a => Finite (inject_Z a / inject_Z (iteration (backend self))))
       (accepted (backend self))
   /\ Forall in_unit_interval (acceptance_fraction self))
  /\ (iteration (backend self) = 0 ->
      Forall (fun x => ~ in_unit_interval x) (acceptance_fraction self)).
Proof.
  unfold acceptance_fraction. split.
  - intros Hi Hacc. split.
    + apply map_ext_Forall. eapply Forall_impl; [exact Hacc|].
      intros a Ha. simpl. by apply np_div_counts.
    + apply Forall_map. eapply Forall_impl; [exact Hacc|].
      intros a Ha. simpl. by apply np_div_counts.
  - intros ->. apply Forall_map, Forall_forall. intros a _.
    apply (np_div_by_zero (float_of_Z a)).
Qed.

(** ** The constructor *)

(** Which [_previous_state] the constructor leaves: [None] on a backend
    that was not initialized, the last sample of a backend that holds
    steps, and no attribute at all on an initialized backend without
    steps. *)
Lemma init_previous_state nw nd f pl mv ar kw bk vec bd a t l rs amb ent ev
    (s : Sampler) :
  __init__ nw nd f pl mv ar kw bk vec bd a t l rs amb ent = (ev, inr s) ->
  _previous_state s =
    let b := default Backend_new bk in
    if negb (initialized b) then Some None
    else if 0 <? iteration b then Some (last (chain b))
    else None.
Proof.
  unfold __init__, Backend_get_last_sample.
  destruct (parse_moves mv) as [e|[ms ws]]; [done|]. cbv zeta.
  destruct (negb (initialized (default Backend_new bk))).
  { simpl. by intros [= _ <-]. }
  destruct (negb (bool_decide _)); [done|].
  destruct (0 <? iteration (default Backend_new bk)).
  - destruct (last (chain (default Backend_new bk))) as [st|]; [|done].
    destruct (set_state ent _) as [[e|] r]; [done|]. by intros [= _ <-].
  - destruct (set_state ent _) as [[e|] r]; [done|]. by intros [= _ <-].
Qed.

(** With the default move the schedule is one that [choice] accepts. *)
Lemma init_default_schedule_ok nw nd f pl ar kw bk vec bd a t l rs amb ent ev
    (s : Sampler) :
  __init__ nw nd f pl None ar kw bk vec bd a t l rs amb ent = (ev, inr s) ->
  schedule_ok s.
Proof.
  unfold __init__. simpl parse_moves. cbv iota beta zeta.
  intros H.
  assert (_moves s = [StretchMove] /\ _weights s = normalize [Finite 1])
    as [Hm Hw].
  { repeat (case_match; simplify_eq/=); done. }
  unfold schedule_ok. rewrite Hm, Hw. by vm_compute.
Qed.
(** ** Pickling *)

(** C10: [__getstate__] hands back the reference to the sampler's own
    attribute dictionary, not to a copy, after storing [None] under
    [pool]: in the store that results the live sampler has no pool, keeps
    every other attribute, no other object has changed, and from then on
    the sampler maps sequentially, in [sample] as in [compute_log_prob]. *)
Theorem getstate_clears_pool_of_live_sampler
    (self : positive) (h : gmap positive Sampler) (d : Sampler) :
  h !! self = Some d ->
  exists h',
    __getstate__ self h = Some (self, h')
    /\ h' !! self = Some (set_pool None d)
    /\ pool (set_pool None d) = None
    /\ (_moves (set_pool None d) = _moves d
        /\ _weights (set_pool None d) = _weights d
        /\ vectorize (set_pool None d) = vectorize d
        /\ blobs_dtype (set_pool None d) = blobs_dtype d
        /\ ndim (set_pool None d) = ndim d
        /\ nwalkers (set_pool None d) = nwalkers d
        /\ backend (set_pool None d) = backend d
        /\ _previous_state (set_pool None d) = _previous_state d
        /\ _random (set_pool None d) = _random d
        /\ log_prob_fn (set_pool None d) = log_prob_fn d)
    /\ (forall other, other <> self -> h' !! other = h !! other)
    /\ call_method self (gets (fun s => select_map (pool s))) h'
         = Some ([], h', inr BuiltinMap)
    /\ (forall coords,
          compute_log_prob_fun (set_pool None d) coords =
            compute_log_prob_with (vectorize d) None (blobs_dtype d)
              (log_prob_fn d) coords).
Proof.
  intros Hd. exists (<[self := set_pool None d]> h).
  unfold __getstate__, call_method. rewrite Hd. simpl.
  rewrite lookup_insert_eq. simpl.
  repeat split; try done.
  - intros other Hne. by rewrite lookup_insert_ne.
  - unfold gets. simpl. by rewrite insert_insert_eq.
Qed.

(** With a copy handed back instead, the live sampler would keep its
    pool: the aliasing is what clears it. *)
Lemma getstate_copy_keeps_pool (self fresh : positive)
    (h : gmap positive Sampler) (d : Sampler) :
  h !! self = Some d -> fresh <> self ->
  exists h',
    getstate_copy self fresh h = Some (fresh, h')
    /\ h' !! self = Some d
    /\ h' !! fresh = Some (set_pool None d).
Proof.
  intros Hd Hne. exists (<[fresh := set_pool None d]> h).
  unfold getstate_copy. rewrite Hd. simpl.
  rewrite lookup_insert_ne by done. by rewrite lookup_insert_eq.
Qed.

(** ** [run_mcmc] *)

Lemma run_mcmc_unfold x nsteps lp0 rs0 b0 tune skip thin_by thin store progress
    (self : Sampler) :
  run_mcmc (Some x) nsteps lp0 rs0 b0 tune skip thin_by thin store progress self =
    match sample x lp0 rs0 b0 nsteps tune skip thin_by thin store progress self with
    | (ev, self', inl e) => (ev, self', inl e)
    | (ev, self', inr ys) =>
        (ev, set_previous_state (Some (last ys)) self', inr (last ys))
    end.
Proof.
  unfold run_mcmc. run_m. simpl.
  destruct (sample x _ _ _ _ _ _ _ _ _ _ self) as [[ev self'] [e|ys]];
    simpl; by rewrite ?app_nil_r.
Qed.

(** What [run_mcmc] hands back is the last state yielded, and that is
    what it remembers. *)
Lemma run_mcmc_returns_last x nsteps lp0 rs0 b0 tune skip thin_by thin store
    progress (self self' : Sampler) ev ys :
  sample x lp0 rs0 b0 nsteps tune skip thin_by thin store progress self
    = (ev, self', inr ys) ->
  exists self'',
    run_mcmc (Some x) nsteps lp0 rs0 b0 tune skip thin_by thin store progress self
      = (ev, self'', inr (last ys))
    /\ _previous_state self'' = Some (last ys).
Proof. intros H. rewrite run_mcmc_unfold, H. eauto. Qed.

(** With a remembered state, [None] stands for it. *)
Lemma run_mcmc_resumes (s : St) nsteps lp0 rs0 b0 tune skip thin_by thin store
    progress (self : Sampler) :
  _previous_state self = Some (Some s) ->
  run_mcmc None nsteps lp0 rs0 b0 tune skip thin_by thin store progress self =
  run_mcmc (Some (inl s)) nsteps lp0 rs0 b0 tune skip thin_by thin store
    progress self.
Proof.
  intros H. unfold run_mcmc. run_m. rewrite H. simpl.
  by destruct (sample _ _ _ _ _ _ _ _ _ _ _ self) as [[ev self'] [e|ys]].
Qed.

(** With [_previous_state] set to [None], there is nothing to resume. *)
Lemma run_mcmc_nothing_recorded nsteps lp0 rs0 b0 tune skip thin_by thin store
    progress (self : Sampler) :
  _previous_state self = Some None ->
  run_mcmc None nsteps lp0 rs0 b0 tune skip thin_by thin store progress self =
    ([], self, inl (ValueError msg_missing)).
Proof. intros H. unfold run_mcmc. run_m. by rewrite H. Qed.

(** When the attribute was never assigned, reading it is the error. *)
Lemma run_mcmc_attribute_missing nsteps lp0 rs0 b0 tune skip thin_by thin store
    progress (self : Sampler) :
  _previous_state self = None ->
  run_mcmc None nsteps lp0 rs0 b0 tune skip thin_by thin store progress self =
    ([], self, inl (AttributeError "_previous_state")).
Proof. intros H. unfold run_mcmc. run_m. by rewrite H. Qed.

(** ** Thinning *)

Lemma sample_continues_after_initial_state init lp0 rs0 b0 iterations tune skip
    thin_by thin store progress (self self0 : Sampler) ev0 state :
  sample_initial_state init lp0 rs0 b0 skip self = (ev0, self0, inr state) ->
  sample init lp0 rs0 b0 iterations tune skip thin_by thin store progress self
    = match sample_steps state iterations tune thin_by thin store self0 with
      | (ev, self', r) => (ev0 ++ ev, self', r)
      end.
Proof. unfold sample, bind. by intros ->. Qed.

Section RaisesOnly.
Variable P : exn -> Prop.

Lemma raises_only_ret {A} (a : A) : raises_only P (ret a).
Proof. by intros self ev self' e. Qed.
Lemma raises_only_gets {A} (proj : Sampler -> A) : raises_only P (gets proj).
Proof. by intros self ev self' e. Qed.
Lemma raises_only_modify g : raises_only P (modify g).
Proof. by intros self ev self' e. Qed.
Lemma raises_only_emit e0 : raises_only P (emit e0).
Proof. by intros self ev self' e. Qed.
Lemma raises_only_raise {A} e0 : P e0 -> raises_only P (raise (A := A) e0).
Proof. intros H self ev self' e [= _ _ <-]. done. Qed.
Lemma raises_only_lift {A} (r : exn + A) :
  (forall e, r = inl e -> P e) -> raises_only P (lift r).
Proof. intros H self ev self' e [= _ _ ->]. by apply H. Qed.
Lemma raises_only_bind {A B} (m : M A) (k : A -> M B) :
  raises_only P m -> (forall a, raises_only P (k a)) ->
  raises_only P (bind m k).
Proof.
  intros Hm Hk self ev self' e. unfold bind.
  destruct (m self) as [[ev1 self1] [e1|a]] eqn:E1.
  - intros [= _ _ <-]. by eapply Hm.
  - destruct (k a self1) as [[ev2 self2] r] eqn:E2.
    intros [= _ _ ->]. by eapply Hk.
Qed.
Lemma raises_only_when b m : raises_only P m -> raises_only P (when b m).
Proof. destruct b; [done|]. intros _. apply raises_only_ret. Qed.

Lemma raises_only_repeat_rounds n body (st : St * Z) :
  (forall st, raises_only P (body st)) ->
  raises_only P (repeat_rounds n body st).
Proof.
  intros Hbody. revert st. induction n as [|n IH]; intros st; simpl.
  - apply raises_only_ret.
  - apply raises_only_bind; [apply Hbody|apply IH].
Qed.

Lemma raises_only_sample_loop n k body (st : St * Z) :
  (forall st, raises_only P (body st)) ->
  raises_only P (sample_loop n k body st).
Proof.
  intros Hbody. revert st. induction n as [|n IH]; intros st; simpl.
  - apply raises_only_ret.
  - apply raises_only_bind; [by apply raises_only_repeat_rounds|].
    intros st'. apply raises_only_bind; [apply raises_only_emit|].
    intros _. apply raises_only_bind; [apply IH|].
    intros rest. apply raises_only_ret.
Qed.
End RaisesOnly.

Lemma py_int_not_thinning v e : py_int v = inl e -> not_thinning e.
Proof.
  destruct v as [[| | |]| | |]; simpl; intros [= <-]; by vm_compute.
Qed.

Lemma choose_move_not_thinning : raises_only not_thinning choose_move.
Proof.
  intros self ev self' e. unfold choose_move, choice.
  repeat case_match; simplify_eq; intros [= _ _ <-]; by vm_compute.
Qed.

Lemma sample_round_not_thinning map_fn tune store checkpoint_step st :
  (forall m mdl st ev r m' e,
      propose m mdl st = (ev, r, m', inl e) -> not_thinning e) ->
  raises_only not_thinning (sample_round map_fn tune store checkpoint_step st).
Proof.
  intros Hprop. unfold sample_round. destruct st as [state i].
  apply raises_only_bind; [apply choose_move_not_thinning|]. intros im.
  apply raises_only_bind.
  { intros self ev self' e. unfold call_propose.
    destruct (propose _ _ _) as [[[ev1 r1] m1] [e1|[st1 mask]]] eqn:E;
      intros [= _ _ <-]. by eapply Hprop. }
  intros r. apply raises_only_bind; [apply raises_only_gets|]. intros snap.
  apply raises_only_bind; [apply raises_only_emit|]. intros _.
  apply raises_only_bind.
  { apply raises_only_when. unfold call_tune.
    apply raises_only_bind; [apply raises_only_emit|]. intros _.
    apply raises_only_modify. }
  intros _. apply raises_only_bind.
  { apply raises_only_when. unfold backend_save_step.
    apply raises_only_bind; [apply raises_only_emit|]. intros _.
    apply raises_only_modify. }
  intros _. apply raises_only_bind; [apply raises_only_emit|]. intros _.
  apply raises_only_ret.
Qed.

Lemma sample_steps_thin_by (state : St) iterations tune t store z
    (self : Sampler) :
  py_int t = inr z ->
  sample_steps state iterations tune t None store self =
    if z <=? 0 then ([], self, inl (ValueError msg_thin))
    else
      bind (lift (py_int iterations)) (fun n =>
      bind (when store (backend_grow n (blobs state))) (fun _ =>
      sample_run state (z, z, n) tune store)) self.
Proof.
  intros Ht. unfold sample_steps, sample_thinning. run_m. rewrite Ht. simpl.
  destruct (z <=? 0); [done|].
  destruct (py_int iterations) as [e|n]; [done|]. simpl.
  destruct store; simpl;
    match goal with
    | |- context [bind ?m ?k ?s] => by destruct (bind m k s) as [[? ?] ?]
    end.
Qed.

Lemma sample_steps_thin (state : St) iterations tune other t store z
    (self : Sampler) :
  py_int t = inr z ->
  sample_steps state iterations tune other (Some t) store self =
    if z <=? 0 then
      ([EvWarn "DeprecationWarning"
          "The 'thin' argument is deprecated. Use 'thin_by' instead."],
       self, inl (ValueError msg_thin))
    else
      bind (deprecation_warning
              "The 'thin' argument is deprecated. Use 'thin_by' instead.") (fun _ =>
      bind (lift (py_int iterations)) (fun n =>
      bind (when store (backend_grow (n / z) (blobs state))) (fun _ =>
      sample_run state (1, z, n) tune store))) self.
Proof.
  intros Ht. unfold sample_steps, sample_thinning. run_m. rewrite Ht. simpl.
  destruct (z <=? 0); [done|].
  destruct (py_int iterations) as [e|n]; [done|]. simpl.
  destruct store; simpl;
    match goal with
    | |- context [bind ?m ?k ?s] => by destruct (bind m k s) as [[? ?] ?]
    end.
Qed.

Lemma sample_run_not_thinning (state : St) steps tune store :
  (forall m mdl st ev r m' e,
      propose m mdl st = (ev, r, m', inl e) -> not_thinning e) ->
  raises_only not_thinning (sample_run state steps tune store).
Proof.
  intros Hprop. unfold sample_run. destruct steps as [[ys cs] n].
  apply raises_only_bind; [apply raises_only_gets|]. intros map_fn.
  apply raises_only_sample_loop. intros st.
  by apply sample_round_not_thinning.
Qed.

Lemma sample_steps_not_thinning (state : St) iterations tune thin_by thin store
    z (self self' : Sampler) ev e :
  (forall m mdl st ev r m' e,
      propose m mdl st = (ev, r, m', inl e) -> not_thinning e) ->
  py_int (default thin_by thin) = inr z ->
  0 < z ->
  sample_steps state iterations tune thin_by thin store self = (ev, self', inl e) ->
  not_thinning e.
Proof.
  intros Hprop Hz Hpos.
  assert ((z <=? 0) = false) as Hle by lia.
  assert (forall n steps, raises_only not_thinning
            (bind (lift (py_int iterations)) (fun i =>
             bind (when store (backend_grow (n i) (blobs state))) (fun _ =>
             sample_run state (steps i) tune store)))) as Hrest.
  { intros n steps. apply raises_only_bind.
    - apply raises_only_lift. apply py_int_not_thinning.
    - intros i. apply raises_only_bind.
      + apply raises_only_when. unfold backend_grow.
        apply raises_only_bind; [apply raises_only_emit|]. intros _.
        apply raises_only_modify.
      + intros _. by apply sample_run_not_thinning. }
  destruct thin as [t|]; simpl in Hz.
  - rewrite (sample_steps_thin _ _ _ _ _ _ _ _ Hz), Hle.
    apply (raises_only_bind not_thinning).
    + apply raises_only_emit.
    + intros _. apply (Hrest (fun i => i / z) (fun i => (1, z, i))).
  - rewrite (sample_steps_thin_by _ _ _ _ _ _ _ Hz), Hle.
    apply (Hrest (fun i => i) (fun i => (z, z, i))).
Qed.

(** C8, as the code has it: the thinning factor goes through [int()]
    first and only then is compared with zero. Given an initial state
    that passes the checks made before, a number [t] and moves that do
    not themselves raise the thinning error, [sample] with [thin_by = t],
    or with the deprecated [thin = t], raises "Invalid thinning argument"
    exactly when [int(t) <= 0], and then nothing was yielded. So [0],
    [-1] and [0.5] are refused and [1.5], truncated to 1, is accepted. *)
Theorem thinning_is_checked_after_truncation
    (self self0 : Sampler) init lp0 rs0 b0 iterations tune skip store progress
    (other t : pyval) (z : Z) ev0 (state : St) :
  sample_initial_state init lp0 rs0 b0 skip self = (ev0, self0, inr state) ->
  py_int t = inr z ->
  (forall m mdl st ev r m' e,
      propose m mdl st = (ev, r, m', inl e) ->
      kind_of e <> InvalidThinningError) ->
  let by_thin_by :=
    sample init lp0 rs0 b0 iterations tune skip t None store progress self in
  let by_thin :=
    sample init lp0 rs0 b0 iterations tune skip other (Some t) store progress
      self in
  ((exists e, snd by_thin_by = inl e /\ kind_of e = InvalidThinningError)
    <-> z <= 0)
  /\ ((exists e, snd by_thin = inl e /\ kind_of e = InvalidThinningError)
    <-> z <= 0)
  /\ (z <= 0 ->
      snd by_thin_by = inl (ValueError msg_thin)
      /\ snd by_thin = inl (ValueError msg_thin)
      /\ yielded (fst (fst by_thin_by)) = []
      /\ yielded (fst (fst by_thin)) = []).
Proof.
  intros Hinit Hz Hprop by_thin_by by_thin.
  pose proof (sample_initial_state_silent init lp0 rs0 b0 skip self) as Hsil.
  rewrite Hinit in Hsil. simpl in Hsil. apply skeleton_yielded in Hsil.
  subst by_thin_by by_thin.
  rewrite !(sample_continues_after_initial_state _ _ _ _ _ _ _ _ _ _ _ _ _ _ _
              Hinit).
  destruct (Z.leb_spec z 0) as [Hle|Hpos].
  - rewrite (sample_steps_thin_by _ _ _ _ _ _ _ Hz).
    rewrite (sample_steps_thin _ _ _ _ _ _ _ _ Hz).
    assert ((z <=? 0) = true) as -> by lia. simpl.
    rewrite app_nil_r, yielded_app, Hsil. simpl.
    repeat split; try done; intros _; by exists (ValueError msg_thin).
  - split; [|split]; [| |lia].
    + split; [|lia]. intros (e & He & Hk). exfalso.
      destruct (sample_steps state iterations tune t None store self0)
        as [[ev self'] r] eqn:E. simpl in He. subst r.
      by eapply (sample_steps_not_thinning _ _ _ t None) in E.
    + split; [|lia]. intros (e & He & Hk). exfalso.
      destruct (sample_steps state iterations tune other (Some t) store self0)
        as [[ev self'] r] eqn:E. simpl in He. subst r.
      by eapply (sample_steps_not_thinning _ _ _ other (Some t)) in E.
Qed.

(** ** Counting rounds *)

Lemma count_token_app t l1 l2 :
  count_token t (l1 ++ l2) = (count_token t l1 + count_token t l2)%nat.
Proof. unfold count_token. by rewrite filter_app, length_app. Qed.

Lemma count_token_concat_replicate t n l :
  count_token t (concat (replicate n l)) = (n * count_token t l)%nat.
Proof.
  induction n as [|n IH]; [done|]. simpl.
  by rewrite count_token_app, IH.
Qed.

Lemma count_token_block t store k :
  (1 <= k)%nat ->
  count_token t (block_skeleton store k) =
    match t with
    | TChoice | TPropose | TSnapshot => k
    | TSave => if store then 1%nat else 0%nat
    | TYield => 1%nat
    end.
Proof.
  intros Hk. unfold block_skeleton.
  rewrite !count_token_app, count_token_concat_replicate.
  destruct t, store; vm_compute count_token;
    lia.
Qed.

Lemma rounds_skeleton_app store k i n m :
  rounds_skeleton store k i (n + m) =
    rounds_skeleton store k i n ++ rounds_skeleton store k (i + Z.of_nat n) m.
Proof.
  revert i. induction n as [|n IH]; intros i.
  - simpl. by rewrite Z.add_0_r.
  - cbn [Nat.add rounds_skeleton]. rewrite IH, <- app_assoc.
    do 3 f_equal. lia.
Qed.

(** Between two checkpoints nothing is saved. *)
Lemma rounds_skeleton_plain store k b c n :
  0 <= c -> c + Z.of_nat n < k ->
  rounds_skeleton store k (b * k + c) n =
    concat (replicate n [TChoice; TPropose; TSnapshot]).
Proof.
  revert c. induction n as [|n IH]; intros c Hc Hlt; [done|].
  cbn [rounds_skeleton replicate concat]. unfold round_skeleton.
  replace (b * k + c + 1) with ((c + 1) + b * k) by lia.
  rewrite Z_mod_plus_full, Z.mod_small by lia.
  assert ((c + 1 =? 0) = false) as -> by lia.
  rewrite andb_false_r, app_nil_r.
  replace (c + 1 + b * k) with (b * k + (c + 1)) by lia.
  rewrite IH by lia. done.
Qed.

(** The rounds [b * k .. b * k + k - 1] end with the checkpoint. *)
Lemma rounds_skeleton_block store k b :
  1 <= k ->
  rounds_skeleton store k (b * k) (Z.to_nat k) ++ [TYield] =
    block_skeleton store (Z.to_nat k).
Proof.
  intros Hk. unfold block_skeleton.
  replace (Z.to_nat k) with ((Z.to_nat k - 1) + 1)%nat at 1 by lia.
  rewrite rounds_skeleton_app.
  replace (b * k) with (b * k + 0) at 1 by lia.
  rewrite rounds_skeleton_plain by lia.
  rewrite <- !app_assoc. f_equal.
  cbn [rounds_skeleton]. unfold round_skeleton.
  replace (b * k + Z.of_nat (Z.to_nat k - 1) + 1) with (0 + (b + 1) * k) by lia.
  rewrite Z_mod_plus_full, Z.mod_0_l by lia.
  rewrite andb_true_r, app_nil_r, <- !app_assoc. done.
Qed.

(** ** What the initial checks leave alone *)

Lemma same_but_random_refl s : same_but_random s s.
Proof. by repeat split. Qed.

Lemma same_but_random_trans s1 s2 s3 :
  same_but_random s1 s2 -> same_but_random s2 s3 -> same_but_random s1 s3.
Proof. unfold same_but_random. intros H1 H2. split_and!; intuition congruence. Qed.

Lemma keeps_pure {A} (m : M A) :
  (forall self, snd (fst (m self)) = self) -> keeps_but_random m.
Proof. intros H self. rewrite H. apply same_but_random_refl. Qed.

Lemma keeps_bind {A B} (m : M A) (k : A -> M B) :
  keeps_but_random m -> (forall a, keeps_but_random (k a)) ->
  keeps_but_random (bind m k).
Proof.
  intros Hm Hk self. unfold bind. specialize (Hm self).
  destruct (m self) as [[ev self'] [e|a]]; [done|].
  specialize (Hk a self'). destruct (k a self') as [[ev' self''] r].
  simpl in *. by eapply same_but_random_trans.
Qed.

Lemma keeps_when b m : keeps_but_random m -> keeps_but_random (when b m).
Proof. destruct b; [done|]. intros _. by apply keeps_pure. Qed.

Lemma keeps_set_random_state st : keeps_but_random (set_random_state st).
Proof.
  intros self. unfold set_random_state.
  destruct (set_state _ st); simpl; by repeat split.
Qed.

Lemma keeps_compute_log_prob c : keeps_but_random (compute_log_prob c).
Proof.
  apply keeps_pure. intros self. unfold compute_log_prob.
  by destruct (compute_log_prob_fun self c).
Qed.

Lemma sample_initial_state_keeps init lp0 rs0 b0 skip :
  keeps_but_random (sample_initial_state init lp0 rs0 b0 skip).
Proof.
  unfold sample_initial_state. cbv zeta.
  repeat first
    [ apply keeps_set_random_state | apply keeps_compute_log_prob
    | apply keeps_when
    | apply keeps_bind; [|intros ?]
    | apply keeps_pure; reflexivity
    | progress unfold deprecation_warning, runtime_warning
    | case_match ].
Qed.

(** ** The rounds of the loop *)

Section Rounds.
(** [choice] draws an index of its probability vector. *)
Hypothesis draw_in_range :
  forall (r : rng) (p : list npfloat),
    p <> [] -> (fst (rng_draw r p) < length p)%nat.
Variable good_move : Move -> Prop.
Variable good_state : St -> Prop.

Lemma choose_move_ok (self : Sampler) :
  schedule_ok self ->
  exists i m r,
    choose_move self = ([EvChoice i], set_random r self, inr (i, m))
    /\ _moves self !! i = Some m.
Proof.
  intros (Hne & Hlen & Hnan & Hpos & Hone).
  unfold choose_move, choice.
  destruct (_moves self) as [|m0 ms] eqn:Hms; [done|].
  rewrite Hlen, Hnan, Hpos, Hone, Nat.eqb_refl. simpl.
  pose proof (draw_in_range (_random self) (_weights self)) as Hi.
  destruct (rng_draw (_random self) (_weights self)) as [i r]. simpl in Hi.
  assert (i < length (m0 :: ms))%nat as Hlt.
  { rewrite <- Hlen. apply Hi. intros Hw. by rewrite Hw in Hlen. }
  destruct (lookup_lt_is_Some_2 _ _ Hlt) as [m Hm].
  rewrite Hm. eauto 6.
Qed.

Lemma proposals_return_frame (self self' : Sampler) :
  log_prob_fn self' = log_prob_fn self ->
  vectorize self' = vectorize self ->
  pool self' = pool self ->
  blobs_dtype self' = blobs_dtype self ->
  proposals_return good_move good_state self ->
  proposals_return good_move good_state self'.
Proof.
  unfold proposals_return, compute_log_prob_fun.
  by intros -> -> -> ->.
Qed.

Lemma call_propose_ok map_fn i m (state : St) (self : Sampler) :
  proposals_return good_move good_state self ->
  map_fn = select_map (pool self) ->
  good_move m -> good_state state ->
  exists ev r' m' st' mask,
    call_propose map_fn i m state self
      = (EvPropose i :: map EvEval ev,
         set_moves (<[i := m']> (_moves self)) (set_random r' self),
         inr (m', st', mask))
    /\ good_move m'
    /\ good_move (tune m' (with_random_state st' (RSnap r')) mask)
    /\ good_state (with_random_state st' (RSnap r')).
Proof.
  intros Hp -> Hm Hst.
  destruct (Hp m (_random self) state Hm Hst)
    as (ev & r' & m' & st' & mask & Hrun & Hgood).
  exists ev, r', m', st', mask. split; [|done].
  unfold call_propose. by rewrite Hrun.
Qed.

Lemma schedule_ok_frame (self self' : Sampler) :
  length (_moves self') = length (_moves self) ->
  _weights self' = _weights self ->
  schedule_ok self -> schedule_ok self'.
Proof.
  intros Hm Hw (Hne & Hlen & Hrest). unfold schedule_ok.
  rewrite Hw, Hm. split; [|done].
  intros H. apply Hne. destruct (_moves self); [done|].
  by rewrite H in Hm.
Qed.

Lemma sample_round_ok map_fn tune store k (state : St) i (self : Sampler) :
  round_ready good_move good_state map_fn self state ->
  exists ev self' state',
    sample_round map_fn tune store k (state, i) self
      = (ev, self', inr (state', i + 1))
    /\ skeleton ev = round_skeleton store k i
    /\ round_ready good_move good_state map_fn self' state'
    /\ random_state state' = RSnap (_random self')
    /\ stored self' = stored self + Z.of_nat (count_token TSave (skeleton ev)).
Proof.
  intros (Hok & Hprop & Hmoves & Hstate & Hmap). unfold sample_round.
  destruct (choose_move_ok self Hok) as (j & m & r & Hch & Hj).
  unfold bind at 1. rewrite Hch. cbn [fst snd].
  unfold bind at 1.
  destruct (call_propose_ok map_fn j m state (set_random r self))
    as (ev1 & r1 & m1 & st1 & mask & Hp & Hm1 & Hm2 & Hst1).
  { by eapply proposals_return_frame; [..|exact Hprop]. }
  { done. }
  { by eapply Forall_lookup_1. }
  { done. }
  rewrite Hp. cbn [fst snd].
  set (self1 := set_moves _ (set_random r1 (set_random r self))).
  assert (schedule_ok self1) as Hok1.
  { eapply schedule_ok_frame; [| |exact Hok]; [|done].
    subst self1. simpl. by rewrite length_insert. }
  assert (proposals_return good_move good_state self1) as Hprop1
    by (by eapply proposals_return_frame; [..|exact Hprop]).
  assert (Forall good_move (_moves self1)) as Hmoves1
    by (by apply Forall_insert).
  assert (stored self1 = stored self) as Hstored1 by done.
  assert (_random self1 = r1) as Hr1 by done.
  assert (pool self1 = pool self) as Hpool1 by done.
  clearbody self1. run_m. unfold call_tune. run_m. simpl.
  unfold round_skeleton, get_random_state, get_state. rewrite Hr1.
  pose proof (skeleton_eval ev1) as Hev1. unfold skeleton in *.
  destruct tune, (store && ((i + 1) mod k =? 0)); simpl;
    do 3 eexists; (split; [reflexivity|]);
    simpl; rewrite ?omap_app, ?Hev1; simpl;
    (split; [reflexivity|]);
    (split;
     [split_and!;
      [eapply schedule_ok_frame; [| |exact Hok1]; simpl;
       rewrite ?length_insert; done
      |by eapply proposals_return_frame; [..|exact Hprop1]
      |simpl; by try apply Forall_insert
      |done
      |simpl; by rewrite ?Hpool1]|]);
    (split; [simpl; by rewrite ?Hr1|]);
    unfold stored in *; simpl; vm_compute count_token; lia.
Qed.

Lemma yielded_length (ev : list (event (rng := rng))) :
  length (yielded ev) = count_token TYield (skeleton ev).
Proof.
  unfold yielded, skeleton, count_token.
  induction ev as [|e ev IH]; [done|].
  destruct e; simpl; rewrite ?filter_cons; simpl; try done.
  by f_equal.
Qed.

Lemma rounds_skeleton_no_yield store k i n :
  count_token TYield (rounds_skeleton store k i n) = 0%nat.
Proof.
  revert i. induction n as [|n IH]; intros i; [done|].
  cbn [rounds_skeleton]. rewrite count_token_app, IH.
  unfold round_skeleton. by destruct (store && _).
Qed.

Lemma repeat_rounds_ok map_fn tune store k n (state : St) i (self : Sampler) :
  round_ready good_move good_state map_fn self state ->
  exists ev self' state',
    repeat_rounds n (sample_round map_fn tune store k) (state, i) self
      = (ev, self', inr (state', i + Z.of_nat n))
    /\ skeleton ev = rounds_skeleton store k i n
    /\ round_ready good_move good_state map_fn self' state'
    /\ (random_state state = RSnap (_random self) \/ (1 <= n)%nat ->
        random_state state' = RSnap (_random self'))
    /\ stored self' = stored self + Z.of_nat (count_token TSave (skeleton ev)).
Proof.
  revert state i self. induction n as [|n IH]; intros state i self Hok.
  - exists [], self, state. cbn [repeat_rounds]. unfold ret.
    rewrite Z.add_0_r. split_and!; try done.
    + intros [?|?]; [done|lia].
    + vm_compute count_token. lia.
  - cbn [repeat_rounds]. unfold bind.
    destruct (sample_round_ok map_fn tune store k state i self Hok)
      as (ev1 & self1 & state1 & -> & Hsk1 & Hok1 & Hsnap1 & Hst1).
    destruct (IH state1 (i + 1) self1 Hok1)
      as (ev2 & self2 & state2 & -> & Hsk2 & Hok2 & Hsnap2 & Hst2).
    exists (ev1 ++ ev2), self2, state2.
    rewrite skeleton_app, count_token_app, Hsk1, Hsk2.
    rewrite Hsk1 in Hst1. rewrite Hsk2 in Hst2.
    replace (i + Z.of_nat (S n)) with (i + 1 + Z.of_nat n) by lia.
    split_and!; [done|done|done|auto|lia].
Qed.

Lemma default_last_cons {A} (a b : A) l :
  default a (last (b :: l)) = default b (last l).
Proof.
  revert a b. induction l as [|c l IH]; intros a b; [done|].
  change (last (b :: c :: l)) with (last (c :: l)).
  by rewrite (IH a c), (IH b c).
Qed.

Lemma sample_loop_ok map_fn tune store k n b (state : St) (self : Sampler) :
  1 <= k ->
  round_ready good_move good_state map_fn self state ->
  exists ev self' ys,
    sample_loop n (Z.to_nat k) (sample_round map_fn tune store k)
      (state, b * k) self = (ev, self', inr ys)
    /\ skeleton ev = concat (replicate n (block_skeleton store (Z.to_nat k)))
    /\ yielded ev = ys
    /\ length ys = n
    /\ schedule_ok self'
    /\ Forall (fun y => exists r, random_state y = RSnap r) ys
    /\ (random_state state = RSnap (_random self) \/ (1 <= n)%nat ->
        random_state (default state (last ys)) = RSnap (_random self'))
    /\ stored self' = stored self + Z.of_nat (count_token TSave (skeleton ev)).
Proof.
  intros Hk. revert b state self.
  induction n as [|n IH]; intros b state self Hok.
  - exists [], self, []. cbn [sample_loop]. unfold ret.
    split_and!; try done.
    + by destruct Hok.
    + intros [?|?]; [done|lia].
    + vm_compute count_token. lia.
  - cbn [sample_loop]. unfold bind at 1.
    destruct (repeat_rounds_ok map_fn tune store k (Z.to_nat k) state (b * k)
                self Hok)
      as (ev1 & self1 & state1 & -> & Hsk1 & Hok1 & Hsnap1 & Hst1).
    assert (random_state state1 = RSnap (_random self1)) as Hs1
      by (apply Hsnap1; right; lia).
    replace (b * k + Z.of_nat (Z.to_nat k)) with ((b + 1) * k) by lia.
    destruct (IH (b + 1) state1 self1 Hok1)
      as (ev2 & self2 & ys & Hrun & Hsk2 & Hy2 & Hlen & Hok2 & Hall & Hlast
          & Hst2).
    run_m. cbn [fst]. rewrite Hrun.
    exists (ev1 ++ EvYield state1 :: ev2 ++ []), self2, (state1 :: ys).
    rewrite app_nil_r.
    assert (skeleton (ev1 ++ EvYield state1 :: ev2)
            = block_skeleton store (Z.to_nat k)
              ++ concat (replicate n (block_skeleton store (Z.to_nat k))))
      as Hsk.
    { rewrite skeleton_app. change (skeleton (EvYield state1 :: ev2))
        with ([TYield] ++ skeleton ev2).
      rewrite Hsk1, Hsk2, app_assoc. f_equal.
      by apply rounds_skeleton_block. }
    split; [done|]. split; [done|]. split.
    { rewrite yielded_app.
      assert (yielded ev1 = []) as ->.
      { apply length_zero_iff_nil.
        by rewrite yielded_length, Hsk1, rounds_skeleton_no_yield. }
      simpl. by rewrite Hy2. }
    split; [simpl; by rewrite Hlen|]. split; [done|].
    split; [apply Forall_cons; eauto|].
    split; [intros _; rewrite default_last_cons; auto|].
    rewrite Hst2, Hst1, skeleton_app.
    change (skeleton (EvYield state1 :: ev2)) with ([TYield] ++ skeleton ev2).
    rewrite !count_token_app. vm_compute (count_token TSave [TYield]). lia.
Qed.
End Rounds.

(** ** Reproducibility *)

Section Agree.
Variable P : Sampler -> Sampler -> Prop.

Lemma agree_ret {A} (V : A -> Prop) (a : A) : V a -> agree P P V (ret a).
Proof. intros Ha s1 s2 HP. simpl. split_and!; try done. by intros ? [= <-]. Qed.

Lemma agree_raise {A} Q (V : A -> Prop) e : agree P Q V (raise e).
Proof. intros s1 s2 HP. simpl. by split_and!. Qed.

Lemma agree_emit e : agree P P any (emit e).
Proof. intros s1 s2 HP. simpl. by split_and!. Qed.

Lemma agree_lift {A} (r : exn + A) : agree P P any (lift r).
Proof. intros s1 s2 HP. simpl. by split_and!. Qed.

Lemma agree_gets {A} (proj : Sampler -> A) :
  (forall s1 s2, P s1 s2 -> proj s1 = proj s2) -> agree P P any (gets proj).
Proof. intros Hp s1 s2 HP. simpl. split_and!; try done. f_equal. auto. Qed.

Lemma agree_modify g :
  (forall s1 s2, P s1 s2 -> P (g s1) (g s2)) -> agree P P any (modify g).
Proof.
  intros Hg s1 s2 HP. simpl. split_and!; try done.
  intros a _. split; [done|auto].
Qed.

Lemma agree_bind {A B} Q T (V : A -> Prop) (W : B -> Prop)
    (m : M A) (k : A -> M B) :
  agree P Q V m -> (forall a, V a -> agree Q T W (k a)) ->
  agree P T W (bind m k).
Proof.
  intros Hm Hk s1 s2 HP. unfold bind.
  destruct (Hm s1 s2 HP) as (Hev & Hr & Hpost).
  destruct (m s1) as [[ev1 s1'] r1], (m s2) as [[ev2 s2'] r2].
  simpl in *. subst ev2 r2.
  destruct r1 as [e|a]; [done|].
  destruct (Hpost a eq_refl) as [Ha HQ].
  destruct (Hk a Ha s1' s2' HQ) as (Hev' & Hr' & Hpost').
  destruct (k a s1') as [[ev1' s1''] r1'], (k a s2') as [[ev2' s2''] r2'].
  simpl in *. by subst.
Qed.

Lemma agree_when b m : agree P P any m -> agree P P any (when b m).
Proof. destruct b; [done|]. intros _. by apply agree_ret. Qed.

Lemma agree_any {A} Q (V : A -> Prop) m : agree P Q V m -> agree P Q any m.
Proof.
  intros H s1 s2 HP. destruct (H s1 s2 HP) as (? & ? & Hpost).
  split_and!; try done. intros a Ha. by destruct (Hpost a Ha).
Qed.
End Agree.

Lemma same_stream_config s1 s2 : same_stream s1 s2 -> same_config s1 s2.
Proof. by intros [? _]. Qed.

Lemma compute_log_prob_fun_config s1 s2 :
  same_config s1 s2 -> compute_log_prob_fun s1 = compute_log_prob_fun s2.
Proof.
  intros (_ & _ & Hp & Hv & Hb & _ & _ & Hf). unfold compute_log_prob_fun.
  by rewrite Hp, Hv, Hb, Hf.
Qed.

Lemma agree_compute_log_prob P c :
  (forall s1 s2, P s1 s2 -> same_config s1 s2) ->
  agree P P any (compute_log_prob c).
Proof.
  intros HP s1 s2 H. unfold compute_log_prob.
  rewrite (compute_log_prob_fun_config s1 s2 (HP _ _ H)).
  destruct (compute_log_prob_fun s2 c). simpl. by split_and!.
Qed.

Lemma agree_set_random_state_snapshot r :
  agree same_config same_stream any (set_random_state (RSnap r)).
Proof. intros s1 s2 H. simpl. split_and!; try done. Qed.

Lemma agree_set_random_state st :
  agree same_stream same_stream any (set_random_state st).
Proof.
  intros s1 s2 [H Hr]. unfold set_random_state. rewrite Hr.
  simpl. by split_and!.
Qed.

Lemma same_stream_set_backend s1 s2 g1 g2 :
  same_stream s1 s2 -> same_stream (set_backend g1 s1) (set_backend g2 s2).
Proof. done. Qed.

Lemma agree_backend_grow n ex :
  agree same_stream same_stream any (backend_grow n ex).
Proof.
  unfold backend_grow.
  eapply agree_bind; [apply agree_emit|]. intros _ _.
  apply agree_modify. intros s1 s2 H. by apply same_stream_set_backend.
Qed.

Lemma agree_backend_save_step (st : St) mask :
  agree same_stream same_stream any (backend_save_step st mask).
Proof.
  unfold backend_save_step.
  eapply agree_bind; [apply agree_emit|]. intros _ _.
  apply agree_modify. intros s1 s2 H. by apply same_stream_set_backend.
Qed.

Lemma agree_choose_move : agree same_stream same_stream any choose_move.
Proof.
  intros s1 s2 [(Hm & Hw & Hrest) Hr]. unfold choose_move.
  rewrite Hm, Hw, Hr.
  destruct (choice (_random s2) (_moves s2) (_weights s2)) as [[e|[i m]] r];
    simpl; split_and!; try done;
    intros a _; (split; [done|]); by split_and!.
Qed.

Lemma agree_call_propose map_fn i m (st : St) :
  agree same_stream same_stream any (call_propose map_fn i m st).
Proof.
  intros s1 s2 [Hc Hr]. unfold call_propose.
  rewrite (compute_log_prob_fun_config s1 s2 Hc), Hr.
  destruct Hc as (Hm & Hw & Hp & Hv & Hb & Hd & Hn & Hf). rewrite Hf, Hm.
  destruct (propose m _ st) as [[[ev r] m'] [e|[st' mask]]];
    simpl; split_and!; try done;
    intros a _; (split; [done|]); by split_and!.
Qed.

Lemma agree_call_tune i m (st : St) mask :
  agree same_stream same_stream any (call_tune i m st mask).
Proof.
  unfold call_tune.
  eapply agree_bind; [apply agree_emit|]. intros _ _.
  apply agree_modify.
  intros s1 s2 [(Hm & Hw & Hp & Hv & Hb & Hd & Hn & Hf) Hr].
  split; [|done]. unfold same_config. simpl. rewrite Hm. by split_and!.
Qed.

Lemma agree_sample_round map_fn tune store k st :
  agree same_stream same_stream any (sample_round map_fn tune store k st).
Proof.
  unfold sample_round. destruct st as [state i].
  eapply agree_bind; [apply agree_choose_move|]. intros im _.
  eapply agree_bind; [apply agree_call_propose|]. intros r _.
  eapply agree_bind.
  { apply agree_gets. intros s1 s2 [_ Hr]. unfold get_random_state.
    by rewrite Hr. }
  intros snap _.
  eapply agree_bind; [apply agree_emit|]. intros _ _.
  eapply agree_bind; [apply agree_when, agree_call_tune|]. intros _ _.
  eapply agree_bind; [apply agree_when, agree_backend_save_step|]. intros _ _.
  eapply agree_bind; [apply agree_emit|]. intros _ _.
  by apply agree_ret.
Qed.

Lemma agree_repeat_rounds n body (st : St * Z) :
  (forall st, agree same_stream same_stream any (body st)) ->
  agree same_stream same_stream any (repeat_rounds n body st).
Proof.
  intros Hbody. revert st. induction n as [|n IH]; intros st; simpl.
  - by apply agree_ret.
  - eapply agree_bind; [apply Hbody|]. intros st' _. apply IH.
Qed.

Lemma agree_sample_loop n k body (st : St * Z) :
  (forall st, agree same_stream same_stream any (body st)) ->
  agree same_stream same_stream any (sample_loop n k body st).
Proof.
  intros Hbody. revert st. induction n as [|n IH]; intros st; simpl.
  - by apply agree_ret.
  - eapply agree_bind; [by apply agree_repeat_rounds|]. intros st' _.
    eapply agree_bind; [apply agree_emit|]. intros _ _.
    eapply agree_bind; [apply IH|]. intros rest _.
    by apply agree_ret.
Qed.

Lemma agree_sample_steps (state : St) iterations tune thin_by thin store :
  agree same_stream same_stream any
    (sample_steps state iterations tune thin_by thin store).
Proof.
  unfold sample_steps.
  eapply agree_bind with (V := any).
  - unfold sample_thinning, deprecation_warning.
    destruct thin as [t|].
    + eapply agree_bind; [apply agree_emit|]. intros _ _.
      eapply agree_bind; [apply agree_lift|]. intros z _.
      destruct (z <=? 0); [apply agree_raise|].
      eapply agree_bind; [apply agree_lift|]. intros n _.
      eapply agree_bind; [apply agree_when, agree_backend_grow|]. intros _ _.
      by apply agree_ret.
    + eapply agree_bind; [apply agree_lift|]. intros z _.
      destruct (z <=? 0); [apply agree_raise|].
      eapply agree_bind; [apply agree_lift|]. intros n _.
      eapply agree_bind; [apply agree_when, agree_backend_grow|]. intros _ _.
      by apply agree_ret.
  - intros [[ys cs] n] _. unfold sample_run.
    eapply agree_bind.
    { apply agree_gets. intros s1 s2 [(_ & _ & Hp & _) _]. by rewrite Hp. }
    intros map_fn _. apply agree_sample_loop. intros st.
    apply agree_sample_round.
Qed.

Lemma agree_sample_initial_state init lp0 rs0 b0 skip r :
  initial_snapshot init rs0 = RSnap r ->
  agree same_config same_stream any
    (sample_initial_state init lp0 rs0 b0 skip).
Proof.
  intros Hsnap. unfold sample_initial_state. cbv zeta.
  eapply agree_bind.
  { apply agree_gets. by intros s1 s2 (_ & _ & _ & _ & _ & _ & Hn & _). }
  intros nw _. eapply agree_bind.
  { apply agree_gets. by intros s1 s2 (_ & _ & _ & _ & _ & Hd & _). }
  intros nd _. destruct (negb _); [apply agree_raise|].
  eapply agree_bind; [apply agree_lift|]. intros ill _.
  eapply agree_bind.
  { apply agree_when. unfold runtime_warning. apply agree_emit. }
  intros _ _.
  eapply agree_bind with (V := fun st : St => random_state st = RSnap r).
  { unfold initial_snapshot in Hsnap. destruct rs0 as [r0|].
    - eapply agree_bind; [apply agree_emit|]. intros _ _.
      by apply agree_ret.
    - by apply agree_ret. }
  intros st ->.
  eapply agree_bind; [apply agree_set_random_state_snapshot|]. intros _ _.
  eapply agree_bind with (V := any).
  { destruct lp0; [|by apply agree_ret].
    eapply agree_bind; [apply agree_emit|]. intros _ _. by apply agree_ret. }
  intros st1 _.
  eapply agree_bind with (V := any).
  { destruct b0; [|by apply agree_ret].
    eapply agree_bind; [apply agree_emit|]. intros _ _. by apply agree_ret. }
  intros st2 _.
  eapply agree_bind with (V := any).
  { destruct (log_prob st2); [by apply agree_ret|].
    eapply agree_bind.
    - apply agree_compute_log_prob. apply same_stream_config.
    - intros res _. by apply agree_ret. }
  intros st3 _.
  destruct (log_prob st3) as [lp|]; [|apply agree_raise].
  destruct (negb _); [apply agree_raise|].
  destruct (existsb isnan lp); [apply agree_raise|].
  by apply agree_ret.
Qed.

(** C2: [sample] is reproducible. Take two samplers set up alike (moves,
    weights, pool, flags, shape, log-density) whose random streams,
    backends and remembered states may differ, and an initial state that
    carries a snapshot of the stream. With the same arguments both runs
    cause the same events, so yield the same states, with the same
    coordinates, log-probabilities, blobs and snapshots, and end alike;
    after a run that returns, the two streams are in the same state. *)
Theorem sample_is_reproducible
    (s1 s2 : Sampler) init lp0 rs0 b0 iterations tune skip thin_by thin store
    progress (r : rng) :
  same_config s1 s2 ->
  initial_snapshot init rs0 = RSnap r ->
  let out1 := sample init lp0 rs0 b0 iterations tune skip thin_by thin store
                progress s1 in
  let out2 := sample init lp0 rs0 b0 iterations tune skip thin_by thin store
                progress s2 in
  fst (fst out1) = fst (fst out2)
  /\ yielded (fst (fst out1)) = yielded (fst (fst out2))
  /\ snd out1 = snd out2
  /\ (forall ys, snd out1 = inr ys ->
                 _random (snd (fst out1)) = _random (snd (fst out2))
                 /\ _moves (snd (fst out1)) = _moves (snd (fst out2))).
Proof.
  intros Hcfg Hsnap out1 out2.
  assert (agree same_config same_stream any
            (sample init lp0 rs0 b0 iterations tune skip thin_by thin store
               progress)) as Hagree.
  { unfold sample. eapply agree_bind.
    - by eapply agree_sample_initial_state.
    - intros st _. apply agree_sample_steps. }
  destruct (Hagree s1 s2 Hcfg) as (Hev & Hres & Hpost).
  subst out1 out2. split_and!; try done.
  - by rewrite Hev.
  - intros ys Hys. destruct (Hpost ys Hys) as [_ [(Hm & _) Hr]]. done.
Qed.

(** The constructor takes the ambient state of numpy's global generator
    only as the seed of the sampler's own stream: samplers built from the
    same arguments under different ambient states are set up alike. *)
Lemma init_same_config nw nd f pl mv ar kw bk1 bk2 vec bd a t l rs
    amb1 ent1 amb2 ent2 ev1 ev2 (s1 s2 : Sampler) :
  __init__ nw nd f pl mv ar kw bk1 vec bd a t l rs amb1 ent1 = (ev1, inr s1) ->
  __init__ nw nd f pl mv ar kw bk2 vec bd a t l rs amb2 ent2 = (ev2, inr s2) ->
  same_config s1 s2.
Proof.
  unfold __init__. destruct (parse_moves mv) as [e|[ms ws]]; [done|].
  intros H1 H2.
  repeat (case_match; simplify_eq/=); by repeat split.
Qed.

(** * Further properties *)

(** ** The [random_state] property, there and back *)

Lemma set_random_same (self : Sampler) : set_random (_random self) self = self.
Proof. by destruct self. Qed.

(** X1: reading the stream and assigning what was read changes nothing;
    assigning a snapshot read from another sampler makes the two streams
    equal and leaves every other attribute alone. *)
Theorem random_state_round_trip (self other : Sampler) :
  set_random_state (get_random_state self) self = ([], self, inr tt)
  /\ get_random_state
       (snd (fst (set_random_state (get_random_state other) self)))
     = get_random_state other
  /\ same_but_random self
       (snd (fst (set_random_state (get_random_state other) self))).
Proof.
  unfold get_random_state, get_state. rewrite !set_random_state_valid.
  rewrite set_random_same. simpl. split_and!; try done.
Qed.

(** ** The constructor: backend and stream *)

(** On a backend that is not initialized (a new one when none is given)
    the constructor cannot fail once the moves are parsed: the backend is
    reset to the sampler's shape and holds no step, the stream starts in
    the ambient state, and no previous state is remembered. *)
Lemma init_on_new_backend nw nd f pl mv ar kw bk vec bd a t l rs amb ent
    ms ws :
  parse_moves mv = inr (ms, ws) ->
  initialized (default Backend_new bk) = false ->
  exists (s : Sampler),
    snd (__init__ nw nd f pl mv ar kw bk vec bd a t l rs amb ent) = inr s
    /\ backend s = Backend_reset (default Backend_new bk) nw nd
    /\ shape (backend s) = (nw, nd)
    /\ iteration (backend s) = 0
    /\ _random s = amb
    /\ _previous_state s = Some None
    /\ _moves s = ms /\ _weights s = normalize ws
    /\ nwalkers s = nw /\ ndim s = nd.
Proof.
  intros Hmv Hinit. unfold __init__. rewrite Hmv. cbv zeta.
  rewrite Hinit. simpl. eexists. by split_and!.
Qed.

(** X2: an initialized backend of another shape is refused. *)
Theorem init_backend_shape_mismatch nw nd f pl mv ar kw b vec bd a t l rs amb
    ent ms ws :
  parse_moves mv = inr (ms, ws) ->
  initialized b = true ->
  shape b <> (nw, nd) ->
  snd (__init__ (Move := Move) nw nd f pl mv ar kw (Some b) vec bd a t l rs
         amb ent)
    = inl (ValueError msg_backend_shape)
  /\ kind_of (ValueError msg_backend_shape) = ShapeError.
Proof.
  intros Hmv Hinit Hshape. unfold __init__. rewrite Hmv. cbv zeta. simpl.
  rewrite Hinit. simpl. by rewrite bool_decide_eq_false_2.
Qed.

(** X3: the stream of a new sampler starts in the state [seed_of] names: the
    snapshot of an initialized backend that has one, else the ambient state
    of numpy's global generator; the state a new [RandomState()] starts in
    plays no part. A backend whose snapshot is no snapshot makes the
    constructor raise: here nothing swallows the failure of [set_state]. *)
Theorem init_seeds_the_stream nw nd f pl mv ar kw bk vec bd a t l rs amb ent :
  (forall ev (s : Sampler),
      __init__ nw nd f pl mv ar kw bk vec bd a t l rs amb ent = (ev, inr s) ->
      seed_of (default Backend_new bk) amb = RSnap (_random s))
  /\ (forall j,
        initialized (default Backend_new bk) = true ->
        backend_random_state (default Backend_new bk) = RJunk j ->
        exists e,
          snd (__init__ (Move := Move) nw nd f pl mv ar kw bk vec bd a t l rs
                 amb ent) = inl e).
Proof.
  unfold __init__, seed_of. split.
  - intros ev s. destruct (parse_moves mv) as [e|[ms ws]]; [done|]. cbv zeta.
    destruct (negb (initialized (default Backend_new bk))).
    { simpl. by intros [= _ <-]. }
    destruct (negb (bool_decide _)); [done|].
    destruct (backend_random_state (default Backend_new bk)) as [|r|j|h g];
      destruct (0 <? iteration _); try destruct (Backend_get_last_sample _);
      simpl; try done; by intros [= _ <-].
  - intros j Hinit Hjunk. destruct (parse_moves mv) as [e|[ms ws]]; [eauto|].
    cbv zeta. rewrite Hinit, Hjunk. simpl.
    destruct (negb (bool_decide _)); [eauto|].
    destruct (0 <? iteration _); try destruct (Backend_get_last_sample _);
      simpl; eauto.
Qed.

(** ** The constructor: the move schedule *)

Lemma init_moves_weights nw nd f pl mv ar kw bk vec bd a t l rs amb ent ev
    (s : Sampler) ms ws :
  parse_moves mv = inr (ms, ws) ->
  __init__ nw nd f pl mv ar kw bk vec bd a t l rs amb ent = (ev, inr s) ->
  _moves s = ms /\ _weights s = normalize ws.
Proof.
  intros Hmv. unfold __init__. rewrite Hmv. cbv zeta.
  intros H. repeat (case_match; simplify_eq/=); done.
Qed.

Lemma np_sum_finite qs : np_sum (map Finite qs) = Finite (qsum qs).
Proof.
  induction qs as [|q qs IH]; [done|].
  unfold np_sum in *. simpl. by rewrite IH.
Qed.

Lemma Qis_zero_false q : ~ (q == 0)%Q -> Qis_zero q = false.
Proof.
  intros Hq. unfold Qis_zero. apply Z.eqb_neq. intros H0. apply Hq.
  unfold Qeq. simpl. lia.
Qed.

Lemma qsum_div qs S :
  ~ (S == 0)%Q -> (qsum (map (fun q => q / S) qs) == qsum qs / S)%Q.
Proof.
  intros HS. induction qs as [|q qs IH]; simpl.
  - unfold Qdiv. by rewrite Qmult_0_l.
  - rewrite IH. by field.
Qed.

Lemma normalize_finite qs :
  ~ (qsum qs == 0)%Q ->
  normalize (map Finite qs) = map (fun q => Finite (q / qsum qs)) qs.
Proof.
  intros HS. unfold normalize. rewrite np_sum_finite, map_map.
  apply map_ext. intros q. simpl. by rewrite Qis_zero_false.
Qed.

Lemma is_one_Qeq q : (q == 1)%Q -> is_one (Finite q) = true.
Proof. unfold Qeq. simpl. intros H. apply Z.eqb_eq. lia. Qed.

Lemma Qdiv_not_negative q S :
  (0 <= q)%Q -> (0 < S)%Q -> is_negative (Finite (q / S)) = false.
Proof.
  intros Hq HS. simpl. apply Z.ltb_ge.
  assert (0 <= q / S)%Q as H.
  { apply Qle_shift_div_l; [done|]. by rewrite Qmult_0_l. }
  unfold Qle in H. simpl in H. lia.
Qed.

(** Nonnegative weights with a positive sum, divided by their sum, are a
    probability vector as [choice] wants it. *)
Lemma normalize_schedule_ok (s : Sampler) qs :
  _moves s <> [] ->
  length qs = length (_moves s) ->
  Forall (fun q => 0 <= q)%Q qs ->
  (0 < qsum qs)%Q ->
  _weights s = normalize (map Finite qs) ->
  schedule_ok s /\ _weights s = map (fun q => Finite (q / qsum qs)) qs.
Proof.
  intros Hne Hlen Hpos Hsum Hw.
  assert (~ (qsum qs == 0)%Q) as Hnz.
  { intros H0. rewrite H0 in Hsum. by apply Qlt_irrefl in Hsum. }
  rewrite (normalize_finite _ Hnz) in Hw. split; [|done].
  unfold schedule_ok. rewrite Hw.
  replace (map (fun q : Q => Finite (q / qsum qs)%Q) qs)
    with (map Finite (map (fun q : Q => (q / qsum qs)%Q) qs))
    by (by rewrite map_map).
  rewrite np_sum_finite. split_and!.
  - done.
  - by rewrite !length_map.
  - done.
  - rewrite map_map. clear Hw Hlen Hnz. revert Hsum.
    generalize (qsum qs). intros S HS.
    induction Hpos as [|q qs' Hq _ IH]; [done|]. simpl in *.
    apply orb_false_iff. split; [|exact IH].
    apply Z.ltb_ge. pose proof (Qdiv_not_negative q _ Hq HS) as H.
    simpl in H. by apply Z.ltb_ge in H.
  - apply is_one_Qeq. rewrite qsum_div by done. by field.
Qed.

Lemma qsum_ones n : (qsum (replicate n 1) == inject_Z (Z.of_nat n))%Q.
Proof.
  induction n as [|n IH]; [done|].
  cbn [replicate qsum foldr]. fold (qsum (replicate n 1%Q)). rewrite IH.
  rewrite Nat2Z.inj_succ. unfold Z.succ. rewrite inject_Z_plus. ring.
Qed.

(** X4: the move schedule of a new sampler. Built from a plain list of
    moves, from one move or from none, a sampler has a schedule [choice]
    accepts, every move of a list with the same weight; built from a
    weighted list with nonnegative weights of positive sum it has one
    too, with the weights [w / sum]. *)
Theorem init_normalizes_weights nw nd f pl mv ar kw bk vec bd a t l rs amb ent
    ev (s : Sampler) :
  __init__ nw nd f pl mv ar kw bk vec bd a t l rs amb ent = (ev, inr s) ->
  match mv with
  | Some (WeightedMoves mw) =>
      forall qs,
        mw.*2 = map Finite qs ->
        Forall (fun q => 0 <= q)%Q qs ->
        (0 < qsum qs)%Q ->
        schedule_ok s /\ _moves s = mw.*1
        /\ _weights s = map (fun q => Finite (q / qsum qs)) qs
  | Some (MoveList ms) =>
      schedule_ok s /\ _moves s = ms
      /\ exists w, _weights s = replicate (length ms) w
  | Some (OneMove m) => schedule_ok s /\ _moves s = [m]
  | None => schedule_ok s /\ _moves s = [StretchMove]
  end.
Proof.
  intros Hinit. destruct mv as [[m|ms|mw]|].
  - eapply init_moves_weights in Hinit as [Hm Hw]; [|reflexivity].
    split; [|done]. unfold schedule_ok. rewrite Hm, Hw. by vm_compute.
  - destruct ms as [|m0 ms']; [done|].
    eapply init_moves_weights in Hinit as [Hm Hw]; [|reflexivity].
    set (ms := m0 :: ms') in *.
    assert (replicate (length ms) (Finite 1)
            = map Finite (replicate (length ms) 1%Q)) as Hrep.
    { clear. induction (length ms); simpl; by f_equal. }
    rewrite Hrep in Hw.
    assert (0 < qsum (replicate (length ms) 1))%Q as Hsum.
    { rewrite qsum_ones. unfold Qlt. simpl. lia. }
    destruct (normalize_schedule_ok s (replicate (length ms) 1%Q)) as [Hok Hw'];
      try done.
    + by rewrite Hm.
    + by rewrite Hm, length_replicate.
    + apply Forall_forall. intros q [-> _]%elem_of_replicate. done.
    + split_and!; try done.
      exists (Finite (1 / qsum (replicate (length ms) 1%Q))).
      rewrite Hw'. clear. generalize (qsum (replicate (length ms) 1%Q)).
      intros S. induction (length ms); simpl; by f_equal.
  - intros qs Hqs Hpos Hsum. destruct mw as [|p mw'].
    { destruct qs; [|done]. by apply Qlt_irrefl in Hsum. }
    eapply init_moves_weights in Hinit as [Hm Hw]; [|reflexivity].
    set (mw := p :: mw') in *.
    rewrite Hqs in Hw.
    destruct (normalize_schedule_ok s qs) as [Hok Hw']; try done.
    + by rewrite Hm.
    + rewrite Hm. rewrite <- (length_map Finite qs), <- Hqs.
      by rewrite !length_fmap.
  - eapply init_moves_weights in Hinit as [Hm Hw]; [|reflexivity].
    split; [|done]. unfold schedule_ok. rewrite Hm, Hw. by vm_compute.
Qed.

(** ** What a run does to the sampler, step by step *)

Section Tracks.
Variable R : Sampler -> list (event (rng := rng)) -> Sampler -> Prop.
Variable store : bool.

(** [R] holds of doing nothing, composes, and holds of each primitive
    step of [sample]; of [grow] and [save_step] only when [store] is set. *)
Hypothesis R_nil : forall s, R s [] s.
Hypothesis R_app :
  forall s ev s' ev' s'', R s ev s' -> R s' ev' s'' -> R s (ev ++ ev') s''.
Hypothesis R_event :
  forall s e,
    leaves_backend e = true -> is_runtime_warning e = false -> R s [e] s.
Hypothesis R_runtime : forall s msg, R s [EvWarn "RuntimeWarning" msg] s.
Hypothesis R_random : forall s r, R s [] (set_random r s).
Hypothesis R_moves :
  forall s ms, length ms = length (_moves s) -> R s [] (set_moves ms s).
Hypothesis R_grow :
  store = true ->
  forall s n ex,
    R s [EvGrow n] (set_backend (Backend_grow (backend s) n ex) s).
Hypothesis R_save :
  store = true ->
  forall s st mask,
    R s [EvSave st mask] (set_backend (Backend_save_step (backend s) st mask) s).

Lemma tracks_ret {A} (a : A) : tracks R (ret a).
Proof. intros self. apply R_nil. Qed.
Lemma tracks_raise {A} e : tracks R (raise (A := A) e).
Proof. intros self. apply R_nil. Qed.
Lemma tracks_gets {A} (proj : Sampler -> A) : tracks R (gets proj).
Proof. intros self. apply R_nil. Qed.
Lemma tracks_lift {A} (r : exn + A) : tracks R (lift r).
Proof. intros self. apply R_nil. Qed.
Lemma tracks_emit e :
  leaves_backend e = true -> is_runtime_warning e = false ->
  tracks R (emit e).
Proof. intros He Hw self. by apply R_event. Qed.
Lemma tracks_runtime_warning msg : tracks R (runtime_warning msg).
Proof. intros self. apply R_runtime. Qed.

Lemma tracks_bind {A B} (m : M A) (k : A -> M B) :
  tracks R m -> (forall a, tracks R (k a)) -> tracks R (bind m k).
Proof.
  intros Hm Hk self. unfold bind. specialize (Hm self).
  destruct (m self) as [[ev self'] [e|a]]; [done|].
  specialize (Hk a self'). destruct (k a self') as [[ev' self''] r].
  simpl in *. by eapply R_app.
Qed.

Lemma tracks_when b m : tracks R m -> tracks R (when b m).
Proof. destruct b; [done|]. intros _. apply tracks_ret. Qed.

Lemma tracks_when_store c m :
  (store = true -> tracks R m) -> tracks R (when (store && c) m).
Proof.
  case store; simpl; intros H; [|apply tracks_ret].
  apply tracks_when. by apply H.
Qed.

Lemma R_evals s (evs : list lp_event) : R s (map EvEval evs) s.
Proof.
  induction evs as [|e evs IH]; [apply R_nil|].
  simpl. eapply (R_app _ [_]); [|exact IH]. by apply R_event.
Qed.

Lemma tracks_set_random_state st : tracks R (set_random_state st).
Proof.
  intros self. unfold set_random_state. simpl. apply R_random.
Qed.

Lemma tracks_compute_log_prob c : tracks R (compute_log_prob c).
Proof.
  intros self. unfold compute_log_prob.
  destruct (compute_log_prob_fun self c). simpl. apply R_evals.
Qed.

Lemma tracks_sample_initial_state init lp0 rs0 b0 skip :
  tracks R (sample_initial_state init lp0 rs0 b0 skip).
Proof.
  unfold sample_initial_state. cbv zeta.
  repeat first
    [ apply tracks_set_random_state | apply tracks_compute_log_prob
    | apply tracks_ret | apply tracks_raise | apply tracks_gets
    | apply tracks_lift
    | apply tracks_when | apply tracks_runtime_warning
    | apply tracks_emit; reflexivity
    | apply tracks_bind; [|intros ?]
    | progress unfold deprecation_warning
    | case_match ].
Qed.

Lemma tracks_backend_grow n ex :
  store = true -> tracks R (backend_grow n ex).
Proof.
  intros Hs self. unfold backend_grow. run_m. simpl.
  by apply R_grow.
Qed.

Lemma tracks_backend_save_step st mask :
  store = true -> tracks R (backend_save_step st mask).
Proof.
  intros Hs self. unfold backend_save_step. run_m. simpl.
  by apply R_save.
Qed.

Lemma tracks_choose_move : tracks R choose_move.
Proof.
  intros self. unfold choose_move.
  destruct (choice _ _ _) as [[e|[i m]] r]; simpl; [apply R_random|].
  eapply (R_app _ [_] _ []); [by apply R_event|apply R_random].
Qed.

Lemma tracks_call_propose map_fn i m (st : St) :
  tracks R (call_propose map_fn i m st).
Proof.
  intros self. unfold call_propose.
  destruct (propose m _ st) as [[[ev r] m'] res].
  assert (R self (EvPropose i :: map EvEval ev)
            (set_moves (<[i:=m']> (_moves self)) (set_random r self))) as H.
  { eapply (R_app _ [_]); [by apply R_event|].
    rewrite <- (app_nil_r (map EvEval ev)).
    eapply R_app; [apply R_evals|].
    rewrite <- (app_nil_l []).
    eapply R_app; [apply R_random|]. apply R_moves.
    by rewrite length_insert. }
  by destruct res as [e|[st' mask]].
Qed.

Lemma tracks_call_tune i m (st : St) mask : tracks R (call_tune i m st mask).
Proof.
  intros self. unfold call_tune. run_m. simpl.
  eapply (R_app _ [_] _ []); [by apply R_event|]. apply R_moves.
  by rewrite length_insert.
Qed.

Lemma tracks_sample_round map_fn tune k st :
  tracks R (sample_round map_fn tune store k st).
Proof.
  unfold sample_round. destruct st as [state i].
  apply tracks_bind; [apply tracks_choose_move|]. intros im.
  apply tracks_bind; [apply tracks_call_propose|]. intros r.
  apply tracks_bind; [apply tracks_gets|]. intros snap.
  apply tracks_bind; [by apply tracks_emit|]. intros _.
  apply tracks_bind; [apply tracks_when, tracks_call_tune|]. intros _.
  apply tracks_bind.
  { apply tracks_when_store. intros Hs. by apply tracks_backend_save_step. }
  intros _. apply tracks_bind; [by apply tracks_emit|]. intros _.
  apply tracks_ret.
Qed.

Lemma tracks_repeat_rounds n body (st : St * Z) :
  (forall st, tracks R (body st)) -> tracks R (repeat_rounds n body st).
Proof.
  intros Hbody. revert st. induction n as [|n IH]; intros st; simpl.
  - apply tracks_ret.
  - apply tracks_bind; [apply Hbody|apply IH].
Qed.

Lemma tracks_sample_loop n k body (st : St * Z) :
  (forall st, tracks R (body st)) -> tracks R (sample_loop n k body st).
Proof.
  intros Hbody. revert st. induction n as [|n IH]; intros st; simpl.
  - apply tracks_ret.
  - apply tracks_bind; [by apply tracks_repeat_rounds|]. intros st'.
    apply tracks_bind; [by apply tracks_emit|]. intros _.
    apply tracks_bind; [apply IH|]. intros rest. apply tracks_ret.
Qed.

Lemma tracks_sample_steps (state : St) iterations tune thin_by thin :
  tracks R (sample_steps state iterations tune thin_by thin store).
Proof.
  unfold sample_steps. apply tracks_bind.
  - unfold sample_thinning, deprecation_warning.
    destruct thin as [t|];
      repeat first
        [ apply tracks_ret | apply tracks_raise | apply tracks_lift
        | apply tracks_emit; reflexivity
        | apply tracks_bind; [|intros ?]
        | case_match ];
      rewrite <- (andb_true_r store); apply tracks_when_store;
      intros Hs; by apply tracks_backend_grow.
  - intros [[ys cs] n]. unfold sample_run.
    apply tracks_bind; [apply tracks_gets|]. intros map_fn.
    apply tracks_sample_loop. intros st. apply tracks_sample_round.
Qed.

Lemma tracks_sample init lp0 rs0 b0 iterations tune skip thin_by thin progress :
  tracks R
    (sample init lp0 rs0 b0 iterations tune skip thin_by thin store progress).
Proof.
  unfold sample. apply tracks_bind.
  - apply tracks_sample_initial_state.
  - intros st. apply tracks_sample_steps.
Qed.

End Tracks.

Lemma frame_refl (s : Sampler) : frame s s.
Proof. by repeat split. Qed.

Lemma frame_trans (s s' s'' : Sampler) : frame s s' -> frame s' s'' -> frame s s''.
Proof.
  unfold frame. intros (?&?&?&?&?&?&?&?&?) (?&?&?&?&?&?&?&?&?).
  split_and!; congruence.
Qed.

Lemma replay_app b (ev ev' : list (event (rng := rng))) :
  replay b (ev ++ ev') = replay (replay b ev) ev'.
Proof. apply foldl_app. Qed.

Lemma replay_leaves b (ev : list (event (rng := rng))) :
  Forall (fun e => leaves_backend e = true) ev -> replay b ev = b.
Proof.
  induction 1 as [|e ev He _ IH]; [done|].
  unfold replay in *. simpl. rewrite <- IH at 2. by destruct e.
Qed.

Lemma saved_app (ev ev' : list (event (rng := rng))) :
  saved (ev ++ ev') = saved ev ++ saved ev'.
Proof. apply omap_app. Qed.

Lemma saved_eval (ev : list lp_event) :
  saved (map (EvEval (rng := rng)) ev) = [].
Proof. induction ev; simpl; auto. Qed.

Lemma replay_chain b (ev : list (event (rng := rng))) :
  chain (replay b ev) = chain b ++ saved ev
  /\ iteration (replay b ev) = iteration b + Z.of_nat (length (saved ev))
  /\ shape (replay b ev) = shape b
  /\ initialized (replay b ev) = initialized b.
Proof.
  revert b. induction ev as [|e ev IH]; intros b.
  - simpl. rewrite app_nil_r. split_and!; try done. lia.
  - change (replay b (e :: ev)) with (replay (apply_event b e) ev).
    destruct (IH (apply_event b e)) as (-> & -> & -> & ->).
    destruct e; simpl; split_and!; try done; try lia.
    by rewrite <- app_assoc.
Qed.

(** What [sample] may change, and what the backend is after it. *)
Lemma sample_frame_replay (self : Sampler) init lp0 rs0 b0 iterations tune skip
    thin_by thin store progress :
  let out :=
    sample init lp0 rs0 b0 iterations tune skip thin_by thin store progress
      self in
  frame self (snd (fst out))
  /\ backend (snd (fst out)) = replay (backend self) (fst (fst out))
  /\ (store = false ->
      Forall (fun e => leaves_backend e = true) (fst (fst out))
      /\ backend (snd (fst out)) = backend self).
Proof.
  pose proof
    (tracks_sample
       (fun s ev s' =>
          frame s s' /\ backend s' = replay (backend s) ev
          /\ (store = false -> Forall (fun e => leaves_backend e = true) ev))
       store) as H.
  cbv zeta.
  destruct (H) with (self := self) (init := init) (lp0 := lp0) (rs0 := rs0)
    (b0 := b0) (iterations := iterations) (tune := tune) (skip := skip)
    (thin_by := thin_by) (thin := thin) (progress := progress)
    as (Hf & Hr & Hl).
  - intros s. split_and!; [apply frame_refl|done|by intros _].
  - intros s ev s' ev' s'' (Hf1 & Hr1 & Hl1) (Hf2 & Hr2 & Hl2).
    split_and!; [by eapply frame_trans|by rewrite replay_app, <- Hr1|].
    intros Hs. apply Forall_app. auto.
  - intros s e He _.
    split_and!; [apply frame_refl| |by intros _; constructor].
    symmetry. apply replay_leaves. by constructor.
  - intros s msg. by split_and!; [apply frame_refl| |intros _; constructor].
  - intros s r. by split_and!; [repeat split|done|intros _].
  - intros s ms Hlen. by split_and!; [repeat split|done|intros _].
  - intros Hs s n ex. split_and!; [by repeat split|done|congruence].
  - intros Hs s st mask. split_and!; [by repeat split|done|congruence].
  - split_and!; [done|done|]. intros Hs. split; [auto|].
    rewrite Hr. apply replay_leaves. auto.
Qed.

(** X5: whatever its arguments and its outcome, [sample] leaves the
    weights, the pool, the flags, the shape, the log-density, the
    remembered state and the number of moves of the sampler as they were;
    the backend after it is the backend before it with the [grow] and
    [save_step] calls of the trace applied; and with [store] unset there
    is no such call, so the backend is untouched. *)
Theorem sample_leaves_the_configuration (self : Sampler) init lp0 rs0 b0 iterations tune skip
    thin_by thin store progress :
  let out :=
    sample init lp0 rs0 b0 iterations tune skip thin_by thin store progress
      self in
  frame self (snd (fst out))
  /\ backend (snd (fst out)) = replay (backend self) (fst (fst out))
  /\ (store = false ->
      Forall (fun e => leaves_backend e = true) (fst (fst out))
      /\ backend (snd (fst out)) = backend self).
Proof. apply sample_frame_replay. Qed.

(** ** What is saved and what is yielded *)

Lemma succ_mod k i :
  0 < k -> (i + 1) mod k = if i mod k + 1 =? k then 0 else i mod k + 1.
Proof.
  intros Hk. pose proof (Z.div_mod i k ltac:(lia)) as Hd.
  pose proof (Z.mod_pos_bound i k Hk) as Hb.
  destruct (Z.eqb_spec (i mod k + 1) k) as [He|He]; symmetry.
  - apply (Z.mod_unique _ _ (i / k + 1)); lia.
  - apply (Z.mod_unique _ _ (i / k)); lia.
Qed.

Lemma succ_div k i :
  0 < k -> (i + 1) / k = i / k + (if (i + 1) mod k =? 0 then 1 else 0).
Proof.
  intros Hk. pose proof (Z.div_mod i k ltac:(lia)) as Hd.
  pose proof (Z.mod_pos_bound i k Hk) as Hb.
  rewrite (succ_mod k i Hk).
  destruct (Z.eqb_spec (i mod k + 1) k) as [He|He]; symmetry; simpl.
  - apply (Z.div_unique _ _ _ 0); lia.
  - assert ((i mod k + 1 =? 0) = false) as -> by lia.
    apply (Z.div_unique _ _ _ (i mod k + 1)); lia.
Qed.

(** One round, whatever its outcome: nothing is yielded, and the state is
    saved exactly when the round ends and is a checkpoint. *)
Lemma sample_round_saved map_fn tune store k (st : St) i (self : Sampler) :
  let out := sample_round map_fn tune store k (st, i) self in
  yielded (fst (fst out)) = []
  /\ match snd out with
     | inr (st', i') =>
         i' = i + 1
         /\ saved (fst (fst out)) =
              if store && ((i + 1) mod k =? 0) then [st'] else []
     | inl _ => saved (fst (fst out)) = []
     end.
Proof.
  cbv zeta.
  destruct (sample_round map_fn tune store k (st, i) self)
    as [[ev0 self'] res] eqn:Hrun.
  unfold sample_round, choose_move in Hrun. unfold bind at 1 in Hrun.
  destruct (choice _ _ _) as [[e|[j m]] r]; cbn [fst snd] in Hrun;
    [by simplify_eq|].
  unfold bind at 1, call_propose in Hrun.
  destruct (propose m _ st) as [[[ev r1] m'] [e|[st' mask]]];
    cbn [fst snd] in Hrun.
  { simplify_eq/=. by rewrite yielded_eval, saved_eval. }
  unfold call_tune in Hrun. run_m.
  destruct tune, store, ((i + 1) mod k =? 0); simplify_eq/=;
    rewrite ?yielded_app, ?saved_app, ?yielded_eval, ?saved_eval; by simpl.
Qed.

(** The rounds from one checkpoint towards the next. *)
Lemma repeat_rounds_saved map_fn tune k n (st : St) i (self : Sampler) :
  0 < k -> i mod k + Z.of_nat n <= k ->
  let out := repeat_rounds n (sample_round map_fn tune true k) (st, i) self in
  yielded (fst (fst out)) = []
  /\ match snd out with
     | inr (st', i') =>
         i' = i + Z.of_nat n
         /\ saved (fst (fst out)) =
              if i mod k + Z.of_nat n =? k then [st'] else []
     | inl _ => saved (fst (fst out)) = []
     end.
Proof.
  intros Hk. revert st i self. induction n as [|n IH]; intros st i self Hn.
  - cbn [repeat_rounds]. unfold ret. cbn [fst snd].
    change (Z.of_nat 0) with 0. rewrite !Z.add_0_r.
    pose proof (Z.mod_pos_bound i k Hk).
    assert ((i mod k =? k) = false) as -> by lia.
    by split_and!.
  - cbn [repeat_rounds]. cbv zeta. unfold bind.
    pose proof (sample_round_saved map_fn tune true k st i self) as Hr.
    cbv zeta in Hr.
    destruct (sample_round _ _ _ _ _ self) as [[ev1 self1] [e|[st1 i1]]];
      cbn [fst snd] in *; [done|].
    destruct Hr as (Hy1 & -> & Hs1).
    rewrite (succ_mod k i Hk) in Hs1.
    destruct (Z.eqb_spec (i mod k + 1) k) as [He|He].
    + assert (n = 0%nat) as -> by lia. simpl in *.
      rewrite !app_nil_r. change (Z.of_nat 1) with 1.
      assert ((i mod k + 1 =? k) = true) as -> by lia.
      split_and!; try done.
    + assert ((i mod k + 1 =? 0) = false) as Hz
        by (pose proof (Z.mod_pos_bound i k Hk); lia).
      rewrite Hz in Hs1. simpl in Hs1.
      assert ((i + 1) mod k = i mod k + 1) as Hm.
      { rewrite (succ_mod k i Hk).
        by destruct (Z.eqb_spec (i mod k + 1) k). }
      specialize (IH st1 (i + 1) self1). rewrite Hm in IH.
      destruct IH as (Hy2 & Hres); [lia|].
      destruct (repeat_rounds _ _ _ self1) as [[ev2 self2] [e|[st2 i2]]];
        cbn [fst snd] in *;
        rewrite yielded_app, saved_app, Hy1, Hs1, Hy2; simpl.
      * done.
      * destruct Hres as (-> & ->). split_and!; [done|lia|].
        replace (i mod k + Z.of_nat (S n)) with (i mod k + 1 + Z.of_nat n)
          by lia.
        done.
Qed.

(** Under [thin_by = k] with [store] set, every state yielded has just
    been saved, and nothing else is saved. *)
Lemma sample_loop_saved map_fn tune k n b (st : St) (self : Sampler) :
  1 <= k ->
  let out :=
    sample_loop n (Z.to_nat k) (sample_round map_fn tune true k) (st, b * k)
      self in
  saved (fst (fst out)) = yielded (fst (fst out))
  /\ forall ys, snd out = inr ys -> ys = yielded (fst (fst out)).
Proof.
  intros Hk. revert b st self. induction n as [|n IH]; intros b st self.
  - by split; [|intros ys [= <-]].
  - cbv zeta.
    destruct (sample_loop (S n) _ _ _ self) as [[ev self'] res] eqn:Hrun.
    cbn [sample_loop] in Hrun. unfold bind at 1 in Hrun.
    pose proof (repeat_rounds_saved map_fn tune k (Z.to_nat k) st (b * k) self)
      as Hr.
    rewrite Z_mod_mult in Hr. cbv zeta in Hr.
    destruct Hr as (Hy1 & Hres); [lia|lia|].
    destruct (repeat_rounds _ _ _ self) as [[ev1 self1] [e|[st1 i1]]];
      cbn [fst snd] in *; [simplify_eq; by rewrite Hy1, Hres|].
    destruct Hres as (-> & Hs1).
    assert ((0 + Z.of_nat (Z.to_nat k) =? k) = true) as Hz
      by (apply Z.eqb_eq; lia).
    rewrite Hz in Hs1.
    replace (b * k + Z.of_nat (Z.to_nat k)) with ((b + 1) * k) in Hrun by lia.
    specialize (IH (b + 1) st1 self1). cbv zeta in IH.
    destruct IH as (Hs2 & Hys).
    run_m.
    destruct (sample_loop _ _ _ _ self1) as [[ev2 self2] [e|ys]];
      simplify_eq/=;
      rewrite !yielded_app, !saved_app, Hy1, Hs1; simpl;
      rewrite ?app_nil_r, Hs2; (split; [done|]); [done|].
    intros ? [= <-]. f_equal. by apply Hys.
Qed.

Lemma skeleton_saved (ev : list (event (rng := rng))) :
  skeleton ev = [] -> saved ev = [].
Proof.
  induction ev as [|e ev IH]; [done|].
  unfold skeleton, saved in *. simpl.
  destruct e; simpl; try done; auto.
Qed.

Lemma sample_steps_saved (state : St) iterations tune thin_by (self : Sampler) :
  let out := sample_steps state iterations tune thin_by None true self in
  saved (fst (fst out)) = yielded (fst (fst out))
  /\ forall ys, snd out = inr ys -> ys = yielded (fst (fst out)).
Proof.
  cbv zeta. destruct (py_int thin_by) as [e|z] eqn:Hz.
  - unfold sample_steps, sample_thinning. run_m. by rewrite Hz.
  - rewrite (sample_steps_thin_by _ _ _ _ _ z _ Hz).
    destruct (z <=? 0) eqn:Hpos; [done|].
    destruct (py_int iterations) as [e|n]; run_m; [done|]. simpl.
    unfold sample_run. run_m.
    pose proof (sample_loop_saved (select_map (pool self)) tune z (Z.to_nat n)
                  0 state
                  (set_backend (Backend_grow (backend self) n (blobs state)) self)
                  ltac:(lia)) as H.
    cbv zeta in H. rewrite Z.mul_0_l in H. simpl in H. simpl.
    destruct (sample_loop _ _ _ _ _) as [[ev self'] r]. simpl in *.
    by destruct r.
Qed.

(** X6: with [store] set and the [thin] argument left out, whatever the
    other arguments and the outcome of [sample]: the states handed to
    [save_step] are exactly the states yielded, in order; the chain of the
    backend is the old chain followed by them, its iteration count has
    advanced by their number, and a run that ends returns them. *)
Theorem sample_stores_what_it_yields (self : Sampler) init lp0 rs0 b0
    iterations tune skip thin_by progress :
  let out :=
    sample init lp0 rs0 b0 iterations tune skip thin_by None true progress
      self in
  saved (fst (fst out)) = yielded (fst (fst out))
  /\ chain (backend (snd (fst out))) =
       chain (backend self) ++ yielded (fst (fst out))
  /\ stored (snd (fst out)) =
       stored self + Z.of_nat (length (yielded (fst (fst out))))
  /\ forall ys, snd out = inr ys -> ys = yielded (fst (fst out)).
Proof.
  cbv zeta.
  destruct (sample_frame_replay self init lp0 rs0 b0 iterations tune skip thin_by
              None true progress) as (_ & Hr & _).
  destruct (replay_chain (backend self)
              (fst (fst (sample init lp0 rs0 b0 iterations tune skip thin_by
                           None true progress self))))
    as (Hc & Hi & _).
  unfold stored. rewrite Hr, Hc, Hi.
  assert (saved (fst (fst (sample init lp0 rs0 b0 iterations tune skip thin_by
                             None true progress self)))
          = yielded (fst (fst (sample init lp0 rs0 b0 iterations tune skip
                                 thin_by None true progress self)))
          /\ forall ys,
               snd (sample init lp0 rs0 b0 iterations tune skip thin_by None
                      true progress self) = inr ys ->
               ys = yielded (fst (fst (sample init lp0 rs0 b0 iterations tune
                                         skip thin_by None true progress self))))
    as (Hs & Hys).
  { unfold sample, bind.
    pose proof (sample_initial_state_silent init lp0 rs0 b0 skip self) as Hsil.
    destruct (sample_initial_state init lp0 rs0 b0 skip self)
      as [[ev0 self0] [e|state]]; simpl in Hsil; cbn [fst snd].
    { by rewrite (skeleton_saved _ Hsil), (skeleton_yielded _ Hsil). }
    destruct (sample_steps_saved state iterations tune thin_by self0)
      as (Hs & Hys).
    destruct (sample_steps _ _ _ _ _ _ self0) as [[ev self'] r].
    cbn [fst snd] in *.
    rewrite saved_app, yielded_app, (skeleton_saved _ Hsil),
      (skeleton_yielded _ Hsil). simpl. by rewrite Hs. }
  by rewrite Hs.
Qed.

Lemma sample_loop_keeps_grown map_fn tune store k n y (st : St * Z)
    (self : Sampler) :
  grown (backend (snd (fst (sample_loop n y (sample_round map_fn tune store k)
                              st self))))
  = grown (backend self).
Proof.
  apply (tracks_sample_loop
           (fun s _ s' => grown (backend s') = grown (backend s)));
    try (intros; simpl in *; congruence).
  intros st'.
  apply (tracks_sample_round
           (fun s _ s' => grown (backend s') = grown (backend s)) store);
    intros; simpl in *; congruence.
Qed.

(** ** The deprecated [thin] argument *)

Section Runs.
(** [choice] draws an index of its probability vector. *)
Hypothesis draw_in_range :
  forall (r : rng) (p : list npfloat),
    p <> [] -> (fst (rng_draw r p) < length p)%nat.
Variable good_move : Move -> Prop.
Variable good_state : St -> Prop.

Lemma round_ready_start (self self0 : Sampler) (state : St) (store : bool) n
    blob :
  schedule_ok self ->
  proposals_return good_move good_state self ->
  Forall good_move (_moves self) ->
  good_state state ->
  same_but_random self self0 ->
  let self1 :=
    if store then set_backend (Backend_grow (backend self0) n blob) self0
    else self0 in
  round_ready good_move good_state (select_map (pool self1)) self1 state
  /\ stored self1 = stored self.
Proof.
  intros Hok Hprop Hmoves Hstate
    (Hm & Hw & Hpool & Hvec & Hdt & _ & _ & Hb & _ & Hlp).
  cbv zeta. split; [split_and!|].
  - eapply schedule_ok_frame; [| |exact Hok]; destruct store; simpl;
      congruence.
  - eapply (proposals_return_frame good_move good_state self);
      [..|exact Hprop]; destruct store; simpl; congruence.
  - destruct store; simpl; by rewrite Hm.
  - done.
  - done.
  - unfold stored. destruct store; simpl; by rewrite Hb.
Qed.


(** C1: with [iterations = n >= 1] and [thin_by = k >= 1], on a sampler
    whose schedule [choice] accepts and whose moves propose without
    raising, and an initial state that passes the checks, the generator
    runs to its end and its trace is [n] blocks, each of [k] rounds (a
    draw, a proposal, a snapshot each), with the checkpoint at the end of
    the [k]-th round when [store] is set, and then the yield. So there
    are [n * k] rounds, [n] states yielded and, with [store], [n] calls
    of [save_step], after which the backend holds [n] more steps. The
    snapshot of a round is the stream as the proposal has left it, put
    into the state: every state yielded carries one, that of the last
    is the stream the sampler is left with, and with [store] the states
    handed to [save_step] are the states yielded, snapshot included. *)
Theorem sample_rounds_yields_checkpoints
    (self self0 : Sampler) init lp0 rs0 b0 tune skip store progress
    (n k : Z) ev0 (state : St) :
  schedule_ok self ->
  proposals_return good_move good_state self ->
  Forall good_move (_moves self) ->
  sample_initial_state init lp0 rs0 b0 skip self = (ev0, self0, inr state) ->
  good_state state ->
  1 <= n -> 1 <= k ->
  exists ev self' ys,
    sample init lp0 rs0 b0 (PyInt n) tune skip (PyInt k) None store progress
      self = (ev, self', inr ys)
    /\ skeleton ev =
         concat (replicate (Z.to_nat n) (block_skeleton store (Z.to_nat k)))
    /\ yielded ev = ys
    /\ Z.of_nat (length ys) = n
    /\ Z.of_nat (count_token TChoice (skeleton ev)) = n * k
    /\ Z.of_nat (count_token TPropose (skeleton ev)) = n * k
    /\ Z.of_nat (count_token TSnapshot (skeleton ev)) = n * k
    /\ Z.of_nat (count_token TYield (skeleton ev)) = n
    /\ Z.of_nat (count_token TSave (skeleton ev)) = (if store then n else 0)
    /\ stored self' = stored self + (if store then n else 0)
    /\ Forall (fun y => exists r, random_state y = RSnap r) ys
    /\ (exists y, last ys = Some y /\ random_state y = RSnap (_random self'))
    /\ (store = true -> saved ev = ys).
Proof.
  intros Hok Hprop Hmoves Hinit Hstate Hn Hk.
  pose proof (sample_initial_state_keeps init lp0 rs0 b0 skip self) as Hkeep.
  pose proof (sample_initial_state_silent init lp0 rs0 b0 skip self) as Hsil.
  rewrite Hinit in Hkeep, Hsil. simpl in Hkeep, Hsil.
  rewrite (sample_continues_after_initial_state _ _ _ _ _ _ _ _ _ _ _ _ _ _ _
             Hinit).
  rewrite (sample_steps_thin_by state (PyInt n) tune (PyInt k) store k self0
             eq_refl).
  assert ((k <=? 0) = false) as -> by lia.
  destruct (round_ready_start self self0 state store n (blobs state) Hok Hprop
              Hmoves Hstate Hkeep) as [Hok1 Hst1].
  set (self1 := if store
                then set_backend (Backend_grow (backend self0) n (blobs state)) self0
                else self0) in *.
  destruct (sample_loop_ok draw_in_range good_move good_state
              (select_map (pool self1)) tune store k (Z.to_nat n)
              0 state self1 Hk Hok1)
    as (ev & self' & ys & Hrun & Hsk & Hy & Hlen & _ & Hall & Hlast & Hst).
  rewrite Z.mul_0_l in Hrun.
  assert (store = true -> saved ev = ys) as Hsaved.
  { intros Hs. rewrite Hs in Hrun.
    pose proof (sample_loop_saved (select_map (pool self1)) tune k (Z.to_nat n)
                  0 state self1 Hk) as H.
    cbv zeta in H. rewrite Z.mul_0_l, Hrun in H. simpl in H.
    by rewrite (proj1 H). }
  assert (exists evg,
             bind (lift (py_int (PyInt n))) (fun i =>
             bind (when store (backend_grow i (blobs state))) (fun _ =>
             sample_run state (k, k, i) tune store)) self0
             = (evg ++ ev, self', inr ys)
             /\ skeleton evg = [] /\ saved evg = [])
    as (evg & -> & Hg & Hgs).
  { unfold sample_run. run_m. simpl. subst self1.
    destruct store; simpl in *; rewrite Hrun.
    - by exists [EvGrow n].
    - by exists []. }
  exists (ev0 ++ evg ++ ev), self', ys.
  assert (skeleton (ev0 ++ evg ++ ev)
          = concat (replicate (Z.to_nat n) (block_skeleton store (Z.to_nat k))))
    as Hskel by (by rewrite !skeleton_app, Hsil, Hg, Hsk).
  rewrite Hskel in *. rewrite Hsk in Hst.
  rewrite !count_token_concat_replicate in *.
  rewrite !count_token_block in * by lia.
  split_and!; try done; try lia.
  - rewrite !yielded_app, Hy.
    by rewrite (skeleton_yielded _ Hsil), (skeleton_yielded _ Hg).
  - destruct store; lia.
  - rewrite Hst, Hst1. destruct store; lia.
  - destruct ys as [|y0 ys'] eqn:Hys using rev_ind; [simpl in Hlen; lia|].
    exists y0. rewrite last_snoc. split; [done|].
    rewrite <- Hlast by (right; lia). by rewrite last_snoc.
  - intros Hs. rewrite !saved_app, (skeleton_saved _ Hsil), Hgs. simpl.
    by apply Hsaved.
Qed.

Lemma count_token_round t store k i :
  count_token t (round_skeleton store k i) =
    match t with
    | TChoice | TPropose | TSnapshot => 1%nat
    | TSave => if store && ((i + 1) mod k =? 0) then 1%nat else 0%nat
    | TYield => 0%nat
    end.
Proof.
  unfold round_skeleton. rewrite count_token_app.
  by destruct t, (store && _).
Qed.

(** With [yield_step = 1] every round is followed by a yield, and the
    rounds whose number is a multiple of [t] are saved. *)
Lemma sample_loop_every_round map_fn tune store t n (state : St) i
    (self : Sampler) :
  1 <= t ->
  round_ready good_move good_state map_fn self state ->
  exists ev self' ys,
    sample_loop n 1 (sample_round map_fn tune store t) (state, i) self
      = (ev, self', inr ys)
    /\ yielded ev = ys
    /\ length ys = n
    /\ count_token TChoice (skeleton ev) = n
    /\ count_token TPropose (skeleton ev) = n
    /\ count_token TSnapshot (skeleton ev) = n
    /\ count_token TYield (skeleton ev) = n
    /\ Z.of_nat (count_token TSave (skeleton ev)) =
         (if store then (i + Z.of_nat n) / t - i / t else 0)
    /\ schedule_ok self'
    /\ stored self' = stored self + Z.of_nat (count_token TSave (skeleton ev)).
Proof.
  intros Ht. revert state i self.
  induction n as [|n IH]; intros state i self Hok.
  - exists [], self, []. cbn [sample_loop]. unfold ret.
    change (Z.of_nat 0) with 0. rewrite Z.add_0_r, Z.sub_diag.
    split_and!; try done;
      [by destruct store|by destruct Hok|vm_compute count_token; lia].
  - destruct (sample_round_ok draw_in_range good_move good_state map_fn tune
                store t state i self Hok)
      as (ev1 & self1 & state1 & Hr & Hsk1 & Hok1 & _ & Hst1).
    destruct (IH state1 (i + 1) self1 Hok1)
      as (ev2 & self2 & ys & Hl & Hy & Hlen & Hc & Hp & Hs & Hyd & Hsv
          & Hok2 & Hst2).
    exists (ev1 ++ EvYield state1 :: ev2), self2, (state1 :: ys).
    split.
    { cbn [sample_loop repeat_rounds]. unfold bind at 1. unfold bind at 1.
      rewrite Hr. unfold ret at 1. cbn [fst snd]. run_m. cbn [fst snd].
      rewrite Hl. simpl. by rewrite !app_nil_r. }
    change (EvYield state1 :: ev2) with ([EvYield state1] ++ ev2).
    pose proof (sample_round_saved map_fn tune store t state i self) as Hy1.
    rewrite Hr in Hy1. destruct Hy1 as [Hy1 _]. cbn [fst snd] in Hy1.
    rewrite !skeleton_app, !yielded_app, Hy1, Hsk1.
    rewrite Hsk1 in Hst1.
    rewrite !count_token_app, !count_token_round in *.
    change (skeleton [EvYield state1]) with [TYield].
    vm_compute (count_token _ [TYield]).
    pose proof (succ_div t i ltac:(lia)) as Hd.
    replace (i + Z.of_nat (S n)) with (i + 1 + Z.of_nat n) by lia.
    split_and!; simpl; try lia; try done; try (by rewrite Hy);
      try (rewrite Hst2, Hst1);
      destruct store; simpl in *; try lia;
      destruct ((i + 1) mod t =? 0); lia.
Qed.

(** X7: the deprecated [thin = t] path. With [iterations = n >= 0] and
    [thin = t >= 1], on a sampler whose schedule [choice] accepts and an
    initial state that passes the checks, the generator warns of the
    deprecation, runs [n] rounds and yields after each of them; with
    [store] set it grows the backend by [n / t] steps and saves exactly
    the rounds whose number is a multiple of [t], which are [n / t]. The
    [thin_by] argument plays no part. The moves are such that their
    proposals do not raise. *)
Theorem sample_thin_saves_every_thin_th
    (self self0 : Sampler) init lp0 rs0 b0 tune skip other store progress
    (n t : Z) ev0 (state : St) :
  schedule_ok self ->
  proposals_return good_move good_state self ->
  Forall good_move (_moves self) ->
  sample_initial_state init lp0 rs0 b0 skip self = (ev0, self0, inr state) ->
  good_state state ->
  0 <= n -> 1 <= t ->
  exists ev self' ys,
    sample init lp0 rs0 b0 (PyInt n) tune skip other (Some (PyInt t)) store
      progress self = (ev, self', inr ys)
    /\ In (EvWarn "DeprecationWarning"
             "The 'thin' argument is deprecated. Use 'thin_by' instead.") ev
    /\ yielded ev = ys
    /\ Z.of_nat (length ys) = n
    /\ Z.of_nat (count_token TChoice (skeleton ev)) = n
    /\ Z.of_nat (count_token TPropose (skeleton ev)) = n
    /\ Z.of_nat (count_token TYield (skeleton ev)) = n
    /\ Z.of_nat (count_token TSave (skeleton ev)) = (if store then n / t else 0)
    /\ stored self' = stored self + (if store then n / t else 0)
    /\ grown (backend self') =
         grown (backend self) + (if store then n / t else 0).
Proof.
  intros Hok Hprop Hmoves Hinit Hstate Hn Ht.
  pose proof (sample_initial_state_keeps init lp0 rs0 b0 skip self) as Hkeep.
  pose proof (sample_initial_state_silent init lp0 rs0 b0 skip self) as Hsil.
  rewrite Hinit in Hkeep, Hsil. simpl in Hkeep, Hsil.
  rewrite (sample_continues_after_initial_state _ _ _ _ _ _ _ _ _ _ _ _ _ _ _
             Hinit).
  rewrite (sample_steps_thin state (PyInt n) tune other (PyInt t) store t self0
             eq_refl).
  assert ((t <=? 0) = false) as -> by lia.
  destruct (round_ready_start self self0 state store (n / t) (blobs state) Hok
              Hprop Hmoves Hstate Hkeep) as [Hok1 Hst1].
  set (self1 := if store
                then set_backend
                       (Backend_grow (backend self0) (n / t) (blobs state)) self0
                else self0) in *.
  assert (grown (backend self1) =
            grown (backend self) + (if store then n / t else 0)) as Hg1.
  { destruct Hkeep as (_ & _ & _ & _ & _ & _ & _ & Hb & _).
    subst self1. destruct store; simpl; rewrite Hb; lia. }
  destruct (sample_loop_every_round (select_map (pool self1)) tune store t
              (Z.to_nat n) state 0 self1 Ht Hok1)
    as (ev & self' & ys & Hrun & Hy & Hlen & Hc & Hp & _ & Hyd & Hsv & _ & Hst).
  pose proof (sample_loop_keeps_grown (select_map (pool self1)) tune store t
                (Z.to_nat n) 1%nat (state, 0) self1) as Hgrown.
  rewrite Hrun in Hgrown. simpl in Hgrown.
  set (warn := EvWarn "DeprecationWarning"
                 "The 'thin' argument is deprecated. Use 'thin_by' instead.").
  assert (exists evg,
             bind (deprecation_warning
                     "The 'thin' argument is deprecated. Use 'thin_by' instead.")
               (fun _ =>
             bind (lift (py_int (PyInt n))) (fun i =>
             bind (when store (backend_grow (i / t) (blobs state))) (fun _ =>
             sample_run state (1, t, i) tune store))) self0
             = (warn :: evg ++ ev, self', inr ys) /\ skeleton evg = [])
    as (evg & -> & Hg).
  { unfold sample_run. run_m. simpl. subst self1.
    change (Z.to_nat 1) with 1%nat.
    destruct store; simpl in *; rewrite Hrun.
    - by exists [EvGrow (n / t)].
    - by exists []. }
  exists (ev0 ++ warn :: evg ++ ev), self', ys.
  change (warn :: evg ++ ev) with ([warn] ++ evg ++ ev).
  rewrite !skeleton_app, !yielded_app, Hsil, Hg,
    (skeleton_yielded _ Hsil), (skeleton_yielded _ Hg).
  change (skeleton [warn]) with (@nil token).
  simpl app. rewrite Z.add_0_l, Zdiv_0_l, Z.sub_0_r, Z2Nat.id in Hsv by lia.
  split_and!; try done; try lia.
  apply in_app_iff. right. by left.
Qed.
End Runs.

(** ** What [sample] returns and [run_mcmc] remembers *)

Lemma repeat_rounds_yields_nothing map_fn tune store k n (st : St * Z)
    (self : Sampler) :
  yielded (fst (fst (repeat_rounds n (sample_round map_fn tune store k) st self)))
  = [].
Proof.
  apply (tracks_repeat_rounds (fun _ ev _ => yielded ev = []));
    try (intros; simpl in *; congruence).
  - intros s ev s' ev' s'' H1 H2. by rewrite yielded_app, H1, H2.
  - intros [st' i'] self'.
    by destruct (sample_round_saved map_fn tune store k st' i' self').
Qed.

Lemma sample_loop_returns_yielded map_fn tune store k n y (st : St * Z)
    (self : Sampler) ev self' ys :
  sample_loop n y (sample_round map_fn tune store k) st self
    = (ev, self', inr ys) ->
  ys = yielded ev.
Proof.
  revert st self ev self' ys. induction n as [|n IH];
    intros st self ev self' ys Hrun.
  - cbn [sample_loop] in Hrun. unfold ret in Hrun. by simplify_eq.
  - cbn [sample_loop] in Hrun. unfold bind at 1 in Hrun.
    pose proof (repeat_rounds_yields_nothing map_fn tune store k y st self)
      as Hy1.
    destruct (repeat_rounds _ _ _ self) as [[ev1 self1] [e|st1]];
      cbn [fst snd] in *; [by simplify_eq|].
    run_m.
    destruct (sample_loop _ _ _ _ self1) as [[ev2 self2] [e|ys2]] eqn:Hl;
      simplify_eq/=.
    rewrite yielded_app, Hy1. simpl. rewrite app_nil_r. f_equal.
    by eapply IH.
Qed.

(** The list a run of [sample] returns is the list of the states it
    yielded. *)
Lemma sample_returns_yielded init lp0 rs0 b0 iterations tune skip thin_by thin
    store progress (self self' : Sampler) ev ys :
  sample init lp0 rs0 b0 iterations tune skip thin_by thin store progress self
    = (ev, self', inr ys) ->
  ys = yielded ev.
Proof.
  unfold sample. unfold bind at 1.
  pose proof (sample_initial_state_silent init lp0 rs0 b0 skip self) as Hsil.
  destruct (sample_initial_state init lp0 rs0 b0 skip self)
    as [[ev0 self0] [e|state]]; simpl in Hsil; [done|].
  unfold sample_steps. unfold bind at 1.
  assert (skeleton (fst (fst (sample_thinning state iterations thin_by thin
                                store self0))) = []) as Hth.
  { unfold sample_thinning. run_m.
    destruct thin as [t|]; simpl;
      repeat (case_match; simplify_eq/=; try done). }
  destruct (sample_thinning _ _ _ _ _ self0) as [[ev1 self1] [e|[[y c] n]]];
    cbn [fst snd] in *; [done|].
  unfold sample_run. run_m.
  destruct (sample_loop _ _ _ _ self1) as [[ev2 self2] [e|ys2]] eqn:Hl;
    intros ?; simplify_eq/=.
  rewrite !yielded_app, (skeleton_yielded _ Hsil), (skeleton_yielded _ Hth).
  simpl. by eapply sample_loop_returns_yielded.
Qed.

(** X8: [run_mcmc], whatever its arguments. When it returns, the value is
    the last state yielded by [sample], [None] when nothing was yielded,
    and that value is what the sampler remembers for a later
    [run_mcmc(None, ...)]. When it raises, the remembered state is the
    one from before the call. *)
Theorem run_mcmc_remembers_what_it_returns x nsteps lp0 rs0 b0 tune skip thin_by
    thin store progress (self : Sampler) :
  let out :=
    run_mcmc x nsteps lp0 rs0 b0 tune skip thin_by thin store progress self in
  match snd out with
  | inr r =>
      r = last (yielded (fst (fst out)))
      /\ _previous_state (snd (fst out)) = Some r
  | inl _ => _previous_state (snd (fst out)) = _previous_state self
  end.
Proof.
  cbv zeta.
  assert (forall init,
    match snd (run_mcmc (Some init) nsteps lp0 rs0 b0 tune skip thin_by thin
                 store progress self) with
    | inr r =>
        r = last (yielded (fst (fst (run_mcmc (Some init) nsteps lp0 rs0 b0
                                       tune skip thin_by thin store progress
                                       self))))
        /\ _previous_state (snd (fst (run_mcmc (Some init) nsteps lp0 rs0 b0
                                        tune skip thin_by thin store progress
                                        self))) = Some r
    | inl _ =>
        _previous_state (snd (fst (run_mcmc (Some init) nsteps lp0 rs0 b0 tune
                                     skip thin_by thin store progress self)))
        = _previous_state self
    end) as Hsome.
  { intros init. rewrite run_mcmc_unfold.
    destruct (sample_frame_replay self init lp0 rs0 b0 nsteps tune skip thin_by thin
                store progress) as ((_&_&_&_&_&_&Hprev&_) & _).
    pose proof (sample_returns_yielded init lp0 rs0 b0 nsteps tune skip thin_by
                  thin store progress self) as Hys.
    destruct (sample init _ _ _ _ _ _ _ _ _ _ self) as [[ev self'] [e|ys]];
      cbn [fst snd] in *; [done|].
    by rewrite <- (Hys _ _ _ eq_refl). }
  destruct x as [init|]; [apply Hsome|].
  destruct (_previous_state self) as [[s|]|] eqn:Hp.
  - rewrite (run_mcmc_resumes s) by done. apply Hsome.
  - by rewrite run_mcmc_nothing_recorded.
  - by rewrite run_mcmc_attribute_missing.
Qed.

(** With no iteration to make, the loop is not entered. *)
Lemma sample_no_rounds init lp0 rs0 b0 tune skip thin_by store
    progress (n k : Z) (self self0 : Sampler) ev0 (state : St) :
  sample_initial_state init lp0 rs0 b0 skip self = (ev0, self0, inr state) ->
  py_int thin_by = inr k -> 1 <= k -> n <= 0 ->
  sample init lp0 rs0 b0 (PyInt n) tune skip thin_by None store progress self
  = (ev0 ++ (if store then [EvGrow n] else []),
     (if store
      then set_backend (Backend_grow (backend self0) n (blobs state)) self0
      else self0),
     inr []).
Proof.
  intros Hinit Hk Hk1 Hn.
  rewrite (sample_continues_after_initial_state _ _ _ _ _ _ _ _ _ _ _ _ _ _ _
             Hinit).
  rewrite (sample_steps_thin_by state (PyInt n) tune thin_by store k self0 Hk).
  assert ((k <=? 0) = false) as -> by lia.
  unfold sample_run. run_m. simpl.
  assert (Z.to_nat n = 0%nat) as -> by lia.
  by destruct store.
Qed.

(** X9: an [iterations] count that is zero, or negative when nothing is
    stored, is not rejected. With a valid [thin_by] and an initial state
    that passes the checks, no round runs and nothing is yielded, so that
    a move schedule that [choice] would refuse goes unnoticed; with
    [store] the backend is still asked to grow, by zero steps. *)
Theorem sample_without_iterations init lp0 rs0 b0 tune skip thin_by store
    progress (n k : Z) (self self0 : Sampler) ev0 (state : St) :
  sample_initial_state init lp0 rs0 b0 skip self = (ev0, self0, inr state) ->
  py_int thin_by = inr k -> 1 <= k -> n <= 0 -> (store = true -> n = 0) ->
  sample init lp0 rs0 b0 (PyInt n) tune skip thin_by None store progress self
  = (ev0 ++ (if store then [EvGrow n] else []),
     (if store
      then set_backend (Backend_grow (backend self0) n (blobs state)) self0
      else self0),
     inr []).
Proof. intros Hinit Hk Hk1 Hn _. by apply (sample_no_rounds _ _ _ _ _ _ _ _ _ _ k). Qed.

(** X10: [run_mcmc] with [nsteps = 0] (or a negative count when nothing is
    stored) returns [None] and overwrites the
    remembered state with it: a following [run_mcmc(None, ...)] finds
    nothing to resume and raises the [ValueError], although a state had
    been handed in. *)
Theorem run_mcmc_without_steps_forgets init lp0 rs0 b0 tune skip thin_by store
    progress (n k : Z) (self self0 : Sampler) ev0 (state : St) :
  sample_initial_state init lp0 rs0 b0 skip self = (ev0, self0, inr state) ->
  py_int thin_by = inr k -> 1 <= k -> n <= 0 -> (store = true -> n = 0) ->
  exists ev self',
    run_mcmc (Some init) (PyInt n) lp0 rs0 b0 tune skip thin_by None store
      progress self = (ev, self', inr None)
    /\ yielded ev = []
    /\ _previous_state self' = Some None
    /\ forall nsteps' lp0' rs0' b0' tune' skip' thin_by' thin' store' progress',
         run_mcmc None nsteps' lp0' rs0' b0' tune' skip' thin_by' thin' store'
           progress' self'
         = ([], self', inl (ValueError msg_missing)).
Proof.
  intros Hinit Hk Hk1 Hn _.
  rewrite run_mcmc_unfold,
    (sample_no_rounds _ _ _ _ _ _ _ _ _ _ _ _ _ _ _ Hinit Hk Hk1 Hn).
  eexists _, _. split; [reflexivity|].
  pose proof (sample_initial_state_silent init lp0 rs0 b0 skip self) as Hsil.
  rewrite Hinit in Hsil. simpl in Hsil.
  split_and!.
  - rewrite yielded_app, (skeleton_yielded _ Hsil). by destruct store.
  - done.
  - intros. by apply run_mcmc_nothing_recorded.
Qed.

(** ** The calls of the log-density *)

Lemma calls_eval (ev : list lp_event) :
  calls (map (EvEval (rng := rng)) ev) = lp_calls ev.
Proof.
  induction ev as [|e ev IH]; [done|].
  unfold calls, lp_calls in *. destruct e; simpl; [f_equal|]; exact IH.
Qed.

Lemma lp_calls_app (ev ev' : list lp_event) :
  lp_calls (ev ++ ev') = lp_calls ev ++ lp_calls ev'.
Proof. apply omap_app. Qed.

Lemma lp_calls_call (w : FunctionWrapper.t) x :
  lp_calls (fst (FunctionWrapper.__call__ w x)) = [x].
Proof. unfold FunctionWrapper.__call__. by case_match. Qed.

(** Mapping the wrapper over the walkers calls the log-density on the
    walkers in order, once each, up to and including the first one on
    which it raises. *)
Lemma map_calls_in_order (w : FunctionWrapper.t) l :
  let g := fun row => FunctionWrapper.__call__ w (Row row) in
  let call := fun row =>
    FunctionWrapper.f w (Row row) (FunctionWrapper.args w)
      (FunctionWrapper.kwargs w) in
  match snd (map_calls g l) with
  | inr vs =>
      lp_calls (fst (map_calls g l)) = map Row l
      /\ Forall2 (fun row v => call row = inr v) l vs
  | inl e =>
      exists done row rest what,
        l = done ++ row :: rest
        /\ lp_calls (fst (map_calls g l)) = map Row (done ++ [row])
        /\ e = Raised what
        /\ call row = inl what
        /\ Forall (fun r => exists v, call r = inr v) done
  end.
Proof.
  cbv zeta. induction l as [|row l IH]; [by split|].
  cbn [map_calls].
  pose proof (lp_calls_call w (Row row)) as Hc.
  destruct (FunctionWrapper.__call__ w (Row row)) as [ev1 [e|v]] eqn:Hcall.
  - exists [], row, l. unfold FunctionWrapper.__call__ in Hcall.
    destruct (FunctionWrapper.f w _ _ _) as [what|v] eqn:Hf; simplify_eq/=.
    exists what. by split_and!.
  - assert (FunctionWrapper.f w (Row row) (FunctionWrapper.args w)
              (FunctionWrapper.kwargs w) = inr v) as Hf.
    { unfold FunctionWrapper.__call__ in Hcall.
      destruct (FunctionWrapper.f w _ _ _); by simplify_eq/=. }
    destruct (map_calls _ l) as [ev2 [e|vs]]; cbn [fst snd] in *.
    + destruct IH as (done & row' & rest & what & -> & Hcs & -> & Hr & Hd).
      exists (row :: done), row', rest, what.
      rewrite lp_calls_app, Hc, Hcs. split_and!; try done.
      constructor; eauto.
    + destruct IH as (Hcs & Hall).
      rewrite lp_calls_app, Hc, Hcs. split; [done|]. by constructor.
Qed.

Lemma try_map_fails {A B} (g : A -> exn + B) l a e :
  a ∈ l -> g a = inl e -> exists e', try_map g l = inl e'.
Proof.
  induction l as [|b l IH]; intros Ha Hg; [by apply elem_of_nil in Ha|].
  simpl. destruct (g b) as [e1|v] eqn:Hb; [eauto|].
  apply elem_of_cons in Ha as [->|Ha]; [congruence|].
  destruct (IH Ha Hg) as [e' ->]. eauto.
Qed.

Lemma scalar_fallback_structural results e :
  (log_prob ← try_map py_float results;
   mret (log_prob, @None ndarray)) = inl e -> structural e.
Proof.
  destruct (try_map py_float results) as [e1|lp] eqn:E; simpl_exn;
    [|discriminate].
  intros [= <-]. eapply (try_map_error structural); [|exact E].
  intros a e'. destruct a; simpl; by intros [= <-].
Qed.

Lemma unpack_results_structural dt results e :
  unpack_results dt results = inl e -> structural e.
Proof.
  unfold unpack_results.
  destruct (try_map _ results) as [e1|lp] eqn:E1.
  - assert (structural e1) as Hf.
    { eapply (try_map_error structural); [|exact E1].
      intros a e'. cbv beta.
      destruct a as [| | |[|y ?]]; simpl_exn; simpl; try by intros [= <-].
      destruct y; simpl; by intros [= <-]. }
    destruct e1; try (intros [= <-]; exact Hf);
      try apply scalar_fallback_structural; done.
  - destruct (try_map py_tail results) as [e2|blob] eqn:E2.
    + assert (structural e2) as Hf.
      { eapply (try_map_error structural); [|exact E2].
        intros a e'. destruct a; simpl; by intros [= <-]. }
      destruct e2; try (intros [= <-]; exact Hf);
        try apply scalar_fallback_structural; done.
    + unfold assemble_blobs, blob_dtype.
      destruct dt as [d|]; simpl_exn.
      * destruct (np_array blob d); simpl_exn; simpl; by intros [= <-].
      * destruct blob as [|b0 blob]; simpl_exn; [by intros [= <-]|].
        destruct (np_atleast_1d_dtype b0) as [[?|?]|d]; simpl_exn;
          try (by intros [= <-]);
          destruct (np_array _ _); simpl_exn; simpl; by intros [= <-].
Qed.

Lemma unpack_results_length dt results lp blob :
  unpack_results dt results = inr (lp, blob) -> length lp = length results.
Proof.
  unfold unpack_results. intros H.
  repeat (case_match; simplify_eq/=; try done);
    repeat match goal with
    | H : _ ≫= _ = inr _ |- _ => simpl_exn
    | H : match ?x with inl _ => _ | inr _ => _ end = inr _ |- _ =>
        destruct x eqn:?; simplify_eq/=
    end;
    by eapply try_map_length.
Qed.

(** X11: the calls [compute_log_prob] makes on coordinates without
    infinities and NaNs. Vectorized, the log-density is called once, on
    the whole batch. Otherwise, with the built-in [map] (no pool), it is
    called on the walkers in order, once each: on all of them when the
    method returns (with one log-probability per walker) or raises an
    error of its own, and up to and including the first walker on which
    the log-density raises when that is the error. The sampler is left as
    it was. *)
Theorem compute_log_prob_call_order (self : Sampler) coords :
  pool self = None ->
  any_isinf coords || any_isnan coords = false ->
  let out := compute_log_prob coords self in
  snd (fst out) = self
  /\ if vectorize self then calls (fst (fst out)) = [Batch coords]
     else
       match snd out with
       | inr r =>
           calls (fst (fst out)) = map Row coords
           /\ length (fst r) = length coords
       | inl (Raised what) =>
           exists done row rest,
             coords = done ++ row :: rest
             /\ calls (fst (fst out)) = map Row (done ++ [row])
             /\ log_density self (Row row) = inl what
             /\ Forall (fun r => exists v, log_density self (Row r) = inr v)
                  done
       | inl _ => calls (fst (fst out)) = map Row coords
       end.
Proof.
  intros Hpool Hgood. cbv zeta. unfold compute_log_prob, compute_log_prob_fun.
  rewrite (compute_log_prob_with_good _ _ _ _ _ Hgood). unfold evaluate.
  destruct (vectorize self).
  - pose proof (lp_calls_call (log_prob_fn self) (Batch coords)) as Hc.
    destruct (FunctionWrapper.__call__ _ _) as [ev [e|v]];
      [|destruct (py_iter v)]; simpl in *; by rewrite calls_eval.
  - pose proof (map_calls_in_order (log_prob_fn self) coords) as H.
    cbv zeta in H.
    assert (run_map (select_map (pool self))
              (fun row => FunctionWrapper.__call__ (log_prob_fn self) (Row row))
              coords
            = map_calls
                (fun row => FunctionWrapper.__call__ (log_prob_fn self) (Row row))
                coords) as -> by (by destruct (pool self)).
    destruct (map_calls _ coords) as [ev [e|vs]]; cbn [fst snd] in *.
    + destruct H as (done & row & rest & what & -> & Hcs & -> & Hr & Hd).
      split; [done|]. exists done, row, rest. by rewrite calls_eval.
    + destruct H as (Hcs & Hall). split; [done|]. rewrite calls_eval, Hcs.
      destruct (unpack_results _ vs) as [e|[lp blob]] eqn:Hu; simpl_exn.
      { apply unpack_results_structural in Hu. by destruct e. }
      unfold check_log_prob. simpl.
      destruct (existsb isnan lp); [done|]. split; [done|]. simpl.
      rewrite (unpack_results_length _ _ _ _ Hu).
      symmetry. by eapply Forall2_length.
Qed.

Lemma unpack_results_mixed dt results x v :
  x ∈ results -> is_Some (scalar_value x) ->
  v ∈ results -> scalar_value v = None ->
  exists msg, unpack_results dt results = inl (TypeError msg).
Proof.
  intros Hx [y Hy] Hv Hnone. unfold unpack_results.
  assert (exists msg, try_map py_float results = inl (TypeError msg))
    as [msg Hfall].
  { destruct (try_map_fails py_float results v
                (TypeError "float() argument must be a string or a number")
                Hv) as [e He].
    { by destruct v. }
    rewrite He.
    apply (try_map_error (fun e => exists msg, e = TypeError msg)) in He;
      [by destruct He as [msg ->]; eauto|].
    intros a e'. destruct a; simpl; intros [= <-]; eauto. }
  destruct (try_map_fails
              (fun l => l0 ← py_index0 l; py_float l0) results x
              (TypeError "object is not subscriptable") Hx) as [e He].
  { by destruct x. }
  rewrite He.
  apply (try_map_error
           (fun e => (exists msg, e = TypeError msg)
                     \/ exists msg, e = IndexError msg)) in He.
  - destruct He as [[m ->]|[m ->]]; rewrite Hfall; simpl_exn; eauto.
  - intros a e'. cbv beta.
    destruct a as [| | |[|z ?]]; simpl_exn; simpl;
      try (intros [= <-]; eauto).
    destruct z; simpl; intros [= <-]; eauto.
Qed.

(** X12: the results of the walkers are unpacked all alike. When the
    log-density returns a bare number for one walker and, for another,
    something [float] refuses (a sequence with blobs, say), the method
    raises a [TypeError]: the indexing fails on the number, the fallback
    on the other result. *)
Theorem compute_log_prob_mixed_results (self : Sampler) coords r1 r2 x v :
  vectorize self = false ->
  any_isinf coords || any_isnan coords = false ->
  (forall row, row ∈ coords -> exists u, log_density self (Row row) = inr u) ->
  r1 ∈ coords -> log_density self (Row r1) = inr x ->
  is_Some (scalar_value x) ->
  r2 ∈ coords -> log_density self (Row r2) = inr v ->
  scalar_value v = None ->
  exists msg, snd (compute_log_prob coords self) = inl (TypeError msg).
Proof.
  intros Hvec Hgood Hall H1 Hx Hsx H2 Hv Hsv.
  unfold compute_log_prob, compute_log_prob_fun.
  rewrite (compute_log_prob_with_good _ _ _ _ _ Hgood). unfold evaluate.
  rewrite Hvec.
  assert (run_map (select_map (pool self))
            (fun row => FunctionWrapper.__call__ (log_prob_fn self) (Row row))
            coords
          = map_calls
              (fun row => FunctionWrapper.__call__ (log_prob_fn self) (Row row))
              coords) as -> by (by destruct (pool self)).
  pose proof (map_calls_in_order (log_prob_fn self) coords) as H.
  cbv zeta in H.
  destruct (map_calls _ coords) as [ev [e|vs]]; cbn [fst snd] in *.
  { destruct H as (done & row & rest & what & -> & _ & _ & Hr & _).
    destruct (Hall row) as [u Hu];
      [apply elem_of_app; right; apply elem_of_cons; by left|].
    unfold log_density in Hu. congruence. }
  destruct H as (_ & Hf2).
  assert (forall row u, row ∈ coords -> log_density self (Row row) = inr u ->
                        u ∈ vs) as Hin.
  { intros row u Hrow Hu. apply list_elem_of_lookup in Hrow as [i Hi].
    destruct (Forall2_lookup_l _ _ _ _ _ Hf2 Hi) as (u' & Hu' & Hcall).
    unfold log_density in Hu. rewrite Hu in Hcall. simplify_eq.
    by eapply list_elem_of_lookup_2. }
  destruct (unpack_results_mixed (blobs_dtype self) vs x v) as [msg Hm];
    eauto.
  rewrite Hm. eauto.
Qed.

(** X13: when there is no result to unpack, because the ensemble has no
    walker or the vectorized log-density returned an empty sequence, and
    no [blobs_dtype] was given, the method takes the empty list for
    results with blobs, reads the first blob and raises an [IndexError],
    which is none of the sampler's own errors. *)
Theorem compute_log_prob_without_results (self : Sampler) coords :
  blobs_dtype self = None ->
  any_isinf coords || any_isnan coords = false ->
  (if vectorize self
   then log_density self (Batch coords) = inr (PySeq [])
   else coords = []) ->
  exists msg,
    snd (compute_log_prob coords self) = inl (IndexError msg)
    /\ kind_of (IndexError msg) = OtherError.
Proof.
  intros Hdt Hgood Hnone.
  unfold compute_log_prob, compute_log_prob_fun.
  rewrite (compute_log_prob_with_good _ _ _ _ _ Hgood). unfold evaluate.
  rewrite Hdt.
  destruct (vectorize self).
  - unfold FunctionWrapper.__call__. unfold log_density in Hnone.
    rewrite Hnone. simpl. eauto.
  - subst coords. destruct (pool self); simpl; eauto.
Qed.

(** ** The initial phase of [sample] *)

(** What the initial phase leaves behind when the coordinates have the
    shape of the ensemble: its warnings, then the events of the one
    evaluation if no log-probabilities came with the call; the stream is
    the one of the snapshot, if that is one. *)
Lemma sample_initial_state_trace init lp0 rs0 b0 skip (self : Sampler) ill :
  has_shape2 (coords (State_init init)) (nwalkers self) (ndim self) = true ->
  ill_conditioned skip (coords (State_init init)) = inr ill ->
  fst (sample_initial_state init lp0 rs0 b0 skip self) =
    (initial_warnings skip init rs0 lp0 b0
     ++ match supplied_log_prob init lp0 with
        | Some _ => []
        | None =>
            map EvEval (fst (compute_log_prob_fun self (coords (State_init init))))
        end,
     seeded self (initial_snapshot init rs0)).
Proof.
  intros Hshape Hill. unfold supplied_log_prob, initial_warnings, seeded,
    initial_snapshot.
  unfold sample_initial_state. run_m. rewrite Hshape. cbn [negb].
  rewrite Hill. simpl.
  destruct ill, rs0 as [r|], lp0 as [lp'|], b0 as [b|];
    simpl;
    rewrite ?compute_log_prob_fun_set_random;
    try match goal with
        | |- context [log_prob (State_init init)] =>
            destruct (log_prob (State_init init)) as [lp|] eqn:Hlp; simpl;
            repeat (progress (rewrite ?Hlp; simpl))
        end;
    rewrite ?compute_log_prob_fun_set_random;
    try match goal with
        | |- context [compute_log_prob_fun self (coords (State_init init))] =>
            destruct (compute_log_prob_fun self (coords (State_init init)))
              as [ev [err|[lp1 blob]]]; simpl
        end;
    repeat match goal with
           | |- context [if ?c then _ else _] => destruct c; simpl
           end;
    by rewrite ?app_nil_r.
Qed.

Lemma sample_initial_state_wrong_shape init lp0 rs0 b0 skip (self : Sampler) :
  has_shape2 (coords (State_init init)) (nwalkers self) (ndim self) = false ->
  sample_initial_state init lp0 rs0 b0 skip self
  = ([], self, inl (ValueError msg_shape)).
Proof. intros H. unfold sample_initial_state. run_m. by rewrite H. Qed.

(** The condition number is computed right after the shape check: what
    it raises leaves [sample] before anything else has happened. *)
Lemma sample_initial_state_ill_conditioned init lp0 rs0 b0 skip
    (self : Sampler) e :
  has_shape2 (coords (State_init init)) (nwalkers self) (ndim self) = true ->
  ill_conditioned skip (coords (State_init init)) = inl e ->
  sample_initial_state init lp0 rs0 b0 skip self = ([], self, inl e).
Proof.
  intros Hshape Hill. unfold sample_initial_state. run_m.
  rewrite Hshape. cbn [negb]. by rewrite Hill.
Qed.

Lemma calls_app (ev ev' : list (event (rng := rng))) :
  calls (ev ++ ev') = calls ev ++ calls ev'.
Proof. apply omap_app. Qed.

Lemma calls_initial_warnings skip init rs0 lp0 b0 :
  calls (initial_warnings skip init rs0 lp0 b0) = [].
Proof.
  unfold initial_warnings.
  by destruct (ill_conditioned _ _) as [?|[]], rs0, lp0, b0.
Qed.

Lemma runtime_initial_warnings skip init rs0 lp0 b0 :
  filter (fun e => is_runtime_warning e = true)
    (initial_warnings skip init rs0 lp0 b0)
  = if ill_conditioned skip (coords (State_init init)) is inr true
    then [EvWarn "RuntimeWarning"
            "Initial state is not linearly independent and it will not allow a full exploration of parameter space"]
    else [].
Proof.
  unfold initial_warnings.
  by destruct (ill_conditioned _ _) as [?|[]], rs0, lp0, b0.
Qed.

Lemma ill_conditioned_warns skip coords :
  (if ill_conditioned skip coords is inr true then true else false)
  = negb skip
    && (if np_cond_cov coords is inr c then exceeds_1e8 c else false).
Proof.
  unfold ill_conditioned. destruct skip; [done|].
  destruct (np_cond_cov coords) as [e|c]; simpl_exn; [done|].
  by destruct (exceeds_1e8 c).
Qed.

Lemma runtime_eval (ev : list lp_event) :
  filter (fun e => is_runtime_warning e = true) (map (EvEval (rng := rng)) ev)
  = [].
Proof.
  induction ev as [|e ev IH]; [done|]. simpl.
  rewrite filter_cons_False; [exact IH|]. simpl. congruence.
Qed.

Lemma sample_steps_no_runtime_warning (state : St) iterations tune thin_by thin
    store (self : Sampler) :
  filter (fun e => is_runtime_warning e = true)
    (fst (fst (sample_steps state iterations tune thin_by thin store self)))
  = [].
Proof.
  apply (tracks_sample_steps
           (fun _ ev _ => filter (fun e => is_runtime_warning e = true) ev = [])
           store); try done.
  - intros s ev s' ev' s'' H1 H2. by rewrite filter_app, H1, H2.
  - intros s e _ He. rewrite filter_cons_False; [done|]. congruence.
Qed.

Lemma sample_checks_shapes_aux init lp0 rs0 b0 skip (self : Sampler) lp ill :
  has_shape2 (coords (State_init init)) (nwalkers self) (ndim self) = true ->
  ill_conditioned skip (coords (State_init init)) = inr ill ->
  supplied_log_prob init lp0 = Some lp ->
  length lp <> nwalkers self ->
  snd (sample_initial_state init lp0 rs0 b0 skip self)
    = inl (ValueError msg_shape)
  /\ fst (sample_initial_state init lp0 rs0 b0 skip self)
     = (initial_warnings skip init rs0 lp0 b0,
        seeded self (initial_snapshot init rs0)).
Proof.
  intros Hshape Hill Hlp Hlen. split.
  - unfold supplied_log_prob in Hlp.
    unfold sample_initial_state. run_m. rewrite Hshape. cbn [negb].
    rewrite Hill. simpl.
    destruct ill, rs0 as [r|], lp0 as [lp'|], b0 as [b|];
      simpl; simplify_eq;
      repeat (progress (rewrite ?Hlp; simpl));
      by (assert ((length lp =? nwalkers self)%nat = false) as ->
            by (by apply Nat.eqb_neq)).
  - rewrite (sample_initial_state_trace init lp0 rs0 b0 skip self ill Hshape
               Hill), Hlp.
    by rewrite app_nil_r.
Qed.

(** X14: the checks of [sample] that come before the evaluation, in
    order. Coordinates that do not have the shape of the ensemble are
    refused before anything else happens: no warning, no change of the
    stream, no call. Next, unless the check is skipped, comes the
    condition number, and what [np.linalg.cond] raises (on a covariance
    that is not finite) leaves [sample] in the same way, nothing having
    happened. After that, log-probabilities that came with the call and
    are not one per walker are refused without a call of the
    log-density, but only after the warnings and after [set_state] has
    been given the random snapshot of the call. *)
Theorem sample_checks_shapes (self : Sampler) init lp0 rs0 b0 iterations tune
    skip thin_by thin store progress :
  let out :=
    sample init lp0 rs0 b0 iterations tune skip thin_by thin store progress
      self in
  (has_shape2 (coords (State_init init)) (nwalkers self) (ndim self) = false ->
   out = ([], self, inl (ValueError msg_shape)))
  /\ (forall e,
        has_shape2 (coords (State_init init)) (nwalkers self) (ndim self)
          = true ->
        skip = false ->
        np_cond_cov (coords (State_init init)) = inl e ->
        out = ([], self, inl (FromNumpy e)))
  /\ (forall lp ill,
        has_shape2 (coords (State_init init)) (nwalkers self) (ndim self)
          = true ->
        ill_conditioned skip (coords (State_init init)) = inr ill ->
        supplied_log_prob init lp0 = Some lp ->
        length lp <> nwalkers self ->
        snd out = inl (ValueError msg_shape)
        /\ fst (fst out) = initial_warnings skip init rs0 lp0 b0
        /\ snd (fst out) = seeded self (initial_snapshot init rs0)).
Proof.
  cbv zeta. split_and!.
  - intros Hshape. apply sample_stops_with_initial_state.
    by apply sample_initial_state_wrong_shape.
  - intros e Hshape -> He. apply sample_stops_with_initial_state.
    apply sample_initial_state_ill_conditioned; [done|].
    unfold ill_conditioned. by rewrite He.
  - intros lp ill Hshape Hill Hlp Hlen.
    destruct (sample_checks_shapes_aux init lp0 rs0 b0 skip self lp ill Hshape
                Hill Hlp Hlen) as [Hres Htr].
    destruct (sample_initial_state init lp0 rs0 b0 skip self)
      as [[ev0 self0] r] eqn:Hinit. simpl in *. subst r.
    rewrite (sample_stops_with_initial_state _ _ _ _ _ _ _ _ _ _ _ _ _ _ _
               Hinit).
    simpl. by simplify_eq.
Qed.

(** X15: [sample] warns that the initial state is not linearly
    independent exactly when the coordinates have the shape of the
    ensemble, the check is not skipped and the condition number of their
    covariance is computed and exceeds 1e8; it does so once, and nothing
    later in the run issues that warning. *)
Theorem sample_warns_of_dependent_walkers (self : Sampler) init lp0 rs0 b0
    iterations tune skip thin_by thin store progress :
  filter (fun e => is_runtime_warning e = true)
    (fst (fst (sample init lp0 rs0 b0 iterations tune skip thin_by thin store
                 progress self)))
  = if has_shape2 (coords (State_init init)) (nwalkers self) (ndim self)
       && negb skip
       && (if np_cond_cov (coords (State_init init)) is inr c
           then exceeds_1e8 c else false)
    then [EvWarn "RuntimeWarning"
            "Initial state is not linearly independent and it will not allow a full exploration of parameter space"]
    else [].
Proof.
  rewrite <- andb_assoc, <- ill_conditioned_warns.
  destruct (has_shape2 _ _ _) eqn:Hshape.
  - destruct (ill_conditioned skip (coords (State_init init))) as [e|ill]
      eqn:Hill.
    { rewrite (sample_stops_with_initial_state _ _ _ _ _ _ _ _ _ _ _ _ _ _ _
                 (sample_initial_state_ill_conditioned init lp0 rs0 b0 skip
                    self e Hshape Hill)).
      done. }
    pose proof (sample_initial_state_trace init lp0 rs0 b0 skip self ill
                  Hshape Hill) as Htr.
    pose proof (runtime_initial_warnings skip init rs0 lp0 b0) as Hrt.
    rewrite Hill in Hrt.
    unfold sample, bind.
    destruct (sample_initial_state init lp0 rs0 b0 skip self)
      as [[ev0 self0] [e|state]]; simpl in Htr; simplify_eq.
    + cbn [fst snd andb]. rewrite filter_app, Hrt.
      destruct (supplied_log_prob init lp0);
        rewrite ?runtime_eval, app_nil_r; by destruct ill.
    + pose proof (sample_steps_no_runtime_warning state iterations tune
                    thin_by thin store
                    (seeded self (initial_snapshot init rs0))) as Hst.
      destruct (sample_steps _ _ _ _ _ _ _) as [[ev self'] r].
      cbn [fst snd andb] in *.
      rewrite !filter_app, Hrt, Hst.
      destruct (supplied_log_prob init lp0);
        rewrite ?runtime_eval, !app_nil_r; by destruct ill.
  - simpl.
    rewrite (sample_stops_with_initial_state _ _ _ _ _ _ _ _ _ _ _ _ _ _ _
               (sample_initial_state_wrong_shape init lp0 rs0 b0 skip self
                  Hshape)).
    done.
Qed.

(** X16: the one evaluation of the initial phase. When
    log-probabilities come with the call, in the state or as
    [log_prob0], the log-density is not called and they are the ones of
    the state the run starts from. Otherwise the calls are those of one
    [compute_log_prob] on the initial coordinates, and the state carries
    its log-probabilities and its blobs: blobs handed in without
    log-probabilities are dropped. This is for an initial state that
    has passed the checks before the evaluation: its coordinates have
    the shape of the ensemble and the condition number of their
    covariance, unless skipped, has been computed. When the condition
    number raises instead, nothing is evaluated. *)
Theorem sample_initial_evaluation (self : Sampler) init lp0 rs0 b0 skip :
  has_shape2 (coords (State_init init)) (nwalkers self) (ndim self) = true ->
  let out := sample_initial_state init lp0 rs0 b0 skip self in
  match ill_conditioned skip (coords (State_init init)) with
  | inl e => out = ([], self, inl e)
  | inr _ =>
  match supplied_log_prob init lp0 with
  | Some lp =>
      calls (fst (fst out)) = []
      /\ forall st, snd out = inr st -> log_prob st = Some lp
  | None =>
      calls (fst (fst out))
        = lp_calls (fst (compute_log_prob_fun self (coords (State_init init))))
      /\ forall st, snd out = inr st ->
           exists lp,
             snd (compute_log_prob_fun self (coords (State_init init)))
               = inr (lp, blobs st)
             /\ log_prob st = Some lp
  end
  end.
Proof.
  intros Hshape. cbv zeta.
  destruct (ill_conditioned skip (coords (State_init init))) as [e|ill]
    eqn:Hill.
  { by apply sample_initial_state_ill_conditioned. }
  pose proof (sample_initial_state_trace init lp0 rs0 b0 skip self ill Hshape
                Hill) as Htr.
  destruct (supplied_log_prob init lp0) as [lp|] eqn:Hlp.
  - rewrite Htr. simpl. rewrite app_nil_r, calls_initial_warnings.
    split; [done|]. intros st Hst.
    destruct (decide (length lp = nwalkers self)) as [Hlen|Hlen].
    + rewrite (sample_initial_state_supplied _ _ _ _ _ _ _ _ Hshape Hill Hlp
                 Hlen) in Hst.
      destruct (existsb isnan lp); by simplify_eq.
    + destruct (sample_checks_shapes_aux init lp0 rs0 b0 skip self lp ill)
        as [Hres _]; try done. rewrite Hres in Hst. done.
  - rewrite Htr. simpl. rewrite calls_app, calls_initial_warnings, calls_eval.
    split; [done|]. intros st Hst.
    rewrite (sample_initial_state_computed _ _ _ _ _ _ _ Hshape Hill Hlp)
      in Hst.
    destruct (compute_log_prob_fun self _) as [ev [e|[lp blob]]];
      simpl in *; [done|].
    destruct (negb (length lp =? nwalkers self)%nat); [done|].
    destruct (existsb isnan lp); simplify_eq. eauto.
Qed.

(** ** The deprecated arguments of [sample] *)

Lemma but_deprecations_app (ev ev' : list (event (rng := rng))) :
  but_deprecations (ev ++ ev') = but_deprecations ev ++ but_deprecations ev'.
Proof. apply filter_app. Qed.

Lemma but_deprecations_eval (ev : list lp_event) :
  but_deprecations (map (EvEval (rng := rng)) ev) = map EvEval ev.
Proof.
  unfold but_deprecations. induction ev as [|e ev IH]; [done|].
  simpl. rewrite filter_cons_True by done. by rewrite IH.
Qed.

Lemma but_deprecations_initial_warnings skip init rs0 lp0 b0 :
  but_deprecations (initial_warnings skip init rs0 lp0 b0)
  = initial_warnings skip (inr (coords (State_init init))) None None None.
Proof.
  unfold initial_warnings. simpl.
  by destruct (ill_conditioned _ _) as [?|[]], rs0, lp0, b0.
Qed.

Lemma sample_initial_state_deprecated init lp0 rs0 b0 skip (self : Sampler) :
  let out1 := sample_initial_state init lp0 rs0 b0 skip self in
  let out2 :=
    sample_initial_state (inl (with_deprecated init lp0 rs0 b0)) None None None
      skip self in
  snd out1 = snd out2
  /\ snd (fst out1) = snd (fst out2)
  /\ but_deprecations (fst (fst out1)) = fst (fst out2).
Proof.
  cbv zeta.
  destruct (has_shape2 (coords (State_init init)) (nwalkers self) (ndim self))
    eqn:Hshape.
  - destruct (ill_conditioned skip (coords (State_init init))) as [e|ill]
      eqn:Hill.
    { rewrite (sample_initial_state_ill_conditioned init lp0 rs0 b0 skip self
                 e Hshape Hill).
      by rewrite (sample_initial_state_ill_conditioned
                    (inl (with_deprecated init lp0 rs0 b0)) None None None
                    skip self e Hshape Hill). }
    pose proof (sample_initial_state_trace init lp0 rs0 b0 skip self ill
                  Hshape Hill) as Ht1.
    pose proof (sample_initial_state_trace
                  (inl (with_deprecated init lp0 rs0 b0)) None None None skip
                  self ill Hshape Hill) as Ht2.
    rewrite Ht1, Ht2. cbn [fst snd].
    change (supplied_log_prob (inl (with_deprecated init lp0 rs0 b0)) None)
      with (supplied_log_prob init lp0).
    change (initial_snapshot (inl (with_deprecated init lp0 rs0 b0)) None)
      with (initial_snapshot init rs0).
    change (coords (State_init (inl (with_deprecated init lp0 rs0 b0))))
      with (coords (State_init init)).
    split_and!; [|done|].
    + destruct (supplied_log_prob init lp0) as [lp|] eqn:Hlp.
      * destruct (decide (length lp = nwalkers self)) as [Hlen|Hlen].
        -- rewrite (sample_initial_state_supplied init lp0 rs0 b0 skip self lp
                      ill) by done.
           rewrite (sample_initial_state_supplied
                      (inl (with_deprecated init lp0 rs0 b0)) None None None
                      skip self lp ill) by done.
           done.
        -- destruct (sample_checks_shapes_aux init lp0 rs0 b0 skip self lp ill)
             as [-> _]; try done.
           by destruct (sample_checks_shapes_aux
                          (inl (with_deprecated init lp0 rs0 b0)) None None
                          None skip self lp ill) as [-> _].
      * rewrite (sample_initial_state_computed init lp0 rs0 b0 skip self ill)
          by done.
        by rewrite (sample_initial_state_computed
                      (inl (with_deprecated init lp0 rs0 b0)) None None None
                      skip self ill) by done.
    + rewrite but_deprecations_app, but_deprecations_initial_warnings.
      f_equal. destruct (supplied_log_prob init lp0); [done|].
      apply but_deprecations_eval.
  - rewrite (sample_initial_state_wrong_shape init lp0 rs0 b0 skip self Hshape).
    by rewrite (sample_initial_state_wrong_shape
                  (inl (with_deprecated init lp0 rs0 b0)) None None None skip
                  self Hshape).
Qed.

(** X17: the deprecated arguments [log_prob0], [rstate0] and [blobs0] of
    [sample] do what the fields of a [State] do. A call with them and the
    call without them on the state that carries their values as its
    fields end alike: the same result, the same sampler and, but for the
    deprecation warnings of the first, the same events. *)
Theorem sample_deprecated_arguments (self : Sampler) init lp0 rs0 b0 iterations
    tune skip thin_by thin store progress :
  let out1 :=
    sample init lp0 rs0 b0 iterations tune skip thin_by thin store progress
      self in
  let out2 :=
    sample (inl (with_deprecated init lp0 rs0 b0)) None None None iterations
      tune skip thin_by thin store progress self in
  snd out1 = snd out2
  /\ snd (fst out1) = snd (fst out2)
  /\ but_deprecations (fst (fst out1)) = but_deprecations (fst (fst out2)).
Proof.
  cbv zeta.
  destruct (sample_initial_state_deprecated init lp0 rs0 b0 skip self)
    as (Hr & Hs & He).
  unfold sample, bind.
  destruct (sample_initial_state init lp0 rs0 b0 skip self)
    as [[ev1 s1] r1].
  destruct (sample_initial_state (inl (with_deprecated init lp0 rs0 b0)) None
              None None skip self) as [[ev2 s2] r2].
  cbn [fst snd] in *. subst r2 s2 ev2.
  destruct r1 as [e|state]; cbn [fst snd].
  - split_and!; try done. unfold but_deprecations.
    by rewrite list_filter_filter_l.
  - destruct (sample_steps _ _ _ _ _ _ s1) as [[ev s'] r]. cbn [fst snd].
    split_and!; try done.
    rewrite !but_deprecations_app. f_equal. unfold but_deprecations.
    by rewrite list_filter_filter_l.
Qed.

(** ** Resuming a run *)

(** Only the remainder of the round counter modulo [checkpoint_step]
    matters. *)
Lemma sample_round_shift map_fn tune store k c (st : St) i (self : Sampler) :
  sample_round map_fn tune store k (st, i + c * k) self
  = shift_counter (c * k) (sample_round map_fn tune store k (st, i) self).
Proof.
  unfold sample_round.
  replace (i + c * k + 1) with (i + 1 + c * k) by lia.
  rewrite Z_mod_plus_full.
  unfold bind at 1 8. destruct (choose_move self) as [[ev1 s1] [e|im]];
    [done|]. cbn [fst snd].
  unfold bind at 1 7.
  destruct (call_propose map_fn (fst im) (snd im) st s1)
    as [[ev2 s2] [e|r]]; [done|]. cbn [fst snd].
  unfold call_tune. run_m.
  destruct tune, (store && ((i + 1) mod k =? 0)); simpl; done.
Qed.

Lemma repeat_rounds_shift map_fn tune store k c n (st : St) i (self : Sampler) :
  repeat_rounds n (sample_round map_fn tune store k) (st, i + c * k) self
  = shift_counter (c * k)
      (repeat_rounds n (sample_round map_fn tune store k) (st, i) self).
Proof.
  revert st i self. induction n as [|n IH]; intros st i self; [done|].
  cbn [repeat_rounds]. unfold bind. rewrite sample_round_shift.
  destruct (sample_round _ _ _ _ (st, i) self) as [[ev1 s1] [e|[st1 i1]]];
    [done|].
  cbn [shift_counter]. rewrite IH.
  by destruct (repeat_rounds _ _ (st1, i1) s1) as [[ev2 s2] [e|[st2 i2]]].
Qed.

Lemma sample_loop_shift map_fn tune store k c n y (st : St) i (self : Sampler) :
  sample_loop n y (sample_round map_fn tune store k) (st, i + c * k) self
  = sample_loop n y (sample_round map_fn tune store k) (st, i) self.
Proof.
  revert st i self. induction n as [|n IH]; intros st i self; [done|].
  cbn [sample_loop]. unfold bind at 1 4. rewrite repeat_rounds_shift.
  destruct (repeat_rounds _ _ (st, i) self) as [[ev1 s1] [e|[st1 i1]]];
    [done|].
  cbn [shift_counter fst snd]. run_m. by rewrite IH.
Qed.

Lemma repeat_rounds_counter map_fn tune store k n (st : St) i (self : Sampler)
    ev self' st' i' :
  repeat_rounds n (sample_round map_fn tune store k) (st, i) self
    = (ev, self', inr (st', i')) ->
  i' = i + Z.of_nat n.
Proof.
  revert st i self ev. induction n as [|n IH]; intros st i self ev Hrun.
  - cbn [repeat_rounds] in Hrun. unfold ret in Hrun. simplify_eq. lia.
  - cbn [repeat_rounds] in Hrun. unfold bind in Hrun.
    pose proof (sample_round_saved map_fn tune store k st i self) as Hr.
    cbv zeta in Hr.
    destruct (sample_round _ _ _ _ _ self) as [[ev1 s1] [e|[st1 i1]]];
      [done|]. cbn [fst snd] in Hr. destruct Hr as (_ & -> & _).
    destruct (repeat_rounds _ _ _ s1) as [[ev2 s2] [e|[st2 i2]]] eqn:Hrest;
      simplify_eq.
    apply IH in Hrest. lia.
Qed.

Lemma sample_loop_length map_fn tune store k n y (st : St * Z) (self : Sampler)
    ev self' ys :
  sample_loop n y (sample_round map_fn tune store k) st self
    = (ev, self', inr ys) ->
  length ys = n.
Proof.
  intros H. pose proof (sample_loop_returns_yielded _ _ _ _ _ _ _ _ _ _ _ H).
  revert st self ev self' ys H H0. induction n as [|n IH];
    intros st self ev self' ys Hrun _.
  - cbn [sample_loop] in Hrun. unfold ret in Hrun. by simplify_eq.
  - cbn [sample_loop] in Hrun. unfold bind at 1 in Hrun.
    destruct (repeat_rounds _ _ _ self) as [[ev1 s1] [e|st1]]; [done|].
    run_m.
    destruct (sample_loop _ _ _ _ s1) as [[ev2 s2] [e|ys2]] eqn:Hl;
      simplify_eq/=.
    f_equal. eapply IH; [exact Hl|]. by eapply sample_loop_returns_yielded.
Qed.

(** A run of [n + m] blocks is a run of [n] blocks followed by a run of
    [m] blocks from the last state yielded. *)
Lemma sample_loop_split map_fn tune store k n m y (st : St) i (self : Sampler)
    ev1 self1 ys1 :
  sample_loop n y (sample_round map_fn tune store k) (st, i) self
    = (ev1, self1, inr ys1) ->
  sample_loop (n + m) y (sample_round map_fn tune store k) (st, i) self
  = match sample_loop m y (sample_round map_fn tune store k)
            (default st (last ys1), i + Z.of_nat (n * y)) self1 with
    | (ev2, self2, inl e) => (ev1 ++ ev2, self2, inl e)
    | (ev2, self2, inr ys2) => (ev1 ++ ev2, self2, inr (ys1 ++ ys2))
    end.
Proof.
  revert st i self ev1 self1 ys1. induction n as [|n IH];
    intros st i self ev1 self1 ys1 Hrun.
  - cbn [sample_loop] in Hrun. unfold ret in Hrun. simplify_eq.
    cbn [Nat.add Nat.mul last default]. change (Z.of_nat 0) with 0.
    rewrite Z.add_0_r.
    by destruct (sample_loop m _ _ _ _) as [[ev2 s2] [e|ys2]].
  - cbn [sample_loop Nat.add] in *. unfold bind at 1 in Hrun.
    unfold bind at 1.
    destruct (repeat_rounds _ _ _ self) as [[eva sa] [e|[sta ia]]] eqn:Hrr;
      [done|].
    apply repeat_rounds_counter in Hrr as ->.
    run_m. cbn [fst snd] in *.
    destruct (sample_loop n _ _ _ sa) as [[evb sb] [e|ysb]] eqn:Hl;
      simplify_eq/=.
    rewrite (IH _ _ _ _ _ _ Hl).
    rewrite default_last_cons.
    replace (i + Z.of_nat y + Z.of_nat (n * y))
      with (i + Z.of_nat (y + n * y)) by lia.
    destruct (sample_loop m _ _ _ _) as [[ev2 s2] [e|ys2]]; simpl;
      by rewrite ?app_nil_r, <- ?app_assoc.
Qed.

(** The state a round hands on carries the snapshot of the stream as the
    round leaves it. *)
Lemma sample_round_snapshot map_fn tune store k (st : St) i (self : Sampler)
    ev self' st' i' :
  sample_round map_fn tune store k (st, i) self = (ev, self', inr (st', i')) ->
  random_state st' = RSnap (_random self').
Proof.
  unfold sample_round, choose_move. unfold bind at 1.
  destruct (choice _ _ _) as [[e|[j m]] r]; cbn [fst snd]; [done|].
  unfold bind at 1, call_propose.
  destruct (propose m _ st) as [[[ev1 r1] m'] [e|[st1 mask]]];
    cbn [fst snd]; [done|].
  unfold call_tune. run_m.
  destruct tune, (store && ((i + 1) mod k =? 0)); simpl;
    intros ?; by simplify_eq.
Qed.

Lemma repeat_rounds_snapshot map_fn tune store k n (st : St) i (self : Sampler)
    ev self' st' i' :
  random_state st = RSnap (_random self) \/ (1 <= n)%nat ->
  repeat_rounds n (sample_round map_fn tune store k) (st, i) self
    = (ev, self', inr (st', i')) ->
  random_state st' = RSnap (_random self').
Proof.
  revert st i self ev. induction n as [|n IH]; intros st i self ev Hinv Hrun.
  - cbn [repeat_rounds] in Hrun. unfold ret in Hrun. simplify_eq.
    destruct Hinv; [done|lia].
  - cbn [repeat_rounds] in Hrun. unfold bind in Hrun.
    destruct (sample_round _ _ _ _ _ self) as [[ev1 s1] [e|[st1 i1]]] eqn:Hr;
      [done|].
    apply sample_round_snapshot in Hr.
    destruct (repeat_rounds _ _ _ s1) as [[ev2 s2] [e|[st2 i2]]] eqn:Hrest;
      simplify_eq.
    eapply IH; [|exact Hrest]. by left.
Qed.

Lemma sample_loop_snapshot map_fn tune store k n y (st : St) i (self : Sampler)
    ev self' ys :
  random_state st = RSnap (_random self) \/ ((1 <= n)%nat /\ (1 <= y)%nat) ->
  sample_loop n y (sample_round map_fn tune store k) (st, i) self
    = (ev, self', inr ys) ->
  random_state (default st (last ys)) = RSnap (_random self').
Proof.
  revert st i self ev ys. induction n as [|n IH];
    intros st i self ev ys Hinv Hrun.
  - cbn [sample_loop] in Hrun. unfold ret in Hrun. simplify_eq.
    destruct Hinv as [?|[? _]]; [done|lia].
  - cbn [sample_loop] in Hrun. unfold bind at 1 in Hrun.
    destruct (repeat_rounds _ _ _ self) as [[ev1 s1] [e|[st1 i1]]] eqn:Hrr;
      [done|].
    apply repeat_rounds_snapshot in Hrr; [|destruct Hinv as [?|[_ ?]]; auto].
    run_m. cbn [fst snd] in *.
    destruct (sample_loop n _ _ _ s1) as [[ev2 s2] [e|ys2]] eqn:Hl;
      simplify_eq/=.
    rewrite default_last_cons.
    eapply IH; [|exact Hl]. by left.
Qed.

Lemma apply_event_grow b d ex (e : event (rng := rng)) :
  apply_event (Backend_grow b d ex) e = Backend_grow (apply_event b e) d ex.
Proof.
  destruct e; try done. unfold apply_event, Backend_grow. simpl.
  f_equal. lia.
Qed.

Lemma replay_grow b d ex (ev : list (event (rng := rng))) :
  replay (Backend_grow b d ex) ev = Backend_grow (replay b ev) d ex.
Proof.
  revert b. induction ev as [|e ev IH]; intros b; [done|].
  change (replay ?b (e :: ev)) with (replay (apply_event b e) ev).
  by rewrite apply_event_grow, IH.
Qed.

Lemma sample_loop_replay map_fn tune store k n y (st : St * Z)
    (self : Sampler) :
  backend (snd (fst (sample_loop n y (sample_round map_fn tune store k)
                       st self)))
  = replay (backend self)
      (fst (fst (sample_loop n y (sample_round map_fn tune store k) st self))).
Proof.
  apply (tracks_sample_loop
           (fun s ev s' => backend s' = replay (backend s) ev));
    try done.
  - intros s ev s' ev' s'' H1 H2. by rewrite replay_app, <- H1.
  - intros s e He _. symmetry. apply replay_leaves. by constructor.
  - intros st'.
    apply (tracks_sample_round
             (fun s ev s' => backend s' = replay (backend s) ev) store);
      try done.
    + intros s ev s' ev' s'' H1 H2. by rewrite replay_app, <- H1.
    + intros s e He _. symmetry. apply replay_leaves. by constructor.
Qed.

Lemma sampler_eq (s1 s2 : Sampler) :
  same_stream s1 s2 -> backend s1 = backend s2 ->
  _previous_state s1 = _previous_state s2 -> s1 = s2.
Proof.
  intros [(?&?&?&?&?&?&?&?) ?] ? ?. destruct s1, s2. simpl in *. by subst.
Qed.

Lemma sample_loop_keeps_pool map_fn tune store k n y (st : St * Z)
    (self : Sampler) :
  pool (snd (fst (sample_loop n y (sample_round map_fn tune store k) st self)))
  = pool self.
Proof.
  apply (tracks_sample_loop (fun s _ s' => pool s' = pool s));
    try (intros; simpl in *; congruence).
  intros st'.
  apply (tracks_sample_round (fun s _ s' => pool s' = pool s) store);
    intros; simpl in *; congruence.
Qed.

Lemma sample_thin_by_run x lp0 rs0 b0 n tune skip k store progress
    (self self0 : Sampler) ev0 (state0 : St) :
  sample_initial_state x lp0 rs0 b0 skip self = (ev0, self0, inr state0) ->
  1 <= k ->
  sample x lp0 rs0 b0 (PyInt n) tune skip (PyInt k) None store progress self
  = match sample_loop (Z.to_nat n) (Z.to_nat k)
            (sample_round (select_map (pool self0)) tune store k) (state0, 0)
            (if store
             then set_backend
                    (Backend_grow (backend self0) n (blobs state0)) self0
             else self0) with
    | (ev, s', r) => (ev0 ++ (if store then [EvGrow n] else []) ++ ev, s', r)
    end.
Proof.
  intros Hinit Hk.
  rewrite (sample_continues_after_initial_state _ _ _ _ _ _ _ _ _ _ _ _ _ _ _
             Hinit).
  rewrite (sample_steps_thin_by state0 (PyInt n) tune (PyInt k) store k self0
             eq_refl).
  assert ((k <=? 0) = false) as -> by lia.
  unfold sample_run. run_m. simpl.
  destruct store; simpl;
    by destruct (sample_loop _ _ _ _ _) as [[ev s'] [e|ys]].
Qed.

Lemma sample_initial_state_resumes skip (self : Sampler) (s : St) :
  valid_state skip self s ->
  random_state s = RSnap (_random self) ->
  exists evw,
    sample_initial_state (inl s) None None None skip self
      = (evw, self, inr s)
    /\ skeleton evw = [].
Proof.
  intros (Hshape & [ill Hill] & lp & Hlp & Hlen & Hnan) Hsnap.
  pose proof (sample_initial_state_trace (inl s) None None None skip self ill
                Hshape Hill) as Htr.
  pose proof (sample_initial_state_supplied (inl s) None None None skip self lp
                ill Hshape Hill Hlp Hlen) as Hres.
  pose proof (sample_initial_state_silent (inl s) None None None skip self)
    as Hsil.
  destruct (sample_initial_state (inl s) None None None skip self)
    as [[evw self'] r]. cbn [fst snd] in *.
  exists evw. split; [|done].
  rewrite Hnan in Hres. subst r.
  unfold initial_snapshot, seeded in Htr. simpl in Htr. rewrite Hsnap in Htr.
  simpl in Htr. rewrite set_random_same in Htr. simplify_eq.
  do 2 f_equal. destruct s. simpl in *. by subst.
Qed.

Lemma Backend_grow_grow (b : Backend (rng := rng)) n m ex ex' ex'' :
  Backend_grow (Backend_grow b n ex) m ex' = Backend_grow b (n + m) ex''.
Proof. unfold Backend_grow. simpl. f_equal. lia. Qed.

(** X18: a run may be made in two. When [run_mcmc] has made [n >= 1]
    steps and returned a state that passes the checks of [sample]
    (among them the condition number of line 246, which the second run
    computes again unless it skips the check),
    [run_mcmc(None, m)] with the same [thin_by], [tune] and [store] goes
    on as the run of [n + m] steps would have: the rounds of the long run
    are those of the first run followed by those of the second, the two
    end with the same result or the same exception, and when they return
    they leave the same sampler: moves, stream, backend and remembered
    state. *)
Theorem run_mcmc_resumes_where_it_stopped (self self1 : Sampler) x lp0 rs0 b0
    tune skip skip' store progress progress' (n m k : Z) ev1 (s : St) :
  1 <= n -> 1 <= m -> 1 <= k ->
  run_mcmc (Some x) (PyInt n) lp0 rs0 b0 tune skip (PyInt k) None store
    progress self = (ev1, self1, inr (Some s)) ->
  valid_state skip' self1 s ->
  let resumed :=
    run_mcmc None (PyInt m) None None None tune skip' (PyInt k) None store
      progress' self1 in
  let whole :=
    run_mcmc (Some x) (PyInt (n + m)) lp0 rs0 b0 tune skip (PyInt k) None store
      progress self in
  snd whole = snd resumed
  /\ skeleton (fst (fst whole)) = skeleton ev1 ++ skeleton (fst (fst resumed))
  /\ forall r, snd whole = inr r -> snd (fst whole) = snd (fst resumed).
Proof.
  intros Hn Hm Hk H1 Hvalid. cbv zeta.
  (* the first run *)
  rewrite run_mcmc_unfold in H1.
  destruct (sample x lp0 rs0 b0 (PyInt n) tune skip (PyInt k) None store
              progress self) as [[ev1' sB1] [e|ys1]] eqn:HsB; [done|].
  injection H1 as <- <- Hlast.
  pose proof HsB as HsB'.
  unfold sample in HsB'. unfold bind at 1 in HsB'.
  pose proof (sample_initial_state_silent x lp0 rs0 b0 skip self) as Hsil0.
  destruct (sample_initial_state x lp0 rs0 b0 skip self)
    as [[ev0 self0] [e|state0]] eqn:Hinit; [done|].
  simpl in Hsil0. clear HsB'.
  pose proof (sample_thin_by_run x lp0 rs0 b0 n tune skip k store progress
                self self0 ev0 state0 Hinit Hk) as HrunB.
  pose proof (sample_thin_by_run x lp0 rs0 b0 (n + m) tune skip k store progress
                self self0 ev0 state0 Hinit Hk) as HrunA.
  set (body := sample_round (select_map (pool self0)) tune store k) in *.
  set (selfB := if store
                then set_backend
                       (Backend_grow (backend self0) n (blobs state0)) self0
                else self0) in *.
  set (selfA := if store
                then set_backend
                       (Backend_grow (backend self0) (n + m) (blobs state0))
                       self0
                else self0) in *.
  assert (same_stream selfA selfB) as HAB.
  { subst selfA selfB. by destruct store; repeat split. }
  (* the first [n] blocks, on either sampler *)
  destruct (agree_sample_loop (Z.to_nat n) (Z.to_nat k) body (state0, 0)
              (fun st => agree_sample_round _ tune store k st)
              selfA selfB HAB) as (HevAB & HresAB & HQAB).
  pose proof (sample_loop_replay (select_map (pool self0)) tune store k
                (Z.to_nat n) (Z.to_nat k) (state0, 0) selfA) as HrepA1.
  pose proof (sample_loop_replay (select_map (pool self0)) tune store k
                (Z.to_nat n) (Z.to_nat k) (state0, 0) selfB) as HrepB1.
  fold body in HrepA1, HrepB1.
  destruct (sample_loop (Z.to_nat n) (Z.to_nat k) body (state0, 0) selfB)
    as [[evl1 sB1'] r1] eqn:HloopB.
  destruct (sample_loop (Z.to_nat n) (Z.to_nat k) body (state0, 0) selfA)
    as [[evl1' sA1] r1'] eqn:HloopA.
  cbn [fst snd] in *. subst evl1' r1'.
  rewrite HrunB in HsB. injection HsB as Hev Hs Hr. subst ev1' sB1' r1.
  destruct (HQAB ys1 eq_refl) as [_ HQ1].
  (* the stream snapshot of the state returned *)
  assert (random_state s = RSnap (_random sB1)) as Hsnap.
  { assert ((1 <= Z.to_nat n)%nat /\ (1 <= Z.to_nat k)%nat) as Hnk by lia.
    pose proof (sample_loop_snapshot _ _ _ _ _ _ _ _ _ _ _ _
                  (or_intror Hnk) HloopB) as H.
    by rewrite Hlast in H. }
  (* the second run *)
  rewrite Hlast in Hvalid |- *.
  set (self1 := set_previous_state (Some (Some s)) sB1) in *.
  rewrite (run_mcmc_resumes s) by done.
  rewrite !run_mcmc_unfold.
  destruct (sample_initial_state_resumes skip' self1 s Hvalid Hsnap)
    as (evw & Hinit2 & Hsilw).
  rewrite (sample_thin_by_run (inl s) None None None m tune skip' k store
             progress' self1 self1 evw s Hinit2 Hk).
  rewrite HrunA.
  change (pool self1) with (pool sB1).
  assert (pool sB1 = pool self0) as ->.
  { pose proof (sample_loop_keeps_pool (select_map (pool self0)) tune store k
                  (Z.to_nat n) (Z.to_nat k) (state0, 0) selfB) as Hf.
    fold body in Hf. rewrite HloopB in Hf. simpl in Hf. rewrite Hf.
    subst selfB. by destruct store. }
  fold body.
  set (selfB2 := if store
                 then set_backend
                        (Backend_grow (backend self1) m (blobs s)) self1
                 else self1) in *.
  (* the long run, split *)
  replace (Z.to_nat (n + m)) with (Z.to_nat n + Z.to_nat m)%nat by lia.
  rewrite (sample_loop_split _ _ _ _ _ _ _ _ _ _ _ _ _ HloopA).
  rewrite Hlast. change (default state0 (Some s)) with s.
  replace (0 + Z.of_nat (Z.to_nat n * Z.to_nat k)) with (0 + n * k) by lia.
  unfold body at 1. rewrite sample_loop_shift. fold body.
  assert (same_stream sA1 selfB2) as HA2.
  { destruct HQ1 as [Hc Hr]. subst selfB2 self1.
    by destruct store; split. }
  destruct (agree_sample_loop (Z.to_nat m) (Z.to_nat k) body (s, 0)
              (fun st => agree_sample_round _ tune store k st)
              sA1 selfB2 HA2) as (Hev2 & Hres2 & HQ2).
  pose proof (sample_loop_replay (select_map (pool self0)) tune store k
                (Z.to_nat m) (Z.to_nat k) (s, 0) sA1) as HrepA2.
  pose proof (sample_loop_replay (select_map (pool self0)) tune store k
                (Z.to_nat m) (Z.to_nat k) (s, 0) selfB2) as HrepB2.
  fold body in HrepA2, HrepB2.
  pose proof (sample_loop_length (select_map (pool self0)) tune store k
                (Z.to_nat m) (Z.to_nat k) (s, 0) selfB2) as Hlen2.
  fold body in Hlen2.
  destruct (sample_loop (Z.to_nat m) (Z.to_nat k) body (s, 0) sA1)
    as [[ev2 sA2] r2].
  destruct (sample_loop (Z.to_nat m) (Z.to_nat k) body (s, 0) selfB2)
    as [[ev2' sB3] r2'].
  cbn [fst snd] in *. subst ev2' r2'.
  assert (skeleton (ev0 ++ (if store then [EvGrow (n + m)] else [])
                      ++ evl1 ++ ev2)
          = skeleton (ev0 ++ (if store then [EvGrow n] else []) ++ evl1)
            ++ skeleton (evw ++ (if store then [EvGrow m] else []) ++ ev2))
    as Hskel.
  { rewrite !skeleton_app, Hsil0, Hsilw.
    destruct store; simpl; by rewrite <- ?app_assoc. }
  destruct r2 as [e|ys2]; cbn [fst snd].
  { split_and!; [done|exact Hskel|done]. }
  assert (last (ys1 ++ ys2) = last ys2) as Hl2.
  { rewrite last_app. specialize (Hlen2 _ _ _ eq_refl).
    destruct ys2 as [|y ys2] using rev_ind; [simpl in Hlen2; lia|].
    by rewrite last_snoc. }
  rewrite Hl2. split_and!; [done|exact Hskel|].
  intros r _. destruct (HQ2 ys2 eq_refl) as [_ HQ3].
  apply sampler_eq; [by destruct HQ3 as [Hc Hr]; split| |done].
  simpl. rewrite HrepA2, HrepB2, HrepA1.
  subst selfB2 self1 selfA selfB.
  destruct store; simpl in *; rewrite HrepB1; simpl; [|done].
  rewrite !replay_grow. symmetry. apply Backend_grow_grow.
Qed.

(** ** Runs on another backend *)

Lemma agree_sample_initial_state_stream init lp0 rs0 b0 skip :
  agree same_stream same_stream any
    (sample_initial_state init lp0 rs0 b0 skip).
Proof.
  unfold sample_initial_state. cbv zeta.
  eapply agree_bind.
  { apply agree_gets. by intros s1 s2 [(_ & _ & _ & _ & _ & _ & Hn & _) _]. }
  intros nw _. eapply agree_bind.
  { apply agree_gets. by intros s1 s2 [(_ & _ & _ & _ & _ & Hd & _) _]. }
  intros nd _. destruct (negb _); [apply agree_raise|].
  eapply agree_bind; [apply agree_lift|]. intros ill _.
  eapply agree_bind.
  { apply agree_when. unfold runtime_warning. apply agree_emit. }
  intros _ _.
  eapply agree_bind with (V := any).
  { destruct rs0 as [r0|].
    - eapply agree_bind; [apply agree_emit|]. intros _ _.
      by apply agree_ret.
    - by apply agree_ret. }
  intros st _.
  eapply agree_bind; [apply agree_set_random_state|]. intros _ _.
  eapply agree_bind with (V := any).
  { destruct lp0; [|by apply agree_ret].
    eapply agree_bind; [apply agree_emit|]. intros _ _. by apply agree_ret. }
  intros st1 _.
  eapply agree_bind with (V := any).
  { destruct b0; [|by apply agree_ret].
    eapply agree_bind; [apply agree_emit|]. intros _ _. by apply agree_ret. }
  intros st2 _.
  eapply agree_bind with (V := any).
  { destruct (log_prob st2); [by apply agree_ret|].
    eapply agree_bind.
    - apply agree_compute_log_prob. apply same_stream_config.
    - intros res _. by apply agree_ret. }
  intros st3 _.
  destruct (log_prob st3) as [lp|]; [|apply agree_raise].
  destruct (negb _); [apply agree_raise|].
  destruct (existsb isnan lp); [apply agree_raise|].
  by apply agree_ret.
Qed.

Lemma agree_sample_stream init lp0 rs0 b0 iterations tune skip thin_by thin
    store progress :
  agree same_stream same_stream any
    (sample init lp0 rs0 b0 iterations tune skip thin_by thin store progress).
Proof.
  unfold sample. eapply agree_bind.
  - apply agree_sample_initial_state_stream.
  - intros st _. apply agree_sample_steps.
Qed.

(** Samplers that differ in their backends only run alike. *)
Lemma run_mcmc_whatever_the_backend (s1 s2 : Sampler) x nsteps lp0 rs0 b0 tune
    skip thin_by thin store progress :
  same_stream s1 s2 -> _previous_state s1 = _previous_state s2 ->
  let out1 :=
    run_mcmc x nsteps lp0 rs0 b0 tune skip thin_by thin store progress s1 in
  let out2 :=
    run_mcmc x nsteps lp0 rs0 b0 tune skip thin_by thin store progress s2 in
  fst (fst out1) = fst (fst out2)
  /\ snd out1 = snd out2
  /\ forall r, snd out1 = inr r ->
       same_stream (snd (fst out1)) (snd (fst out2))
       /\ _previous_state (snd (fst out1)) = _previous_state (snd (fst out2)).
Proof.
  intros Hs Hp. cbv zeta.
  assert (forall init,
    fst (fst (run_mcmc (Some init) nsteps lp0 rs0 b0 tune skip thin_by thin
                store progress s1))
    = fst (fst (run_mcmc (Some init) nsteps lp0 rs0 b0 tune skip thin_by thin
                  store progress s2))
    /\ snd (run_mcmc (Some init) nsteps lp0 rs0 b0 tune skip thin_by thin store
              progress s1)
       = snd (run_mcmc (Some init) nsteps lp0 rs0 b0 tune skip thin_by thin
                store progress s2)
    /\ forall r,
         snd (run_mcmc (Some init) nsteps lp0 rs0 b0 tune skip thin_by thin
                store progress s1) = inr r ->
         same_stream
           (snd (fst (run_mcmc (Some init) nsteps lp0 rs0 b0 tune skip thin_by
                        thin store progress s1)))
           (snd (fst (run_mcmc (Some init) nsteps lp0 rs0 b0 tune skip thin_by
                        thin store progress s2)))
         /\ _previous_state
              (snd (fst (run_mcmc (Some init) nsteps lp0 rs0 b0 tune skip
                           thin_by thin store progress s1)))
            = _previous_state
                (snd (fst (run_mcmc (Some init) nsteps lp0 rs0 b0 tune skip
                             thin_by thin store progress s2)))) as Hsome.
  { intros init. rewrite !run_mcmc_unfold.
    destruct (agree_sample_stream init lp0 rs0 b0 nsteps tune skip thin_by thin
                store progress s1 s2 Hs) as (Hev & Hres & Hpost).
    destruct (sample init _ _ _ _ _ _ _ _ _ _ s1) as [[ev1 s1'] r1].
    destruct (sample init _ _ _ _ _ _ _ _ _ _ s2) as [[ev2 s2'] r2].
    cbn [fst snd] in *. subst ev2 r2.
    destruct r1 as [e|ys]; cbn [fst snd]; [done|].
    split_and!; try done. intros r _.
    destruct (Hpost ys eq_refl) as [_ [Hc Hr]]. by split. }
  destruct x as [init|]; [apply Hsome|].
  destruct (_previous_state s1) as [[s|]|] eqn:Hp1; symmetry in Hp.
  - rewrite (run_mcmc_resumes s _ _ _ _ _ _ _ _ _ _ s1 Hp1).
    rewrite (run_mcmc_resumes s _ _ _ _ _ _ _ _ _ _ s2 Hp). apply Hsome.
  - rewrite (run_mcmc_nothing_recorded _ _ _ _ _ _ _ _ _ _ s1 Hp1).
    by rewrite (run_mcmc_nothing_recorded _ _ _ _ _ _ _ _ _ _ s2 Hp).
  - rewrite (run_mcmc_attribute_missing _ _ _ _ _ _ _ _ _ _ s1 Hp1).
    by rewrite (run_mcmc_attribute_missing _ _ _ _ _ _ _ _ _ _ s2 Hp).
Qed.

(** X19: [reset] empties the backend and nothing else: the random stream
    and the remembered state are as before. So a [run_mcmc] after
    [reset()] causes the events and ends with the result or the exception
    it would have had without it, [run_mcmc(None, ...)] included, and
    leaves the same stream, moves and remembered state; the backends
    differ. *)
Theorem reset_keeps_stream_and_memory (self : Sampler) x nsteps lp0 rs0 b0 tune
    skip thin_by thin store progress :
  let fresh := snd (fst (reset self)) in
  let out1 :=
    run_mcmc x nsteps lp0 rs0 b0 tune skip thin_by thin store progress self in
  let out2 :=
    run_mcmc x nsteps lp0 rs0 b0 tune skip thin_by thin store progress fresh in
  reset self = ([], fresh, inr tt)
  /\ backend fresh = Backend_reset (backend self) (nwalkers self) (ndim self)
  /\ _random fresh = _random self
  /\ _previous_state fresh = _previous_state self
  /\ fst (fst out1) = fst (fst out2)
  /\ snd out1 = snd out2
  /\ forall r, snd out1 = inr r ->
       _random (snd (fst out1)) = _random (snd (fst out2))
       /\ _moves (snd (fst out1)) = _moves (snd (fst out2))
       /\ _previous_state (snd (fst out1)) = _previous_state (snd (fst out2)).
Proof.
  cbv zeta. split_and!; try done.
  - apply run_mcmc_whatever_the_backend; [|done]. by repeat split.
  - apply run_mcmc_whatever_the_backend; [|done]. by repeat split.
  - intros r Hr.
    destruct (run_mcmc_whatever_the_backend self (snd (fst (reset self))) x
                nsteps lp0 rs0 b0 tune skip thin_by thin store progress)
      as (_ & _ & Hpost); [by repeat split|done|].
    destruct (Hpost r Hr) as [[(Hm & _) Hrand] Hprev]. by split_and!.
Qed.

(** ** A new sampler on a used backend *)

Lemma replay_random_state b (ev : list (event (rng := rng))) :
  backend_random_state (replay b ev)
  = match last (saved ev) with
    | Some st => random_state st
    | None => backend_random_state b
    end.
Proof.
  revert b. induction ev as [|e ev IH]; intros b; [done|].
  change (replay b (e :: ev)) with (replay (apply_event b e) ev).
  rewrite IH. destruct e as [| | | | | | |st msk| |]; try done.
  change (saved (EvSave st msk :: ev)) with (st :: saved ev).
  rewrite last_cons. by destruct (last (saved ev)).
Qed.

(** The chain and the snapshot of the backend after a stored run. *)
Lemma sample_chain_yielded (self : Sampler) init lp0 rs0 b0 iterations tune
    skip thin_by progress :
  let out :=
    sample init lp0 rs0 b0 iterations tune skip thin_by None true progress
      self in
  saved (fst (fst out)) = yielded (fst (fst out))
  /\ backend (snd (fst out)) = replay (backend self) (fst (fst out)).
Proof.
  cbv zeta.
  destruct (sample_frame_replay self init lp0 rs0 b0 iterations tune skip
              thin_by None true progress) as (_ & Hr & _).
  split; [|done]. unfold sample, bind.
  pose proof (sample_initial_state_silent init lp0 rs0 b0 skip self) as Hsil.
  destruct (sample_initial_state init lp0 rs0 b0 skip self)
    as [[ev0 self0] [e|state]]; simpl in Hsil; cbn [fst snd].
  { by rewrite (skeleton_saved _ Hsil), (skeleton_yielded _ Hsil). }
  destruct (sample_steps_saved state iterations tune thin_by self0)
    as (Hs & Hys).
  destruct (sample_steps _ _ _ _ _ _ self0) as [[ev self'] r].
  cbn [fst snd] in *.
  rewrite saved_app, yielded_app, (skeleton_saved _ Hsil),
    (skeleton_yielded _ Hsil). simpl. by rewrite Hs.
Qed.

(** X20: a backend carries the run. After a [run_mcmc] with [store] set
    (and [thin] left out, [thin_by >= 1]) that returns a state, on an
    initialized backend of the sampler's shape: [get_last_sample] is the
    state returned, and a new sampler built on that backend, with any
    moves that parse, keeps the backend as it is, remembers that state as
    its previous state and has its stream in the state in which the run
    left the stream of the old sampler. *)
Theorem new_sampler_on_used_backend (self self' : Sampler) x lp0 rs0 b0 tune
    skip progress (n k : Z) ev (s : St)
    nw nd f pl mv ar kw vec bd a t l rs amb ent ms ws :
  1 <= k ->
  initialized (backend self) = true ->
  shape (backend self) = (nw, nd) ->
  0 <= iteration (backend self) ->
  run_mcmc (Some x) (PyInt n) lp0 rs0 b0 tune skip (PyInt k) None true progress
    self = (ev, self', inr (Some s)) ->
  parse_moves mv = inr (ms, ws) ->
  get_last_sample self' = inr s
  /\ exists s_new : Sampler,
       snd (__init__ nw nd f pl mv ar kw (Some (backend self')) vec bd a t l rs
              amb ent) = inr s_new
       /\ backend s_new = backend self'
       /\ _previous_state s_new = Some (Some s)
       /\ _random s_new = _random self'.
Proof.
  intros Hk Hinit Hshape Hit Hrun Hmv.
  rewrite run_mcmc_unfold in Hrun.
  destruct (sample x lp0 rs0 b0 (PyInt n) tune skip (PyInt k) None true
              progress self) as [[ev' s1] [e|ys]] eqn:Hs; [done|].
  injection Hrun as <- <- Hlast.
  (* the stream snapshot of the state returned *)
  assert (random_state s = RSnap (_random s1)) as Hsnap.
  { pose proof Hs as Hs'. unfold sample in Hs'. unfold bind at 1 in Hs'.
    destruct (sample_initial_state x lp0 rs0 b0 skip self)
      as [[ev0 self0] [e|state0]] eqn:Hi; [done|]. clear Hs'.
    rewrite (sample_thin_by_run x lp0 rs0 b0 n tune skip k true progress self
               self0 ev0 state0 Hi Hk) in Hs.
    destruct (sample_loop _ _ _ _ _) as [[evl sl] rl] eqn:Hloop.
    injection Hs as _ -> ->.
    pose proof (sample_loop_length _ _ _ _ _ _ _ _ _ _ _ Hloop) as Hlen.
    assert ((1 <= Z.to_nat n)%nat /\ (1 <= Z.to_nat k)%nat) as Hnk.
    { split; [|lia]. destruct ys; [done|]. simpl in Hlen. lia. }
    pose proof (sample_loop_snapshot _ _ _ _ _ _ _ _ _ _ _ _
                  (or_intror Hnk) Hloop) as H.
    by rewrite Hlast in H. }
  destruct (sample_chain_yielded self x lp0 rs0 b0 (PyInt n) tune skip
              (PyInt k) progress) as (Hsv & Hrep).
  rewrite Hs in Hsv, Hrep. cbn [fst snd] in *.
  pose proof (sample_returns_yielded _ _ _ _ _ _ _ _ _ _ _ _ _ _ _ Hs) as Hys.
  destruct (replay_chain (backend self) ev') as (Hc & Hi & Hsh & Hin).
  pose proof (replay_random_state (backend self) ev') as Hrs.
  rewrite Hsv, <- Hys in Hc, Hi, Hrs. rewrite Hlast in Hrs.
  assert (last (chain (backend s1)) = Some s) as Hlc.
  { rewrite Hrep, Hc, last_app. by rewrite Hlast. }
  assert (0 < iteration (backend s1)) as Hpos.
  { rewrite Hrep, Hi. destruct ys; [done|]. simpl length. lia. }
  split.
  { unfold get_last_sample, Backend_get_last_sample. simpl. by rewrite Hlc. }
  unfold __init__. rewrite Hmv. cbv zeta. simpl.
  rewrite Hrep, Hin, Hinit, Hsh, Hshape. simpl.
  rewrite bool_decide_eq_true_2 by done. simpl.
  rewrite Hrs, Hsnap. rewrite <- Hrep.
  assert ((0 <? iteration (backend s1)) = true) as -> by lia.
  unfold Backend_get_last_sample. rewrite Hlc. simpl.
  eexists. by split_and!.
Qed.

End SamplerProperties.

(** * The properties on the concrete instance *)

Module ToyFacts.
Import Toy.

Lemma toy_draw_in_range (r : nat) (p : list npfloat) :
  p <> [] -> (fst (rng_draw r p) < length p)%nat.
Proof.
  intros Hp. simpl. apply Nat.mod_upper_bound.
  by destruct p.
Qed.

(** The log-density is the Gaussian and the walkers stay where it is
    finite: the evaluation of a swap returns. *)
Lemma swap_proposals_return :
  proposals_return (fun _ => True) swapped swap_sampler.
Proof.
  intros m r st _ Hst.
  assert (exists ev lp blob,
             compute_log_prob_fun swap_sampler (reverse (coords st))
               = (ev, inr (lp, blob))) as (ev & lp & blob & Hev).
  { destruct Hst as [-> | ->]; vm_compute; eauto. }
  exists ev, (S r), m,
    (mk_State (reverse (coords st)) (Some lp) blob (random_state st)),
    (replicate (length (reverse (coords st))) true).
  split_and!; try done.
  - unfold propose, swap_move.
    cbn [compute_log_prob_fn random log_prob_fn]. by rewrite Hev.
  - unfold swapped, with_random_state. cbn [coords].
    destruct Hst as [-> | ->]; [by right|by left].
Qed.

Lemma swap_sampler_schedule_ok : schedule_ok swap_sampler.
Proof. by vm_compute. Qed.

Lemma toy_propose_no_thinning_error
    (m : nat) (mdl : Model) (st : State) ev r m' e :
  propose m mdl st = (ev, r, m', inl e) -> kind_of e <> InvalidThinningError.
Proof. simpl. discriminate. Qed.

Lemma toy_np_array_contract (l : list pyval) (dt : dtype) (a : ndarray) :
  np_array l dt = inr a ->
  nd_dtype a = dt /\ head (nd_shape a) = Some (length l).
Proof. simpl. by intros [= <-]. Qed.

Lemma new_sampler_builds f : new_sampler f = inr (sampler_with f).
Proof. reflexivity. Qed.

(** The rounds of a run with [iterations = 2], [thin_by = 3], [tune]
    and [store] set, with a move that evaluates the log-density. The
    initial state carries no snapshot; the states yielded do. *)
Lemma sample_rounds_yields_checkpoints_witness :
  random_state (State_init (rng := nat) (inr x0)) = RNone
  /\ exists ev self' ys,
    sample (inr x0) None None None (PyInt 2) true false (PyInt 3) None true
      false swap_sampler = (ev, self', inr ys)
    /\ skeleton ev = concat (replicate (Z.to_nat 2) (block_skeleton true (Z.to_nat 3)))
    /\ yielded ev = ys
    /\ Z.of_nat (length ys) = 2
    /\ Z.of_nat (count_token TChoice (skeleton ev)) = 2 * 3
    /\ Z.of_nat (count_token TPropose (skeleton ev)) = 2 * 3
    /\ Z.of_nat (count_token TSnapshot (skeleton ev)) = 2 * 3
    /\ Z.of_nat (count_token TYield (skeleton ev)) = 2
    /\ Z.of_nat (count_token TSave (skeleton ev)) = 2
    /\ stored self' = stored swap_sampler + 2
    /\ Forall (fun y => exists r, random_state y = RSnap r) ys
    /\ (exists y, last ys = Some y /\ random_state y = RSnap (_random self'))
    /\ (true = true -> saved ev = ys).
Proof.
  split; [reflexivity|].
  eapply (sample_rounds_yields_checkpoints toy_draw_in_range (fun _ => True)
            swapped swap_sampler _ (inr x0) None None None true false true
            false 2 3).
  - exact swap_sampler_schedule_ok.
  - exact swap_proposals_return.
  - by repeat constructor.
  - vm_compute. reflexivity.
  - by left.
  - lia.
  - lia.
Defined.

(** Reproducibility on a new sampler and on one with another stream and a used
    backend, from a state that carries a snapshot. *)
Lemma sample_is_reproducible_witness :
  let out1 := sample (inl state3) None None None (PyInt 2) true true (PyInt 2)
                None true false sampler in
  let out2 := sample (inl state3) None None None (PyInt 2) true true (PyInt 2)
                None true false used_sampler in
  fst (fst out1) = fst (fst out2)
  /\ yielded (fst (fst out1)) = yielded (fst (fst out2))
  /\ snd out1 = snd out2
  /\ (forall ys, snd out1 = inr ys ->
                 _random (snd (fst out1)) = _random (snd (fst out2))
                 /\ _moves (snd (fst out1)) = _moves (snd (fst out2))).
Proof.
  apply (sample_is_reproducible sampler used_sampler (inl state3) None None None
           (PyInt 2) true true (PyInt 2) None true false 3%nat).
  - by vm_compute.
  - reflexivity.
Defined.

(** C3: a sampler built on a backend that was reset and holds no step
    has no [_previous_state] attribute, and [run_mcmc(None, 1)] on it ends
    in an [AttributeError], not in the "Cannot have `initial_state=None`"
    [ValueError] that a sampler built on a new backend raises. *)
Theorem run_mcmc_none_on_reset_backend :
  (exists s,
      sampler_on_reset_backend = inr s
      /\ _previous_state s = None
      /\ run_mcmc None (PyInt 1) None None None false true (PyInt 1) None true
           false s = ([], s, inl (AttributeError "_previous_state")))
  /\ _previous_state sampler = Some None
  /\ run_mcmc None (PyInt 1) None None None false true (PyInt 1) None true
       false sampler = ([], sampler, inl (ValueError msg_missing)).
Proof.
  split; [|split; reflexivity].
  eexists. split; [reflexivity|]. split; reflexivity.
Qed.

(** The NaN checks on a state that comes with a NaN log-probability and on a
    log-density that is NaN everywhere. *)
Lemma nan_log_prob_is_rejected_witness :
  (snd (sample (inl nan_state) None None None (PyInt 1) false false (PyInt 1)
          None true false sampler) = inl (ValueError msg_lp0_nan)
   /\ yielded (fst (fst (sample (inl nan_state) None None None (PyInt 1) false
                           false (PyInt 1) None true false sampler))) = [])
  /\ (snd (sample (inr x0) None None None (PyInt 1) false false (PyInt 1)
             None true false nan_sampler) = inl (ValueError msg_lp_nan)
      /\ yielded (fst (fst (sample (inr x0) None None None (PyInt 1) false
                              false (PyInt 1) None true false nan_sampler)))
         = []).
Proof.
  split.
  - apply (proj1 (proj2 (nan_log_prob_is_rejected sampler))
             (inl nan_state) None None None (PyInt 1) false false (PyInt 1)
             None true false [Finite 0; NaN] false); reflexivity.
  - eapply (proj1 (proj2 (proj2 (nan_log_prob_is_rejected nan_sampler)))
              (inr x0) None None None (PyInt 1) false false (PyInt 1) None
              true false); reflexivity.
Defined.

(** The coordinate check on an infinite coordinate and on the regular
    ensemble. *)
Lemma compute_log_prob_rejects_unphysical_coordinates_witness :
  (exists e, snd (compute_log_prob [[PosInf]] sampler) = inl e
             /\ kind_of e = InvalidParameterError)
  /\ fst (fst (compute_log_prob [[PosInf]] sampler)) = []
  /\ ~ (exists e, snd (compute_log_prob x0 sampler) = inl e
                  /\ kind_of e = InvalidParameterError).
Proof.
  split; [|split].
  - apply (proj1 (compute_log_prob_rejects_unphysical_coordinates sampler
                    [[PosInf]])). reflexivity.
  - apply (proj2 (compute_log_prob_rejects_unphysical_coordinates sampler
                    [[PosInf]])). reflexivity.
  - intros H.
    apply (proj1 (compute_log_prob_rejects_unphysical_coordinates sampler x0))
      in H. discriminate H.
Defined.

(** Blob detection on the log-density that hands back a blob. *)
Lemma structural_blob_detection_witness :
  exists blob,
    snd (compute_log_prob x0 blob_sampler)
      = inr ([Finite 0; Finite (- (1 * 1) + 0)], Some blob)
    /\ nd_dtype blob = DFloat64
    /\ head (nd_shape blob) = Some 2%nat
    /\ (forall d, d ∈ tail (nd_shape blob) -> d <> 1%nat).
Proof.
  destruct (structural_blob_detection blob_sampler x0
              [EvCall (Row [Finite 0]); EvCall (Row [Finite 1])]
              [PySeq [PyFloat (Finite (0 + 0)); PyFloat (Finite 0)];
               PySeq [PyFloat (Finite (- (1 * 1) + 0)); PyFloat (Finite 1)]]
              toy_np_array_contract eq_refl eq_refl)
    as (_ & Hseq & _); [discriminate|].
  destruct (Hseq
              ltac:(repeat constructor; by eexists)
              DFloat64
              (mk_ndarray DFloat64 [2; 1]%nat
                 [PySeq [PyFloat (Finite 0)]; PySeq [PyFloat (Finite 1)]])
              eq_refl eq_refl)
    as (Hrun & Hdt & _ & Hhead & _ & Hax & _).
  eexists. rewrite Hrun. split; [reflexivity|]. by split_and!.
Defined.

(** Before any step is stored every entry of the acceptance fraction is
    NaN, so none lies in [0, 1]. *)
Lemma acceptance_fraction_before_first_step :
  iteration (backend sampler) = 0
  /\ acceptance_fraction sampler = [NaN; NaN]
  /\ ~ Forall in_unit_interval (acceptance_fraction sampler).
Proof.
  split; [reflexivity|]. split; [reflexivity|].
  intros H. apply Forall_cons in H as [H _]. exact H.
Qed.

(** The acceptance fraction on the backend after one stored step. *)
Lemma acceptance_fraction_range_witness :
  acceptance_fraction used_sampler = [Finite (1 / 1); Finite (0 / 1)]
  /\ Forall in_unit_interval (acceptance_fraction used_sampler).
Proof.
  apply (proj1 (acceptance_fraction_range used_sampler)).
  - reflexivity.
  - repeat constructor; vm_compute; discriminate.
Defined.

(** [thin_by = 1.5] and [thin = 1.5] are accepted: the value is not a
    positive integer and the run goes through. *)
Lemma thinning_one_and_a_half_is_accepted :
  py_int (PyFloat (Finite (3 # 2))) = inr 1
  /\ (exists ys, snd (sample (inr x0) None None None (PyInt 2) false true
                        (PyFloat (Finite (3 # 2))) None true false sampler)
                 = inr ys /\ length ys = 2%nat)
  /\ (exists ys, snd (sample (inr x0) None None None (PyInt 2) false true
                        (PyInt 1) (Some (PyFloat (Finite (3 # 2)))) true false
                        sampler)
                 = inr ys /\ length ys = 2%nat).
Proof.
  split; [reflexivity|]. split; eexists; (split; [reflexivity|reflexivity]).
Qed.

(** The thinning check at [0.5], which [int()] truncates to 0. *)
Lemma thinning_is_checked_after_truncation_witness :
  snd (sample (inr x0) None None None (PyInt 2) false true
         (PyFloat (Finite (1 # 2))) None true false sampler)
    = inl (ValueError msg_thin)
  /\ snd (sample (inr x0) None None None (PyInt 2) false true (PyInt 1)
            (Some (PyFloat (Finite (1 # 2)))) true false sampler)
    = inl (ValueError msg_thin)
  /\ yielded (fst (fst (sample (inr x0) None None None (PyInt 2) false true
                          (PyFloat (Finite (1 # 2))) None true false sampler)))
     = []
  /\ yielded (fst (fst (sample (inr x0) None None None (PyInt 2) false true
                          (PyInt 1) (Some (PyFloat (Finite (1 # 2)))) true
                          false sampler)))
     = [].
Proof.
  apply (proj2 (proj2 (thinning_is_checked_after_truncation sampler _
                         (inr x0) None None None (PyInt 2) false true true
                         false (PyInt 1) (PyFloat (Finite (1 # 2))) 0 _ _
                         eq_refl eq_refl toy_propose_no_thinning_error))).
  lia.
Defined.



(** Pickling in a store that holds one sampler with a pool. *)
Lemma getstate_clears_pool_of_live_sampler_witness :
  exists h',
    __getstate__ 1%positive {[1%positive := pooled_sampler]} = Some (1%positive, h')
    /\ h' !! 1%positive = Some sampler
    /\ pool pooled_sampler = Some 8
    /\ call_method 1%positive (gets (fun s => select_map (pool s))) h'
         = Some ([], h', inr BuiltinMap).
Proof.
  destruct (getstate_clears_pool_of_live_sampler 1%positive
              {[1%positive := pooled_sampler]} pooled_sampler)
    as (h' & Hget & Hlook & _ & _ & _ & Hmap & _).
  - apply lookup_singleton_eq.
  - exists h'. split_and!; done.
Defined.

(** * The further properties on the toy sampler *)

(** A backend of two walkers handed to a sampler of three. *)
Lemma init_backend_shape_mismatch_witness :
  snd (__init__ (Move := nat) 3 1 gaussian None None None None
         (Some reset_backend) false None false false false false 0%nat 7%nat)
    = inl (ValueError msg_backend_shape)
  /\ kind_of (ValueError msg_backend_shape) = ShapeError.
Proof.
  apply (init_backend_shape_mismatch 3 1 gaussian None None None None
           reset_backend false None false false false false 0%nat 7%nat
           [0%nat] [Finite 1]).
  - reflexivity.
  - reflexivity.
  - vm_compute. congruence.
Defined.

(** The stream of the new sampler is the ambient state; a backend with a
    broken snapshot makes the constructor raise. *)
Lemma init_seeds_the_stream_witness :
  seed_of (default Backend_new None) 0%nat = RSnap (_random sampler)
  /\ exists e,
       snd (__init__ (Move := nat) 2 1 gaussian None None None None
              (Some junk_backend) false None false false false false 0%nat
              7%nat) = inl e.
Proof.
  split.
  - apply (proj1 (init_seeds_the_stream 2 1 gaussian None None None None None
                    false None false false false false 0%nat 7%nat) []).
    reflexivity.
  - apply (proj2 (init_seeds_the_stream 2 1 gaussian None None None None
                    (Some junk_backend) false None false false false false
                    0%nat 7%nat) 5); reflexivity.
Defined.

(** Weights 1 and 3 become 1/4 and 3/4. *)
Lemma init_normalizes_weights_witness :
  schedule_ok weighted_sampler
  /\ _moves weighted_sampler = [0%nat; 1%nat]
  /\ _weights weighted_sampler
     = map (fun q => Finite (q / qsum [1%Q; 3%Q])) [1%Q; 3%Q].
Proof.
  apply (init_normalizes_weights 2 1 gaussian None (Some weighted_moves) None
           None None false None false false false false 0%nat 7%nat []
           weighted_sampler eq_refl [1%Q; 3%Q]).
  - reflexivity.
  - repeat constructor; unfold Qle; simpl; lia.
  - unfold Qlt. simpl. lia.
Defined.

(** Two walkers, two calls, in order. *)
Lemma compute_log_prob_call_order_witness :
  let out := compute_log_prob x0 sampler in
  snd (fst out) = sampler
  /\ if vectorize sampler then calls (fst (fst out)) = [Batch x0]
     else
       match snd out with
       | inr r =>
           calls (fst (fst out)) = map Row x0
           /\ length (fst r) = length x0
       | inl (Raised what) =>
           exists done row rest,
             x0 = done ++ row :: rest
             /\ calls (fst (fst out)) = map Row (done ++ [row])
             /\ log_density sampler (Row row) = inl what
             /\ Forall (fun r => exists v, log_density sampler (Row r) = inr v)
                  done
       | inl _ => calls (fst (fst out)) = map Row x0
       end.
Proof. exact (compute_log_prob_call_order sampler x0 eq_refl eq_refl). Defined.

(** A number for the first walker, a number with a blob for the second. *)
Lemma compute_log_prob_mixed_results_witness :
  exists msg, snd (compute_log_prob x0 mixed_sampler) = inl (TypeError msg).
Proof.
  apply (compute_log_prob_mixed_results mixed_sampler x0 [Finite 0] [Finite 1]
           (PyFloat (Finite 0)) (PySeq [PyFloat (Finite 0); PyInt 1])).
  - reflexivity.
  - reflexivity.
  - intros row Hrow.
    apply elem_of_cons in Hrow as [->|Hrow]; [by eexists|].
    apply elem_of_cons in Hrow as [->|Hrow]; [by eexists|].
    by apply elem_of_nil in Hrow.
  - apply elem_of_cons. by left.
  - reflexivity.
  - by eexists.
  - apply elem_of_cons. right. apply elem_of_cons. by left.
  - reflexivity.
  - reflexivity.
Defined.

(** No walker at all. *)
Lemma compute_log_prob_without_results_witness :
  exists msg,
    snd (compute_log_prob [] sampler) = inl (IndexError msg)
    /\ kind_of (IndexError msg) = OtherError.
Proof.
  apply (compute_log_prob_without_results sampler []); reflexivity.
Defined.

(** One walker where two are expected; a coordinate that is NaN, on
    which the condition number raises; one log-probability for two
    walkers. *)
Lemma sample_checks_shapes_witness :
  sample (inr [[Finite 0]]) None None None (PyInt 1) false false (PyInt 1) None
    true false sampler = ([], sampler, inl (ValueError msg_shape))
  /\ sample (inr [[NaN]; [Finite 1]]) None None None (PyInt 1) false false
       (PyInt 1) None true false sampler
     = ([], sampler, inl (FromNumpy (NpError "SVD did not converge")))
  /\ (snd (sample (inl short_state) None None None (PyInt 1) false false
             (PyInt 1) None true false sampler) = inl (ValueError msg_shape)
      /\ fst (fst (sample (inl short_state) None None None (PyInt 1) false
                     false (PyInt 1) None true false sampler))
         = initial_warnings false (inl short_state) None None None
      /\ snd (fst (sample (inl short_state) None None None (PyInt 1) false
                     false (PyInt 1) None true false sampler))
         = seeded sampler (initial_snapshot (inl short_state) None)).
Proof.
  split; [|split].
  - apply (proj1 (sample_checks_shapes sampler (inr [[Finite 0]]) None None
                    None (PyInt 1) false false (PyInt 1) None true false)).
    reflexivity.
  - apply (proj1 (proj2 (sample_checks_shapes sampler
                           (inr [[NaN]; [Finite 1]]) None None None (PyInt 1)
                           false false (PyInt 1) None true false))
             (NpError "SVD did not converge")); reflexivity.
  - apply (proj2 (proj2 (sample_checks_shapes sampler (inl short_state) None
                           None None (PyInt 1) false false (PyInt 1) None true
                           false))
             [Finite 0] false).
    + reflexivity.
    + reflexivity.
    + reflexivity.
    + simpl. lia.
Defined.

(** Without log-probabilities the initial phase evaluates once. *)
Lemma sample_initial_evaluation_witness :
  let out := sample_initial_state (inr x0) None None None false sampler in
  calls (fst (fst out))
    = lp_calls (fst (compute_log_prob_fun sampler
                       (coords (State_init (rng := nat) (inr x0)))))
  /\ forall st, snd out = inr st ->
       exists lp,
         snd (compute_log_prob_fun sampler
                (coords (State_init (rng := nat) (inr x0))))
           = inr (lp, blobs st)
         /\ log_prob st = Some lp.
Proof.
  exact (sample_initial_evaluation sampler (inr x0) None None None false
           eq_refl).
Defined.

(** Five rounds with [thin = 2]: two checkpoints. *)
Lemma sample_thin_saves_every_thin_th_witness :
  exists ev self' ys,
    sample (inr x0) None None None (PyInt 5) false true (PyInt 1)
      (Some (PyInt 2)) true false swap_sampler = (ev, self', inr ys)
    /\ In (EvWarn "DeprecationWarning"
             "The 'thin' argument is deprecated. Use 'thin_by' instead.") ev
    /\ yielded ev = ys
    /\ Z.of_nat (length ys) = 5
    /\ Z.of_nat (count_token TChoice (skeleton ev)) = 5
    /\ Z.of_nat (count_token TPropose (skeleton ev)) = 5
    /\ Z.of_nat (count_token TYield (skeleton ev)) = 5
    /\ Z.of_nat (count_token TSave (skeleton ev)) = 5 / 2
    /\ stored self' = stored swap_sampler + 5 / 2
    /\ grown (backend self') = grown (backend swap_sampler) + 5 / 2.
Proof.
  eapply (sample_thin_saves_every_thin_th toy_draw_in_range (fun _ => True)
            swapped swap_sampler _ (inr x0) None None None false true
            (PyInt 1) true false 5 2).
  - exact swap_sampler_schedule_ok.
  - exact swap_proposals_return.
  - by repeat constructor.
  - vm_compute. reflexivity.
  - by left.
  - lia.
  - lia.
Defined.

(** [iterations = 0]. *)
Lemma sample_without_iterations_witness :
  exists ev0 self0 (state0 : State (rng := nat)),
    sample (inr x0) None None None (PyInt 0) false true (PyInt 1) None true
      false sampler
    = (ev0 ++ [EvGrow 0],
       set_backend (Backend_grow (backend self0) 0 (blobs state0)) self0,
       inr []).
Proof.
  eexists _, _, _.
  eapply (sample_without_iterations (inr x0) None None None false true
            (PyInt 1) true false 0 1 sampler).
  - vm_compute. reflexivity.
  - reflexivity.
  - lia.
  - lia.
  - reflexivity.
Defined.

(** [run_mcmc(x0, 0)] and then [run_mcmc(None, ...)]. *)
Lemma run_mcmc_without_steps_forgets_witness :
  exists ev self',
    run_mcmc (Some (inr x0)) (PyInt 0) None None None false true (PyInt 1) None
      true false sampler = (ev, self', inr None)
    /\ yielded ev = []
    /\ _previous_state self' = Some None
    /\ forall nsteps' lp0' rs0' b0' tune' skip' thin_by' thin' store' progress',
         run_mcmc None nsteps' lp0' rs0' b0' tune' skip' thin_by' thin' store'
           progress' self'
         = ([], self', inl (ValueError msg_missing)).
Proof.
  eapply (run_mcmc_without_steps_forgets (inr x0) None None None false true
            (PyInt 1) true false 0 1 sampler).
  - vm_compute. reflexivity.
  - reflexivity.
  - lia.
  - lia.
  - reflexivity.
Defined.

(** Two steps and one more, against three steps, with [thin_by = 2]. *)
Lemma run_mcmc_resumes_where_it_stopped_witness :
  exists ev1 self1 s,
    run_mcmc (Some (inr x0)) (PyInt 2) None None None true true (PyInt 2) None
      true false sampler = (ev1, self1, inr (Some s))
    /\ let resumed :=
         run_mcmc None (PyInt 1) None None None true false (PyInt 2) None true
           false self1 in
       let whole :=
         run_mcmc (Some (inr x0)) (PyInt (2 + 1)) None None None true true
           (PyInt 2) None true false sampler in
       snd whole = snd resumed
       /\ skeleton (fst (fst whole))
          = skeleton ev1 ++ skeleton (fst (fst resumed))
       /\ forall r, snd whole = inr r -> snd (fst whole) = snd (fst resumed).
Proof.
  eexists _, _, _. split; [vm_compute; reflexivity|].
  eapply (run_mcmc_resumes_where_it_stopped sampler _ (inr x0) None None None
            true true false true false false 2 1 2).
  - lia.
  - lia.
  - lia.
  - vm_compute. reflexivity.
  - split; [vm_compute; reflexivity|].
    split; [exists false; vm_compute; reflexivity|].
    eexists. split_and!; vm_compute; reflexivity.
Defined.

(** Two stored steps, then a new sampler on the backend. *)
Lemma new_sampler_on_used_backend_witness :
  exists ev self' (s : State (rng := nat)),
    run_mcmc (Some (inr x0)) (PyInt 2) None None None false true (PyInt 1) None
      true false sampler = (ev, self', inr (Some s))
    /\ get_last_sample self' = inr s
    /\ exists s_new : EnsembleSampler (Move := nat),
         snd (__init__ 2 1 gaussian None None None None (Some (backend self'))
                false None false false false false 0%nat 7%nat) = inr s_new
         /\ backend s_new = backend self'
         /\ _previous_state s_new = Some (Some s)
         /\ _random s_new = _random self'.
Proof.
  eexists _, _, _. split; [vm_compute; reflexivity|].
  eapply (new_sampler_on_used_backend sampler _ (inr x0) None None None false
            true false 2 1 _ _ 2%nat 1%nat gaussian None None None None false
            None false false false false 0%nat 7%nat [0%nat] [Finite 1]).
  - lia.
  - reflexivity.
  - reflexivity.
  - vm_compute. discriminate.
  - vm_compute. reflexivity.
  - reflexivity.
Defined.

End ToyFacts.
